(** * log4js-node: the logger registry and the pattern layout of lib/log4js.js

    A shallow embedding of [lib/log4js.js] and the properties of its
    levels, its category registry and its layouts.

    Conventions of the embedding.
    - JavaScript strings are [string]s of ASCII characters.
    - The objects [loggers], [appenders] and [levels] are used by the code
      as maps from names to values and are embedded as finite maps; names
      that collide with members inherited from [Object.prototype] are not
      part of the model.
    - A [Logger] is a heap object: the registry maps a category to the
      reference of its logger, so that identity of instances is identity of
      references.
    - Functions that can raise return an [Outcome]; stateful functions
      thread the registry through the monad [M]. *)

From Stdlib Require Import Ascii QArith Sorted.
From stdpp Require Import base option list gmap strings pretty.

Local Open Scope Z_scope.
Local Open Scope nat_scope.

(** ** Outcomes of a call *)

Inductive JsError : Type :=
| TypeError (msg : string).

(** A call returns a value, or raises.  [Exhausted] is the outcome of a
    loop of the model whose iteration budget ran out; the theorems on the
    loops show that the budget they are given is never used up. *)
Inductive Outcome (A : Type) : Type :=
| Returned (a : A)
| Thrown (e : JsError)
| Exhausted.
Arguments Returned {A} a.
Arguments Thrown {A} e.
Arguments Exhausted {A}.

(** ** The JavaScript values the code inspects *)

(** [parseInt] yields an integer or [NaN]. *)
Inductive number : Type :=
| NaN
| Int (z : Z).

Module Str.

(** [s.length] *)
Definition length : string → nat := String.length.

(** [s.substr(start)] for a start inside [0 .. s.length] or beyond. *)
Fixpoint substr (start : nat) (s : string) : string :=
  match start, s with
  | O, _ => s
  | S n, String _ s' => substr n s'
  | S _, EmptyString => EmptyString
  end.

(** The first [n] characters: [s.substring(0, n)] for a natural [n]. *)
Fixpoint prefix (n : nat) (s : string) : string :=
  match n, s with
  | S n', String c s' => String c (prefix n' s')
  | _, _ => EmptyString
  end.

(** [s.substring(0, len)]: [NaN] and negative ends count as 0. *)
Definition substring0 (len : number) (s : string) : string :=
  match len with
  | NaN => EmptyString
  | Int z => prefix (Z.to_nat z) s
  end.

(** [s.substring(from, to)] for naturals [from <= to]. *)
Definition substring (from to : nat) (s : string) : string :=
  prefix (to - from) (substr from s).

(** [s.charAt(0)], the empty string when [s] is empty. *)
Definition charAt0 (s : string) : string :=
  match s with
  | String c _ => String c EmptyString
  | EmptyString => EmptyString
  end.

Definition upper (c : ascii) : ascii :=
  let n := Ascii.nat_of_ascii c in
  if (97 <=? n) && (n <=? 122) then Ascii.ascii_of_nat (n - 32) else c.

Definition lower (c : ascii) : ascii :=
  let n := Ascii.nat_of_ascii c in
  if (65 <=? n) && (n <=? 90) then Ascii.ascii_of_nat (n + 32) else c.

Fixpoint map (f : ascii → ascii) (s : string) : string :=
  match s with
  | EmptyString => EmptyString
  | String c s' => String (f c) (map f s')
  end.

(** [s.toUpperCase()] and [s.toLowerCase()] *)
Definition toUpperCase : string → string := map upper.
Definition toLowerCase : string → string := map lower.

(** [s.split(sep)] for a one-character separator: the pieces between
    the separators, of which there is always at least one. *)
Fixpoint split (sep : ascii) (s : string) : list string :=
  match s with
  | EmptyString => [EmptyString]
  | String c s' =>
      if Ascii.eqb c sep then EmptyString :: split sep s'
      else match split sep s' with
           | piece :: pieces => String c piece :: pieces
           | [] => [String c EmptyString]
           end
  end.

(** [bits.join(sep)] *)
Fixpoint join (sep : string) (bits : list string) : string :=
  match bits with
  | [] => EmptyString
  | [b] => b
  | b :: bs => b +:+ sep +:+ join sep bs
  end.

(** [s] starts with [p]. *)
Fixpoint startsWith (p s : string) : bool :=
  match p, s with
  | EmptyString, _ => true
  | String a p', String b s' => Ascii.eqb a b && startsWith p' s'
  | String _ _, EmptyString => false
  end.

(** [s.indexOf(p) > -1] *)
Fixpoint contains (p s : string) : bool :=
  startsWith p s ||
  match s with
  | EmptyString => false
  | String _ s' => contains p s'
  end.

(** The truth value of a string in a condition: non-empty. *)
Definition truthy (s : string) : bool :=
  match s with
  | EmptyString => false
  | String _ _ => true
  end.

Definition isDigit (c : ascii) : bool :=
  let n := Ascii.nat_of_ascii c in (48 <=? n) && (n <=? 57).

Definition isWhiteSpace (c : ascii) : bool :=
  let n := Ascii.nat_of_ascii c in
  ((9 <=? n) && (n <=? 13)) || (n =? 32).

Fixpoint skipWhiteSpace (s : string) : string :=
  match s with
  | String c s' => if isWhiteSpace c then skipWhiteSpace s' else s
  | EmptyString => s
  end.

(** The value of the leading decimal digits of [s] after the digits
    already read ([acc]); [None] when [s] does not start with a digit
    and none was read. *)
Fixpoint digits (acc : option Z) (s : string) : option Z :=
  match s with
  | String c s' =>
      if isDigit c
      then digits (Some (10 * default 0%Z acc
                         + Z.of_nat (Ascii.nat_of_ascii c - 48))%Z) s'
      else acc
  | EmptyString => acc
  end.

(** [parseInt(s, 10)]: leading white space, an optional sign, then
    the longest run of decimal digits; [NaN] without a digit. *)
Definition parseInt (s : string) : number :=
  match skipWhiteSpace s with
  | String "-"%char s' =>
      match digits None s' with Some z => Int (- z)%Z | None => NaN end
  | String "+"%char s' =>
      match digits None s' with Some z => Int z | None => NaN end
  | s' =>
      match digits None s' with Some z => Int z | None => NaN end
  end.

End Str.

(** ** Regular expressions

    The regular expressions of the file, with the backtracking semantics
    of [RegExp.prototype.exec]: alternatives are tried left to right,
    quantifiers are greedy, the first start position with a match wins.
    Repetition is needed over character classes only. *)

Module Regex.

Inductive regex : Type :=
| Chr (c : ascii)                              (* a literal character *)
| Cls (p : ascii → bool)                       (* a character class *)
| Seq (r1 r2 : regex)                          (* r1 r2 *)
| Alt (r1 r2 : regex)                          (* r1|r2 *)
| Opt (r : regex)                              (* r? *)
| Rep (p : ascii → bool) (lo : nat) (hi : option nat)
                                               (* [p]{lo,hi}; [p]+ *)
| Grp (i : nat) (r : regex).                   (* the i-th capture *)

Definition Plus (p : ascii → bool) : regex := Rep p 1 None.

(** The captures: entry [i] is [None] while group [i] is undefined. *)
Abbreviation captures := (list (option string)).

Section Matcher.
Context {R : Type}.

(** Between [lo] and [hi] characters of the class [p], as many as the
    continuation [k] accepts. *)
Fixpoint rep (p : ascii → bool) (lo hi : nat) (s : string)
    (k : string → option R) : option R :=
  let stop := if lo is O then k s else None in
  match hi, s with
  | S hi', String c s' =>
      if p c
      then match rep p (pred lo) hi' s' k with
           | Some res => Some res
           | None => stop
           end
      else stop
  | _, _ => stop
  end.

(** [run r s caps k]: match [r] at the start of [s] and hand what is
    left of [s], with the captures, to [k]; when [k] refuses, the
    next alternative of [r] is tried. *)
Fixpoint run (r : regex) (s : string) (caps : captures)
    (k : string → captures → option R) : option R :=
  match r with
  | Chr c =>
      match s with
      | String c' s' => if Ascii.eqb c c' then k s' caps else None
      | EmptyString => None
      end
  | Cls p =>
      match s with
      | String c' s' => if p c' then k s' caps else None
      | EmptyString => None
      end
  | Seq r1 r2 => run r1 s caps (λ s1 caps1, run r2 s1 caps1 k)
  | Alt r1 r2 =>
      match run r1 s caps k with
      | Some res => Some res
      | None => run r2 s caps k
      end
  | Opt r1 =>
      match run r1 s caps k with
      | Some res => Some res
      | None => k s caps
      end
  | Rep p lo hi =>
      rep p lo (default (Str.length s) hi) s (λ s1, k s1 caps)
  | Grp i r1 =>
      run r1 s caps (λ s1 caps1,
        k s1 (<[i := Some (Str.prefix (Str.length s - Str.length s1) s)]>
                caps1))
  end.
End Matcher.

(** The array [exec] returns: [index], and the groups, of which group 0
    is the matched text. *)
Record MatchResult : Type := {
  index : nat;
  groups : captures;
}.

(** [result[i]]; [None] is [undefined]. *)
Definition group (result : MatchResult) (i : nat) : option string :=
  mjoin (groups result !! i).

(** The match of [r] at the start of [s]: the rest of [s] and the groups. *)
Definition matchAt (ngroups : nat) (r : regex) (s : string)
    : option (string * captures) :=
  run (Grp 0 r) s (replicate (S ngroups) None) (λ rest caps, Some (rest, caps)).

(** [exec] from the start positions [index], [index + 1], ... of which
    [s] is what is left of the subject. *)
Fixpoint execFrom (ngroups : nat) (r : regex) (s : string) (index : nat)
    : option MatchResult :=
  match matchAt ngroups r s with
  | Some (_, caps) => Some {| index := index; groups := caps |}
  | None =>
      match s with
      | String _ s' => execFrom ngroups r s' (S index)
      | EmptyString => None
      end
  end.

(** [r.exec(s)] for a regular expression without the global flag. *)
Definition exec (ngroups : nat) (r : regex) (s : string)
    : option MatchResult :=
  execFrom ngroups r s 0.

(** [s.replace(r, by)] for a regular expression with the global flag:
    every match, left to right, is replaced.  An empty match is
    replaced too, and the scan moves on by one character. *)
Fixpoint replaceLoop (fuel : nat) (r : regex) (by_ : string) (s : string)
    : string :=
  match fuel with
  | O => s
  | S fuel' =>
      match matchAt 0 r s, s with
      | Some (rest, _), String c s' =>
          if Str.length rest <? Str.length s
          then by_ +:+ replaceLoop fuel' r by_ rest
          else by_ +:+ String c (replaceLoop fuel' r by_ s')
      | Some _, EmptyString => by_
      | None, String c s' => String c (replaceLoop fuel' r by_ s')
      | None, EmptyString => EmptyString
      end
  end.

(** Every turn of the scan takes a character of [s] or ends it, so
    that [s.length + 1] turns are enough. *)
Definition replace (r : regex) (by_ : string) (s : string) : string :=
  replaceLoop (S (Str.length s)) r by_ s.

(** [consuming r]: a match of [r] takes at least one character. *)
Fixpoint consuming (r : regex) : bool :=
  match r with
  | Chr _ | Cls _ => true
  | Seq r1 r2 => consuming r1 || consuming r2
  | Alt r1 r2 => consuming r1 && consuming r2
  | Opt _ => false
  | Rep _ lo _ => negb (lo =? 0)
  | Grp _ r1 => consuming r1
  end.

(** The groups of [r]. *)
Fixpoint groupIndices (r : regex) : list nat :=
  match r with
  | Chr _ | Cls _ | Rep _ _ _ => []
  | Seq r1 r2 | Alt r1 r2 => groupIndices r1 ++ groupIndices r2
  | Opt r1 => groupIndices r1
  | Grp i r1 => i :: groupIndices r1
  end.

(** The literal text [p] as a regular expression. *)
Fixpoint literal (c : ascii) (p : string) : regex :=
  match p with
  | EmptyString => Chr c
  | String c' p' => Seq (Chr c) (literal c' p')
  end.

End Regex.

Import Regex.

(** ** Levels *)

Module Level.

(** [function Level(level, levelStr)].  The ranks are doubles that are
    only ever compared; they are kept as the rationals they denote. *)
Record Level : Type := {
  level : Q;
  levelStr : string;
}.

(** [toString] *)
Definition toString (this : Level) : string := levelStr this.

End Level.

Abbreviation Level := Level.Level.

(** [Number.MIN_VALUE], the least positive double, and [Number.MAX_VALUE]. *)
Definition Number_MIN_VALUE : Q := Qmake 1 (2 ^ 1074).
Definition Number_MAX_VALUE : Q := inject_Z ((2 ^ 53 - 1) * 2 ^ 971).

Definition ALL : Level := {| Level.level := Number_MIN_VALUE; Level.levelStr := "ALL" |}.
Definition TRACE : Level := {| Level.level := inject_Z 5000; Level.levelStr := "TRACE" |}.
Definition DEBUG : Level := {| Level.level := inject_Z 10000; Level.levelStr := "DEBUG" |}.
Definition INFO : Level := {| Level.level := inject_Z 20000; Level.levelStr := "INFO" |}.
Definition WARN : Level := {| Level.level := inject_Z 30000; Level.levelStr := "WARN" |}.
Definition ERROR : Level := {| Level.level := inject_Z 40000; Level.levelStr := "ERROR" |}.
Definition FATAL : Level := {| Level.level := inject_Z 50000; Level.levelStr := "FATAL" |}.
Definition OFF : Level := {| Level.level := Number_MAX_VALUE; Level.levelStr := "OFF" |}.

(** The entries of the object [levels], in the order of the source. *)
Definition levelTable : list (string * Level) :=
  [ ("ALL", ALL); ("TRACE", TRACE); ("DEBUG", DEBUG); ("INFO", INFO);
    ("WARN", WARN); ("ERROR", ERROR); ("FATAL", FATAL); ("OFF", OFF) ].

Definition levels : gmap string Level := list_to_map levelTable.

(** The values that reach the functions of the file as arguments whose
    type the code tests. *)
Inductive value : Type :=
| JsUndefined
| JsNull
| JsBoolean (b : bool)
| JsNumber (n : Z)
| JsString (s : string)
| JsLevel (l : Level).

(** [v || w] and [if (v)] look at the truth value of [v]. *)
Definition truthy (v : value) : bool :=
  match v with
  | JsUndefined | JsNull => false
  | JsBoolean b => b
  | JsNumber n => negb (n =? 0)%Z
  | JsString s => Str.truthy s
  | JsLevel _ => true
  end.

Module LevelOps.

(** [Level.toLevel(sArg, defaultLevel)]; a default that is not passed
    is [undefined], here [None]. *)
Definition toLevel (sArg : value) (defaultLevel : option Level)
    : option Level :=
  match sArg with
  | JsNull => defaultLevel
  | JsString sArg =>
      let s := Str.toUpperCase sArg in
      match levels !! s with
      | Some l => Some l
      | None => defaultLevel
      end
  | _ => defaultLevel
  end.

(** [this.level <= otherLevel.level]; reading [level] off [undefined]
    raises. *)
Definition isLessThanOrEqualTo (this : Level) (otherLevel : option Level)
    : Outcome bool :=
  match otherLevel with
  | Some other => Returned (Qle_bool (Level.level this) (Level.level other))
  | None => Thrown (TypeError "Cannot read property 'level' of undefined")
  end.

(** [this.level >= otherLevel.level] *)
Definition isGreaterThanOrEqualTo (this : Level) (otherLevel : option Level)
    : Outcome bool :=
  match otherLevel with
  | Some other => Returned (Qle_bool (Level.level other) (Level.level this))
  | None => Thrown (TypeError "Cannot read property 'level' of undefined")
  end.

End LevelOps.

(** ** Dates and their formatting *)

Module Date.

(** A [Date] as the code observes it: through its getters. *)
Record Date : Type := {
  getDate : nat;
  getMonth : nat;
  getFullYear : Z;
  getHours : nat;
  getMinutes : nat;
  getSeconds : nat;
  getMilliseconds : nat;
  getTimezoneOffset : Z;
  toLocaleTimeString : string;
}.

Definition ISO8601_FORMAT : string := "yyyy-MM-dd hh:mm:ss.SSS".
Definition ISO8601_WITH_TZ_OFFSET_FORMAT : string := "yyyy-MM-ddThh:mm:ssO".
Definition DATETIME_FORMAT : string := "dd MMM YYYY hh:mm:ss.SSS".
Definition ABSOLUTETIME_FORMAT : string := "hh:mm:ss.SSS".

(** The loop of [padWithZeros]: a ["0"] in front while the text is
    shorter than [width]. *)
Fixpoint padWithZerosLoop (fuel : nat) (numAsString : string) (width : nat)
    : string :=
  match fuel with
  | O => numAsString
  | S fuel' =>
      if Str.length numAsString <? width
      then padWithZerosLoop fuel' ("0" +:+ numAsString) width
      else numAsString
  end.

(** [padWithZeros(vNumber, width)] on the text of [vNumber + ""]. *)
Definition padWithZeros (numAsString : string) (width : nat) : string :=
  padWithZerosLoop width numAsString width.

Definition addZero (numAsString : string) : string :=
  padWithZeros numAsString 2.

(** [offset(date)] *)
Definition offset (date : Date) : string :=
  let os := Z.abs (getTimezoneOffset date) in
  let h := pretty (os / 60)%Z in
  let m := pretty (os mod 60)%Z in
  let h := if Str.length h =? 1 then "0" +:+ h else h in
  let m := if Str.length m =? 1 then "0" +:+ m else m in
  if (getTimezoneOffset date <? 0)%Z then "+" +:+ h +:+ m
  else "-" +:+ h +:+ m.

Definition isChar (c : ascii) : ascii → bool := Ascii.eqb c.

(** [Date.prototype.toFormattedString(format)]; [None] is a format
    that was not passed. *)
Definition toFormattedString (this : Date) (format : option string)
    : string :=
  let format :=
    match format with
    | Some f => if Str.truthy f then f else ISO8601_FORMAT
    | None => ISO8601_FORMAT
    end in
  let vDay := addZero (pretty (getDate this)) in
  let vMonth := addZero (pretty (getMonth this + 1)) in
  let vYearLong := addZero (pretty (getFullYear this)) in
  let vYearShort :=
    addZero (Str.substring 3 4 (pretty (getFullYear this))) in
  let vYear :=
    if Str.contains "yyyy" format then vYearLong else vYearShort in
  let vHour := addZero (pretty (getHours this)) in
  let vMinute := addZero (pretty (getMinutes this)) in
  let vSecond := addZero (pretty (getSeconds this)) in
  let vMillisecond := padWithZeros (pretty (getMilliseconds this)) 3 in
  let vTimeZone := offset this in
  let formatted :=
    replace (Chr "O") vTimeZone
    (replace (literal "S" "SS") vMillisecond
    (replace (literal "s" "s") vSecond
    (replace (literal "m" "m") vMinute
    (replace (literal "h" "h") vHour
    (replace (Rep (isChar "y") 1 (Some 4)) vYear
    (replace (literal "M" "M") vMonth
    (replace (literal "d" "d") vDay format))))))) in
  formatted.

End Date.

Abbreviation Date := Date.Date.

(** ** Logging events *)

Module Exception.
(** The error object a log call may carry. *)
Record Exception : Type := {
  name : string;
  message : string;
  stack : option string;
}.
End Exception.

Abbreviation Exception := Exception.Exception.

Module LoggingEvent.
(** [function LoggingEvent(categoryName, level, message, exception,
    logger)]; [logger] is the reference of the logger. *)
Record LoggingEvent : Type := {
  startTime : Date;
  categoryName : string;
  message : string;
  exception : option Exception;
  level : Level;
  logger : nat;
}.
End LoggingEvent.

Abbreviation LoggingEvent := LoggingEvent.LoggingEvent.

(** ** Layouts *)

(** An object as far as the code reads it: its properties by name.  A
    property that is not there reads as [undefined]. *)
Definition getProperty (o : gmap string value) (p : string) : value :=
  default JsUndefined (o !! p).

(** The global object, the receiver of a function that is called as a
    plain function.  Nothing in the file defines a global [pattern]. *)
Definition globalObject : gmap string value := ∅.

(** A layout is a function of the logging event; as every function it is
    called with a receiver [this]. *)
Definition Layout : Type := gmap string value → LoggingEvent → Outcome string.

(** A layout that does not look at its receiver and does not raise. *)
Definition layoutOf (f : LoggingEvent → string) : Layout :=
  λ _ loggingEvent, Returned (f loggingEvent).

(** [basicLayout(loggingEvent)] *)
Definition basicLayout (loggingEvent : LoggingEvent) : string :=
  let timestampLevelAndCategory :=
    "[" +:+ Date.toFormattedString (LoggingEvent.startTime loggingEvent) None
        +:+ "] " in
  let timestampLevelAndCategory :=
    timestampLevelAndCategory
      +:+ "[" +:+ Level.toString (LoggingEvent.level loggingEvent) +:+ "] " in
  let timestampLevelAndCategory :=
    timestampLevelAndCategory
      +:+ LoggingEvent.categoryName loggingEvent +:+ " - " in
  let output :=
    timestampLevelAndCategory +:+ LoggingEvent.message loggingEvent in
  match LoggingEvent.exception loggingEvent with
  | Some exception =>
      let output := output +:+ String "010" EmptyString in
      let output := output +:+ timestampLevelAndCategory in
      match Exception.stack exception with
      | Some stack =>
          if Str.truthy stack then output +:+ stack
          else output +:+ Exception.name exception +:+ ": "
                      +:+ Exception.message exception
      | None =>
          output +:+ Exception.name exception +:+ ": "
                 +:+ Exception.message exception
      end
  | None => output
  end.

(** [messagePassThroughLayout(loggingEvent)] *)
Definition messagePassThroughLayout (loggingEvent : LoggingEvent) : string :=
  LoggingEvent.message loggingEvent.

Module PatternLayout.

(** [[cdmnpr%]] *)
Definition isConversionCharacter (c : ascii) : bool :=
  match c with
  | "c" | "d" | "m" | "n" | "p" | "r" | "%" => true
  | _ => false
  end%char.

Definition isNot (c : ascii) : ascii → bool := λ c', negb (Ascii.eqb c c').

(** [/%(-?[0-9]+)?(\.?[0-9]+)?([cdmnpr%])(\{([^\}]+)\})?|([^%]+)/] *)
Definition regex : Regex.regex :=
  Alt
    (Seq (Chr "%")
    (Seq (Opt (Grp 1 (Seq (Opt (Chr "-")) (Plus Str.isDigit))))
    (Seq (Opt (Grp 2 (Seq (Opt (Chr ".")) (Plus Str.isDigit))))
    (Seq (Grp 3 (Cls isConversionCharacter))
         (Opt (Grp 4 (Seq (Chr "{")
                     (Seq (Grp 5 (Plus (isNot "}")))
                          (Chr "}")))))))))
    (Grp 6 (Plus (isNot "%"))).

(** The characters that can follow the [%] of a directive. *)
Definition directiveStart (c : ascii) : bool :=
  Ascii.eqb "-" c || Str.isDigit c || Ascii.eqb "." c
  || isConversionCharacter c.

(** [if (x)] on a group of the match: defined and not empty. *)
Definition present (x : option string) : bool :=
  match x with
  | Some s => Str.truthy s
  | None => false
  end.

(** [String(v)], the subject [exec] searches when it is given [v]. *)
Definition toString (v : value) : string :=
  match v with
  | JsUndefined => "undefined"
  | JsNull => "null"
  | JsBoolean true => "true"
  | JsBoolean false => "false"
  | JsNumber n => pretty n
  | JsString s => s
  | JsLevel l => Level.toString l
  end.

(** [v.substr(start)]: only a string has the method. *)
Definition substr (v : value) (start : nat) : Outcome value :=
  match v with
  | JsString s => Returned (JsString (Str.substr start s))
  | JsUndefined =>
      Thrown (TypeError "Cannot call method 'substr' of undefined")
  | JsNull => Thrown (TypeError "Cannot call method 'substr' of null")
  | _ => Thrown (TypeError "Property 'substr' is not a function")
  end.

(** [case "c"] *)
Definition categoryReplacement (loggingEvent : LoggingEvent)
    (specifier : option string) : string :=
  let loggerName := LoggingEvent.categoryName loggingEvent in
  match specifier with
  | Some specifier' =>
      if Str.truthy specifier' then
        let precision := Str.parseInt specifier' in
        let loggerNameBits :=
          Str.split "." (LoggingEvent.categoryName loggingEvent) in
        match precision with
        | Int precision =>
            if (Z.of_nat (length loggerNameBits) <=? precision)%Z
            then loggerName
            else
              (* slice(start) with start = length - precision, which is
                 positive here; a start beyond the end gives [] *)
              Str.join "."
                (drop (Z.to_nat (Z.of_nat (length loggerNameBits) - precision))
                      loggerNameBits)
        | NaN =>
            (* NaN >= length is false, and slice(NaN) is slice(0) *)
            Str.join "." loggerNameBits
        end
      else loggerName
  | None => loggerName
  end.

(** [case "d"] *)
Definition dateReplacement (loggingEvent : LoggingEvent)
    (specifier : option string) : string :=
  let dateFormat := Date.ISO8601_FORMAT in
  let dateFormat :=
    match specifier with
    | Some specifier' =>
        if Str.truthy specifier' then
          if String.eqb specifier' "ISO8601" then Date.ISO8601_FORMAT
          else if String.eqb specifier' "ABSOLUTE"
               then Date.ABSOLUTETIME_FORMAT
          else if String.eqb specifier' "DATE" then Date.DATETIME_FORMAT
          else specifier'
        else dateFormat
    | None => dateFormat
    end in
  Date.toFormattedString (LoggingEvent.startTime loggingEvent)
    (Some dateFormat).

(** The [switch] on the conversion character. *)
Definition rawReplacement (loggingEvent : LoggingEvent)
    (conversionCharacter specifier : option string)
    (matchedString : string) : string :=
  match conversionCharacter with
  | Some "c" => categoryReplacement loggingEvent specifier
  | Some "d" => dateReplacement loggingEvent specifier
  | Some "m" => LoggingEvent.message loggingEvent
  | Some "n" => String "010" EmptyString
  | Some "p" => Level.toString (LoggingEvent.level loggingEvent)
  | Some "r" =>
      Date.toLocaleTimeString (LoggingEvent.startTime loggingEvent)
  | Some "%" => "%"
  | _ => matchedString
  end.

(** [while (replacement.length < len) replacement += " "] *)
Fixpoint padRightLoop (fuel : nat) (len : Z) (replacement : string)
    : string :=
  match fuel with
  | O => replacement
  | S fuel' =>
      if (Z.of_nat (Str.length replacement) <? len)%Z
      then padRightLoop fuel' len (replacement +:+ " ")
      else replacement
  end.

(** [while (replacement.length < len) replacement = " " + replacement] *)
Fixpoint padLeftLoop (fuel : nat) (len : Z) (replacement : string)
    : string :=
  match fuel with
  | O => replacement
  | S fuel' =>
      if (Z.of_nat (Str.length replacement) <? len)%Z
      then padLeftLoop fuel' len (" " +:+ replacement)
      else replacement
  end.

(** The loops compare the length with [len]; against [NaN] the
    comparison is false.  [len] iterations are enough to reach it. *)
Definition padRight (len : number) (replacement : string) : string :=
  match len with
  | Int len => padRightLoop (Z.to_nat len) len replacement
  | NaN => replacement
  end.

Definition padLeft (len : number) (replacement : string) : string :=
  match len with
  | Int len => padLeftLoop (Z.to_nat len) len replacement
  | NaN => replacement
  end.

(** Truncation first, then padding. *)
Definition truncateAndPad (padding truncation : option string)
    (replacement : string) : string :=
  let replacement :=
    if present truncation then
      let len := Str.parseInt (Str.substr 1 (default "" truncation)) in
      Str.substring0 len replacement
    else replacement in
  if present padding then
    let padding' := default "" padding in
    if String.eqb (Str.charAt0 padding') "-" then
      let len := Str.parseInt (Str.substr 1 padding') in
      padRight len replacement
    else
      let len := Str.parseInt padding' in
      padLeft len replacement
  else replacement.

(** One turn of the [while] loop on a match [result]: what is added
    to [formattedString]. *)
Definition formatMatch (loggingEvent : LoggingEvent)
    (result : MatchResult) : string :=
  let matchedString := default "" (group result 0) in
  let padding := group result 1 in
  let truncation := group result 2 in
  let conversionCharacter := group result 3 in
  let specifier := group result 5 in
  let text := group result 6 in
  if present text then default "" text
  else
    let replacement :=
      rawReplacement loggingEvent conversionCharacter specifier
        matchedString in
    truncateAndPad padding truncation replacement.

(** [while ((result = regex.exec(searchString))) { ... }] *)
Fixpoint formatLoop (fuel : nat) (loggingEvent : LoggingEvent)
    (searchString : value) (formattedString : string) : Outcome string :=
  match fuel with
  | O => Exhausted
  | S fuel' =>
      match exec 6 regex (toString searchString) with
      | None => Returned formattedString
      | Some result =>
          let formattedString :=
            formattedString +:+ formatMatch loggingEvent result in
          match substr searchString
                  (index result
                   + Str.length (default "" (group result 0))) with
          | Returned searchString' =>
              formatLoop fuel' loggingEvent searchString' formattedString
          | Thrown e => Thrown e
          | Exhausted => Exhausted
          end
      end
  end.

(** The function [patternLayout] returns, given the string it scans. *)
Definition format (searchString : value) (loggingEvent : LoggingEvent)
    : Outcome string :=
  formatLoop (S (Str.length (toString searchString))) loggingEvent
    searchString "".

(** [patternLayout.TTCC_CONVERSION_PATTERN]: the function has no such
    property ([TTCC_CONVERSION_PATTERN] is a local variable). *)
Definition patternLayout_TTCC_CONVERSION_PATTERN : value := JsUndefined.

(** [patternLayout(pattern)].  The function it returns scans
    [this.pattern]. *)
Definition patternLayout (pattern : value) : Layout :=
  let TTCC_CONVERSION_PATTERN := "%r %p %c - %m%n" in
  let pattern :=
    if truthy pattern then pattern
    else patternLayout_TTCC_CONVERSION_PATTERN in
  λ this loggingEvent,
    let searchString := getProperty this "pattern" in
    format searchString loggingEvent.

End PatternLayout.

Abbreviation patternLayout := PatternLayout.patternLayout.

(** ** Loggers, appenders and the registry *)

Definition DEFAULT_CATEGORY : string := "[default]".
Definition ALL_CATEGORIES : string := "[all]".

(** The arguments of [addAppender] after the appender: zero or more
    categories, of which one that is not passed is [undefined] ([None]);
    or an array of categories as the first of them, after which the
    others are not looked at. *)
Inductive CategoryArgs : Type :=
| Categories (categories : list (option string))
| CategoryArray (categories : list string).

(** The property name a category stands for: [undefined] is the key
    ["undefined"], which is not [ALL_CATEGORIES]. *)
Definition categoryKey (category : option string) : string :=
  default "undefined" category.

Section Registry.

(** What the appenders write to: the console, files, ... *)
Context {World : Type}.

(** An appender is a function of the logging event, called for its
    effect; it may raise. *)
Definition Appender : Type := LoggingEvent → World → Outcome unit * World.

(** [function Logger(name, level)], an [EventEmitter]: [listeners] are
    its listeners for ["log"], in the order they were added. *)
Record Logger : Type := {
  category : string;
  level : Level;
  listeners : list Appender;
}.

(** The state of the module: the objects [loggers] and [appenders],
    the loggers by reference, and the world outside.  [now] is what
    [new Date()] reads.  The last two fields are ghost state: the events
    [new LoggingEvent] built and the calls of listeners made by [emit],
    oldest first. *)
Record Registry : Type := {
  heap : list Logger;
  loggers : gmap string nat;
  appenders : gmap string (list Appender);
  world : World;
  now : Date;
  constructed : list LoggingEvent;
  invoked : list (Appender * LoggingEvent);
}.

Definition setHeap (h : list Logger) (st : Registry) : Registry :=
  {| heap := h; loggers := loggers st; appenders := appenders st;
     world := world st; now := now st; constructed := constructed st;
     invoked := invoked st |}.

Definition setLoggers (m : gmap string nat) (st : Registry) : Registry :=
  {| heap := heap st; loggers := m; appenders := appenders st;
     world := world st; now := now st; constructed := constructed st;
     invoked := invoked st |}.

Definition setAppenders (m : gmap string (list Appender)) (st : Registry)
    : Registry :=
  {| heap := heap st; loggers := loggers st; appenders := m;
     world := world st; now := now st; constructed := constructed st;
     invoked := invoked st |}.

Definition setWorld (w : World) (st : Registry) : Registry :=
  {| heap := heap st; loggers := loggers st; appenders := appenders st;
     world := w; now := now st; constructed := constructed st;
     invoked := invoked st |}.

Definition noteConstructed (e : LoggingEvent) (st : Registry) : Registry :=
  {| heap := heap st; loggers := loggers st; appenders := appenders st;
     world := world st; now := now st;
     constructed := constructed st ++ [e]; invoked := invoked st |}.

Definition noteInvoked (a : Appender) (e : LoggingEvent) (st : Registry)
    : Registry :=
  {| heap := heap st; loggers := loggers st; appenders := appenders st;
     world := world st; now := now st; constructed := constructed st;
     invoked := invoked st ++ [(a, e)] |}.

(** The module when it is loaded: [loggers = {}], [appenders = {}]. *)
Definition initial (w : World) (clock : Date) : Registry :=
  {| heap := []; loggers := ∅; appenders := ∅; world := w; now := clock;
     constructed := []; invoked := [] |}.

(** Stateful calls. *)
Definition M (A : Type) : Type := Registry → Outcome A * Registry.

(** [new Logger(name)]: the level argument is not passed. *)
Definition newLogger (name : string) : Logger :=
  {| category := if Str.truthy name then name else DEFAULT_CATEGORY;
     level := default TRACE (LevelOps.toLevel JsUndefined (Some TRACE));
     listeners := [] |}.

(** The logger [l] with other listeners, with another level. *)
Definition withListeners (ls : list Appender) (l : Logger) : Logger :=
  {| category := category l; level := level l; listeners := ls |}.

Definition withLevel (lv : Level) (l : Logger) : Logger :=
  {| category := category l; level := lv; listeners := listeners l |}.

(** [this.addListener("log", listener)] on the logger at [this]. *)
Definition addListener (this : nat) (listener : Appender) (st : Registry)
    : Registry :=
  setHeap
    (alter (λ l, withListeners (listeners l ++ [listener]) l)
           this (heap st))
    st.

(** [this.removeAllListeners("log")] *)
Definition removeAllListeners (this : nat) (st : Registry) : Registry :=
  setHeap (alter (withListeners []) this (heap st)) st.

(** [appenderList.forEach(function(appender) {
      loggers[categoryName].addListener("log", appender); })] *)
Definition addListeners (this : nat) (appenderList : list Appender)
    (st : Registry) : Registry :=
  foldl (λ st appender, addListener this appender st) st appenderList.

(** [getLogger(categoryName)]: the reference of the logger. *)
Definition getLogger (categoryName : value) (st : Registry)
    : nat * Registry :=
  let categoryName :=
    match categoryName with
    | JsString s => s
    | _ => DEFAULT_CATEGORY
    end in
  match loggers st !! categoryName with
  | Some this => (this, st)
  | None =>
      let this := length (heap st) in
      let st := setHeap (heap st ++ [newLogger categoryName]) st in
      let st := setLoggers (<[categoryName := this]> (loggers st)) st in
      let st :=
        match appenders st !! categoryName with
        | Some appenderList => addListeners this appenderList st
        | None => st
        end in
      let st :=
        match appenders st !! ALL_CATEGORIES with
        | Some appenderList => addListeners this appenderList st
        | None => st
        end in
      (this, st)
  end.

(** [getDefaultLogger()] *)
Definition getDefaultLogger (st : Registry) : nat * Registry :=
  getLogger (JsString DEFAULT_CATEGORY) st.

(** The categories [addAppender] goes through, from its arguments
    after the appender:
    [if (args.length == 0 || args[0] === undefined) args = [ALL_CATEGORIES];
     if (args[0].forEach) args = args[0];] *)
Definition categoriesOf (args : CategoryArgs) : list string :=
  match args with
  | Categories [] | Categories (None :: _) => [ALL_CATEGORIES]
  | Categories categories => categoryKey <$> categories
  | CategoryArray categories => categories
  end.

(** [for (var logger in loggers) loggers[logger].addListener("log",
    appender)] *)
Definition addListenerToAll (appender : Appender) (st : Registry)
    : Registry :=
  foldl (λ st entry, addListener entry.2 appender st) st
        (map_to_list (loggers st)).

(** The body of [args.forEach(function(category) { ... })]. *)
Definition addAppenderTo (appender : Appender) (st : Registry)
    (category : string) : Registry :=
  let st :=
    setAppenders
      (<[category := default [] (appenders st !! category) ++ [appender]]>
         (appenders st))
      st in
  if decide (category = ALL_CATEGORIES) then addListenerToAll appender st
  else
    match loggers st !! category with
    | Some this => addListener this appender st
    | None => st
    end.

(** [addAppender(appender, ...categories)] *)
Definition addAppender (appender : Appender) (args : CategoryArgs)
    (st : Registry) : Registry :=
  foldl (addAppenderTo appender) st (categoriesOf args).

(** [clearAppenders()] *)
Definition clearAppenders (st : Registry) : Registry :=
  let st := setAppenders ∅ st in
  foldl (λ st entry, removeAllListeners entry.2 st) st
        (map_to_list (loggers st)).

(** [Logger.prototype.setLevel] *)
Definition setLevel (this : nat) (level' : value) (st : Registry)
    : Registry :=
  setHeap
    (alter (withLevel (default TRACE (LevelOps.toLevel level' (Some TRACE))))
           this (heap st))
    st.

(** [this.emit("log", loggingEvent)]: the listeners are called in the
    order they were added; the first that raises ends the call. *)
Fixpoint emit (ls : list Appender) (loggingEvent : LoggingEvent)
    (st : Registry) : Outcome unit * Registry :=
  match ls with
  | [] => (Returned (), st)
  | listener :: ls' =>
      let st := noteInvoked listener loggingEvent st in
      match listener loggingEvent (world st) with
      | (Returned _, w) => emit ls' loggingEvent (setWorld w st)
      | (Thrown e, w) => (Thrown e, setWorld w st)
      | (Exhausted, w) => (Exhausted, setWorld w st)
      end
  end.

Definition noSuchObject {A : Type} : Outcome A :=
  Thrown (TypeError "Cannot call method of undefined").

(** [Logger.prototype.log] *)
Definition log (this : nat) (logLevel : Level) (message : string)
    (exception : option Exception) : M unit := λ st,
  match heap st !! this with
  | Some l =>
      let loggingEvent := {|
        LoggingEvent.startTime := now st;
        LoggingEvent.categoryName := category l;
        LoggingEvent.message := message;
        LoggingEvent.exception := exception;
        LoggingEvent.level := logLevel;
        LoggingEvent.logger := this |} in
      let st := noteConstructed loggingEvent st in
      emit (listeners l) loggingEvent st
  | None => (noSuchObject, st)
  end.

(** [Logger.prototype.isLevelEnabled] *)
Definition isLevelEnabled (this : nat) (otherLevel : option Level)
    : M bool := λ st,
  match heap st !! this with
  | Some l => (LevelOps.isLessThanOrEqualTo (level l) otherLevel, st)
  | None => (noSuchObject, st)
  end.

(** The methods made by
    [['Trace','Debug','Info','Warn','Error','Fatal'].forEach]. *)
Definition levelStrings : list string :=
  ["Trace"; "Debug"; "Info"; "Warn"; "Error"; "Fatal"].

(** [var level = Level.toLevel(levelString)] *)
Definition methodLevel (levelString : string) : option Level :=
  LevelOps.toLevel (JsString levelString) None.

(** [Logger.prototype['is'+levelString+'Enabled']] *)
Definition isEnabled (levelString : string) (this : nat) : M bool :=
  isLevelEnabled this (methodLevel levelString).

(** [Logger.prototype[levelString.toLowerCase()]] *)
Definition logMethod (levelString : string) (this : nat)
    (message : string) (exception : option Exception) : M unit := λ st,
  match isLevelEnabled this (methodLevel levelString) st with
  | (Returned true, st) =>
      match methodLevel levelString with
      | Some level => log this level message exception st
      | None => (noSuchObject, st)
      end
  | (Returned false, st) => (Returned (), st)
  | (Thrown e, st) => (Thrown e, st)
  | (Exhausted, st) => (Exhausted, st)
  end.

Definition trace := logMethod "Trace".
Definition info := logMethod "Info".
Definition warn := logMethod "Warn".
Definition error := logMethod "Error".
Definition fatal := logMethod "Fatal".

(** [consoleAppender(layout)]; [standardOutput] is the function the
    module was given; the layout is called as a plain function. *)
Definition consoleAppender (standardOutput : string → World → Outcome unit * World)
    (layout : option Layout) : Appender :=
  let layout := default (layoutOf basicLayout) layout in
  λ loggingEvent w,
    match layout globalObject loggingEvent with
    | Returned text => standardOutput text w
    | Thrown e => (Thrown e, w)
    | Exhausted => (Exhausted, w)
    end.

(** [logLevelFilter(levelString, appender)] *)
Definition logLevelFilter (levelString : value) (appender : Appender)
    : Appender :=
  let level := LevelOps.toLevel levelString None in
  λ logEvent w,
    match LevelOps.isGreaterThanOrEqualTo
            (LoggingEvent.level logEvent) level with
    | Returned true => appender logEvent w
    | Returned false => (Returned (), w)
    | Thrown e => (Thrown e, w)
    | Exhausted => (Exhausted, w)
    end.

(** *** Runs of the module

    What a program does with the module, one call at a time; [Tick]
    is the clock moving on between two calls. *)
Inductive Command : Type :=
| GetLogger (categoryName : value)
| AddAppender (appender : Appender) (args : CategoryArgs)
| ClearAppenders
| SetLevel (this : nat) (level' : value)
| Log (this : nat) (logLevel : Level) (message : string)
      (exception : option Exception)
| LogMethod (levelString : string) (this : nat) (message : string)
      (exception : option Exception)
| Tick (clock : Date).

Definition setNow (clock : Date) (st : Registry) : Registry :=
  {| heap := heap st; loggers := loggers st; appenders := appenders st;
     world := world st; now := clock; constructed := constructed st;
     invoked := invoked st |}.

Definition step (st : Registry) (c : Command) : Registry :=
  match c with
  | GetLogger categoryName => (getLogger categoryName st).2
  | AddAppender appender args => addAppender appender args st
  | ClearAppenders => clearAppenders st
  | SetLevel this level' => setLevel this level' st
  | Log this logLevel message exception =>
      (log this logLevel message exception st).2
  | LogMethod levelString this message exception =>
      (logMethod levelString this message exception st).2
  | Tick clock => setNow clock st
  end.

Definition runCommands (cmds : list Command) (st : Registry) : Registry :=
  foldl step st cmds.

(** The states the module can be in. *)
Definition reachable (st : Registry) : Prop :=
  ∃ w clock cmds, st = runCommands cmds (initial w clock).

Definition isAddAppender (c : Command) : bool :=
  match c with AddAppender _ _ => true | _ => false end.

Definition isClearAppenders (c : Command) : bool :=
  match c with ClearAppenders => true | _ => false end.

(** The loggers of the heap are the loggers of the registry, one per
    category. *)
Definition wf (st : Registry) : Prop :=
  (∀ c r, loggers st !! c = Some r → r < length (heap st)) ∧
  (∀ r, r < length (heap st) → ∃ c, loggers st !! c = Some r) ∧
  (∀ c1 c2 r,
      loggers st !! c1 = Some r → loggers st !! c2 = Some r → c1 = c2).

(** [same st st']: only the heap may differ, and it has the same
    size. *)
Definition same (st st' : Registry) : Prop :=
  length (heap st') = length (heap st) ∧ loggers st' = loggers st ∧
  appenders st' = appenders st ∧ world st' = world st ∧
  now st' = now st ∧ constructed st' = constructed st ∧
  invoked st' = invoked st.

(** [sameShape st st']: the same loggers at the same references. *)
Definition sameShape (st st' : Registry) : Prop :=
  length (heap st') = length (heap st) ∧ loggers st' = loggers st.

(** The category [getLogger] looks up for its argument. *)
Definition categoryOf (categoryName : value) : string :=
  match categoryName with
  | JsString s => s
  | _ => DEFAULT_CATEGORY
  end.


(** [grown st st']: the loggers of [st] are in [st'] with at least the
    listeners they had. *)
Definition grown (st st' : Registry) : Prop :=
  ∀ r l, heap st !! r = Some l →
         ∃ l', heap st' !! r = Some l' ∧
               ∀ a, a ∈ listeners l → a ∈ listeners l'.

(** No appender waits and no logger has a listener. *)
Definition quiet (st : Registry) : Prop :=
  (∀ c, default [] (appenders st !! c) = []) ∧
  (∀ r l, heap st !! r = Some l → listeners l = []).

(** The appenders waiting under [category]. *)
Definition pending (st : Registry) (category' : string) : list Appender :=
  default [] (appenders st !! category').




End Registry.

Arguments Appender : clear implicits.
Arguments Logger : clear implicits.
Arguments Registry : clear implicits.
Arguments Command : clear implicits.

(** ** Sample data for the examples *)

Module Examples.

Definition clock : Date := {|
  Date.getDate := 3; Date.getMonth := 10; Date.getFullYear := 2026;
  Date.getHours := 9; Date.getMinutes := 5; Date.getSeconds := 7;
  Date.getMilliseconds := 42; Date.getTimezoneOffset := (-60)%Z;
  Date.toLocaleTimeString := "09:05:07" |}.

Definition event (lv : Level) (cat msg : string) : LoggingEvent := {|
  LoggingEvent.startTime := clock; LoggingEvent.categoryName := cat;
  LoggingEvent.message := msg; LoggingEvent.exception := None;
  LoggingEvent.level := lv; LoggingEvent.logger := 0 |}.

(** A world that is the lines written so far, and the appender that
    writes the message after a tag. *)
Definition say (tag : string) : Appender (list string) :=
  λ loggingEvent w,
    (Returned (), w ++ [tag +:+ LoggingEvent.message loggingEvent]).

(** A level filter whose level name is not one. *)
Definition broken : Appender (list string) :=
  logLevelFilter (JsString "verbose") (say "filtered: ").

Definition start : Registry (list string) := initial [] clock.


(** A registry with two loggers and appenders for one and for all. *)
Definition busy : Registry (list string) :=
  runCommands [ AddAppender (say "all: ") (Categories []);
        GetLogger (JsString "db");
        AddAppender (say "db: ") (Categories [Some "db"]);
        GetLogger (JsString "web");
        SetLevel 1 (JsString "info") ] start.

End Examples.

(** ** Further notions for the properties of the registry *)

Section RegistryNotions.

Context {World : Type}.

(** [c] is a call of [setLevel] on the logger at [this]. *)
Definition isSetLevelOn (this : nat) (c : Command World) : bool :=
  match c with
  | SetLevel this' _ => bool_decide (this' = this)
  | _ => false
  end.

(** The event a log call on the logger [l] at [this] builds in [st]. *)
Definition eventOf (st : Registry World) (this : nat) (l : Logger World)
    (logLevel : Level) (message : string) (exception : option Exception)
    : LoggingEvent :=
  {| LoggingEvent.startTime := now st;
     LoggingEvent.categoryName := category l;
     LoggingEvent.message := message;
     LoggingEvent.exception := exception;
     LoggingEvent.level := logLevel;
     LoggingEvent.logger := this |}.

End RegistryNotions.

(** ** Further notions for the properties of the layouts *)

(** [n] times the character [c]. *)
Fixpoint repeatChar (c : ascii) (n : nat) : string :=
  match n with
  | O => EmptyString
  | S n' => String c (repeatChar c n')
  end.

(** Every character of [s] is in the class [p]. *)
Fixpoint allChars (p : ascii → bool) (s : string) : bool :=
  match s with
  | EmptyString => true
  | String c s' => p c && allChars p s'
  end.

(** The characters of the values [toFormattedString] puts in: digits
    and signs. *)
Definition dateValueChar (c : ascii) : bool :=
  Str.isDigit c || Ascii.eqb c "-" || Ascii.eqb c "+".

(** The first character of [s], if there is one, is not in [p]. *)
Definition stopsAt (p : ascii → bool) (s : string) : bool :=
  match s with
  | String c _ => negb (p c)
  | EmptyString => true
  end.

(** A text of digits that is not empty. *)
Definition isDigits (s : string) : bool :=
  Str.truthy s && allChars Str.isDigit s.

(** The text of a padding: digits, after [-] or not; and of a
    truncation: digits after a dot. *)
Definition isPadding (s : string) : bool :=
  match s with
  | String c ds => if Ascii.eqb "-" c then isDigits ds else isDigits s
  | EmptyString => false
  end.

Definition isTruncation (s : string) : bool :=
  match s with
  | String c ds => Ascii.eqb "." c && isDigits ds
  | EmptyString => false
  end.

Definition isSpecifier (s : string) : bool :=
  Str.truthy s && allChars (PatternLayout.isNot "}") s.

(** The text of the argument of a directive. *)
Definition specifierText (specifier : option string) : string :=
  match specifier with
  | Some s => "{" +:+ s +:+ "}"
  | None => ""
  end.

(** The number a text of digits reads as, after the digits already
    read. *)
Fixpoint decimal (acc : nat) (s : string) : nat :=
  match s with
  | String c s' => decimal (10 * acc + (Ascii.nat_of_ascii c - 48)) s'
  | EmptyString => acc
  end.

Definition numberOf (s : string) : nat := decimal 0 s.

(** The text of a directive. *)
Definition directiveText (padding truncation : option string)
    (conversionCharacter : ascii) (specifier : option string) : string :=
  "%" +:+ default "" padding +:+ default "" truncation
      +:+ String conversionCharacter (specifierText specifier).

(** ** Configuration

    [configureAppenders] and [configureLevels] work on what
    [JSON.parse] gave for the configuration file.  The embedding keeps
    the shape the code relies on: [config.appenders] is an array of
    objects or is not there; an appender configuration has a [type] and
    may have a [layout] (an object with a [type] and a [pattern]), a
    [filename], a [category] (a name or an array of names), an
    [appender] (an appender configuration) and a [level];
    [config.levels] is an object or is not there, and its values are
    looked at by [Level.toLevel] only, for which an array or an object
    is as good as a number.  A [type] that is not there is looked up
    under the name ["undefined"]. *)

Module Config.

Record LayoutConfig : Type := {
  type : string;
  pattern : value;
}.

Inductive CategoryConfig : Type :=
| Category (name : option string)
| CategoryNames (names : list string).

Local Unset Elimination Schemes.
Inductive AppenderConfig : Type :=
| Build (type : string) (layout : option LayoutConfig) (filename : string)
    (category : CategoryConfig) (appender : option AppenderConfig)
    (level : value).
Local Set Elimination Schemes.

Definition category (config : AppenderConfig) : CategoryConfig :=
  match config with Build _ _ _ category _ _ => category end.

End Config.

(** The arguments of [addAppender(appender, appenderConfig.category)]. *)
Definition categoryArgs (category : Config.CategoryConfig) : CategoryArgs :=
  match category with
  | Config.Category name => Categories [name]
  | Config.CategoryNames names => CategoryArray names
  end.

(** A call of a property that is not there. *)
Definition notAFunction {A : Type} (name : string) : Outcome A :=
  Thrown (TypeError ("Property '" +:+ name
                     +:+ "' of object #<Object> is not a function")).

(** [layoutMakers[type]] *)
Definition layoutMakers (type : string)
    : option (Config.LayoutConfig → Layout) :=
  if String.eqb type "messagePassThrough"
  then Some (λ _, layoutOf messagePassThroughLayout)
  else if String.eqb type "basic" then Some (λ _, layoutOf basicLayout)
  else if String.eqb type "pattern"
  then Some (λ config,
               let pattern :=
                 if truthy (Config.pattern config)
                 then Config.pattern config else JsUndefined in
               PatternLayout.patternLayout pattern)
  else None.

(** [var layout;
     if (config.layout) {
       layout = layoutMakers[config.layout.type](config.layout); }] *)
Definition makeLayout (layout : option Config.LayoutConfig)
    : Outcome (option Layout) :=
  match layout with
  | Some layoutConfig =>
      match layoutMakers (Config.type layoutConfig) with
      | Some maker => Returned (Some (maker layoutConfig))
      | None => notAFunction (Config.type layoutConfig)
      end
  | None => Returned None
  end.

Section Configuration.

Context {World : Type}.

(** The functions of the module's surroundings: [standardOutput],
    [fs.openSync(file, 'a', 0644)], which gives a file descriptor, and
    [fs.write(logFile, text, null, "utf8")]. *)
Variable standardOutput : string → World → Outcome unit * World.
Variable openSync : string → World → Outcome nat * World.
Variable write : nat → string → World → Outcome unit * World.

(** [fileAppender(file, layout)]: the file is opened when the appender
    is made. *)
Definition fileAppender (file : string) (layout : option Layout) (w : World)
    : Outcome (Appender World) * World :=
  let layout := default (layoutOf basicLayout) layout in
  match openSync file w with
  | (Returned logFile, w) =>
      (Returned (λ loggingEvent w,
                   match layout globalObject loggingEvent with
                   | Returned text =>
                       write logFile (text +:+ String "010" "") w
                   | Thrown e => (Thrown e, w)
                   | Exhausted => (Exhausted, w)
                   end), w)
  | (Thrown e, w) => (Thrown e, w)
  | (Exhausted, w) => (Exhausted, w)
  end.

(** [appenderMakers[config.type](config)] *)
Fixpoint appenderMakers (config : Config.AppenderConfig) (w : World)
    : Outcome (Appender World) * World :=
  match config with
  | Config.Build type layout filename _ appender level =>
      if String.eqb type "file" then
        match makeLayout layout with
        | Returned layout => fileAppender filename layout w
        | Thrown e => (Thrown e, w)
        | Exhausted => (Exhausted, w)
        end
      else if String.eqb type "console" then
        match makeLayout layout with
        | Returned layout =>
            (Returned (consoleAppender standardOutput layout), w)
        | Thrown e => (Thrown e, w)
        | Exhausted => (Exhausted, w)
        end
      else if String.eqb type "logLevelFilter" then
        match appender with
        | Some config' =>
            match appenderMakers config' w with
            | (Returned appender, w) =>
                (Returned (logLevelFilter level appender), w)
            | (Thrown e, w) => (Thrown e, w)
            | (Exhausted, w) => (Exhausted, w)
            end
        | None =>
            (Thrown (TypeError "Cannot read property 'type' of undefined"),
             w)
        end
      else (notAFunction type, w)
  end.

(** [consoleAppender] itself as a listener, as
    [addAppender(consoleAppender)] binds it: called with the event for
    its [layout] it makes an appender, which the emitter drops, and
    writes nothing. *)
Definition consoleAppenderAsListener : Appender World :=
  λ loggingEvent w, (Returned (), w).

(** [appenderList.forEach(function(appenderConfig) { ... })]; the
    makers give functions, so that the [else] of [if (appender)] is
    never taken. *)
Fixpoint configureEach (appenderList : list Config.AppenderConfig)
    (st : Registry World) : Outcome unit * Registry World :=
  match appenderList with
  | [] => (Returned (), st)
  | appenderConfig :: appenderList' =>
      match appenderMakers appenderConfig (world st) with
      | (Returned appender, w) =>
          configureEach appenderList'
            (addAppender appender
               (categoryArgs (Config.category appenderConfig))
               (setWorld w st))
      | (Thrown e, w) => (Thrown e, setWorld w st)
      | (Exhausted, w) => (Exhausted, setWorld w st)
      end
  end.

(** [configureAppenders(appenderList)] *)
Definition configureAppenders
    (appenderList : option (list Config.AppenderConfig)) : M unit := λ st,
  let st := clearAppenders st in
  match appenderList with
  | Some appenderList => configureEach appenderList st
  | None =>
      (Returned (), addAppender consoleAppenderAsListener (Categories []) st)
  end.


End Configuration.

(** * Properties *)

(** ** Levels *)

Section LevelFacts.

Lemma levels_lookup (name : string) (l : Level) :
  levels !! name = Some l ↔ (name, l) ∈ levelTable.
Proof.
  unfold levels. symmetry. apply elem_of_list_to_map.
  apply (bool_decide_unpack _). by vm_compute.
Qed.

Lemma table_levels (name : string) (l : Level) :
  (name, l) ∈ levelTable →
  l ∈ [ALL; TRACE; DEBUG; INFO; WARN; ERROR; FATAL; OFF].
Proof.
  unfold levelTable. intros H.
  repeat (apply elem_of_cons in H as [[= -> ->]|H];
          [repeat first [apply list_elem_of_here
                        | apply list_elem_of_further]|]).
  by apply elem_of_nil in H.
Qed.

Lemma toLevel_string (s : string) (d : option Level) :
  LevelOps.toLevel (JsString s) d
  = match levels !! Str.toUpperCase s with
    | Some l => Some l
    | None => d
    end.
Proof. reflexivity. Qed.

Lemma toLevel_some_default (v : value) (d : Level) :
  ∃ l, LevelOps.toLevel v (Some d) = Some l.
Proof.
  destruct v; simpl; eauto.
  destruct (levels !! Str.toUpperCase s); eauto.
Qed.

Lemma isLessThanOrEqualTo_spec (a b : Level) :
  (LevelOps.isLessThanOrEqualTo a (Some b) = Returned true
   ↔ (Level.level a <= Level.level b)%Q) ∧
  (LevelOps.isLessThanOrEqualTo a (Some b) = Returned false
   ↔ ¬ (Level.level a <= Level.level b)%Q).
Proof.
  simpl. destruct (Qle_bool _ _) eqn:E.
  - apply Qle_bool_iff in E. split; split; intros; try done.
  - assert (¬ (Level.level a <= Level.level b)%Q)
      by (intros H%Qle_bool_iff; congruence).
    split; split; intros; done.
Qed.

Lemma isGreaterThanOrEqualTo_spec (a b : Level) :
  (LevelOps.isGreaterThanOrEqualTo a (Some b) = Returned true
   ↔ (Level.level a >= Level.level b)%Q) ∧
  (LevelOps.isGreaterThanOrEqualTo a (Some b) = Returned false
   ↔ ¬ (Level.level a >= Level.level b)%Q).
Proof. apply (isLessThanOrEqualTo_spec b a). Qed.

End LevelFacts.

(** C8.  Level operations.  [toLevel] gives the default for an absent
    ([undefined], [null]) or unrecognized name, and looks a name up
    whatever the case of its letters; [isLessThanOrEqualTo] (at most)
    holds exactly when the rank is at most the other rank and
    [isGreaterThanOrEqualTo] (at least) exactly when it is at least the
    other rank; the table lists ALL, TRACE, DEBUG, INFO, WARN, ERROR,
    FATAL, OFF by strictly ascending rank; of two levels of which the
    first ranks strictly lower, the first is at most the second and the
    second is not at most the first; ALL is at most every level of the
    table and OFF is at least every level of the table. *)
Theorem level_operations :
  (∀ d, LevelOps.toLevel JsUndefined d = d ∧ LevelOps.toLevel JsNull d = d) ∧
  (∀ s d, levels !! Str.toUpperCase s = None →
          LevelOps.toLevel (JsString s) d = d) ∧
  (∀ s name l d, (name, l) ∈ levelTable → Str.toUpperCase s = name →
                 LevelOps.toLevel (JsString s) d = Some l) ∧
  (∀ s1 s2 d, Str.toUpperCase s1 = Str.toUpperCase s2 →
              LevelOps.toLevel (JsString s1) d
              = LevelOps.toLevel (JsString s2) d) ∧
  (∀ a b, (LevelOps.isLessThanOrEqualTo a (Some b) = Returned true
           ↔ (Level.level a <= Level.level b)%Q) ∧
          (LevelOps.isLessThanOrEqualTo a (Some b) = Returned false
           ↔ ¬ (Level.level a <= Level.level b)%Q)) ∧
  (∀ a b, (LevelOps.isGreaterThanOrEqualTo a (Some b) = Returned true
           ↔ (Level.level a >= Level.level b)%Q) ∧
          (LevelOps.isGreaterThanOrEqualTo a (Some b) = Returned false
           ↔ ¬ (Level.level a >= Level.level b)%Q)) ∧
  levelTable.*1
    = ["ALL"; "TRACE"; "DEBUG"; "INFO"; "WARN"; "ERROR"; "FATAL"; "OFF"] ∧
  StronglySorted Qlt (Level.level <$> levelTable.*2) ∧
  (∀ L1 L2, (Level.level L1 < Level.level L2)%Q →
            LevelOps.isLessThanOrEqualTo L1 (Some L2) = Returned true ∧
            LevelOps.isLessThanOrEqualTo L2 (Some L1) = Returned false) ∧
  (∀ name x, levels !! name = Some x →
             LevelOps.isLessThanOrEqualTo ALL (Some x) = Returned true ∧
             LevelOps.isGreaterThanOrEqualTo OFF (Some x) = Returned true).
Proof.
  split_and!.
  - done.
  - intros s d H. by rewrite toLevel_string, H.
  - intros s name l d Hin <-. apply levels_lookup in Hin.
    by rewrite toLevel_string, Hin.
  - intros s1 s2 d H. by rewrite !toLevel_string, H.
  - apply isLessThanOrEqualTo_spec.
  - apply isGreaterThanOrEqualTo_spec.
  - reflexivity.
  - repeat (constructor; [repeat constructor|]). constructor.
  - intros L1 L2 Hlt. split.
    + apply isLessThanOrEqualTo_spec. by apply Qlt_le_weak.
    + apply isLessThanOrEqualTo_spec. by apply Qlt_not_le.
  - intros name x Hx%levels_lookup%table_levels.
    repeat (apply elem_of_cons in Hx as [->|Hx]; [by vm_compute|]).
    by apply elem_of_nil in Hx.
Qed.

(** A use of C8 at concrete names and levels. *)
Lemma level_operations_witness :
  LevelOps.toLevel (JsString "verbose") (Some DEBUG) = Some DEBUG ∧
  LevelOps.toLevel (JsString "wArN") None = Some WARN ∧
  LevelOps.isLessThanOrEqualTo INFO (Some WARN) = Returned true ∧
  LevelOps.isLessThanOrEqualTo WARN (Some INFO) = Returned false ∧
  LevelOps.isLessThanOrEqualTo ALL (Some TRACE) = Returned true ∧
  LevelOps.isGreaterThanOrEqualTo OFF (Some FATAL) = Returned true.
Proof.
  destruct level_operations
    as (_ & Hunknown & Hknown & _ & _ & _ & _ & _ & Hlt & Hends).
  split_and!.
  - apply Hunknown. by vm_compute.
  - apply (Hknown "wArN" "WARN" WARN None); [|by vm_compute].
    unfold levelTable.
    repeat first [apply list_elem_of_here | apply list_elem_of_further].
  - apply (Hlt INFO WARN). by vm_compute.
  - apply (Hlt INFO WARN). by vm_compute.
  - apply (Hends "TRACE" TRACE). by vm_compute.
  - apply (Hends "FATAL" FATAL). by vm_compute.
Defined.

(** ** Regular expressions: a match is a part of the subject *)

Section RegexFacts.

Lemma length_substr (n : nat) (s : string) :
  Str.length (Str.substr n s) = Str.length s - n.
Proof.
  revert s. induction n as [|n IH]; intros [|c s]; simpl; auto.
Qed.

Lemma length_prefix (n : nat) (s : string) :
  Str.length (Str.prefix n s) = n `min` Str.length s.
Proof.
  revert s. induction n as [|n IH]; intros [|c s]; simpl; auto.
Qed.

Lemma rep_inv {R : Type} p lo hi s (k : string → option R) res :
  rep p lo hi s k = Some res →
  ∃ s', k s' = Some res ∧ Str.length s' ≤ Str.length s ∧
        (lo ≠ 0 → Str.length s' < Str.length s).
Proof.
  revert lo s. induction hi as [|hi IH]; intros lo s; simpl.
  - destruct lo; [|done]. intros H. exists s. split_and!; [done|lia|done].
  - destruct s as [|c s].
    { destruct lo; [|done]. intros H. exists "". split_and!; [done|lia|done]. }
    destruct (p c).
    + destruct (rep p (pred lo) hi s k) as [res'|] eqn:E.
      * intros [= ->]. apply IH in E as (s' & Hk & Hle & _).
        exists s'. unfold Str.length in *. simpl. split_and!; [done|lia..].
      * destruct lo; [|done]. intros H. exists (String c s).
        split_and!; [done|lia|done].
    + destruct lo; [|done]. intros H. exists (String c s).
      split_and!; [done|lia|done].
Qed.

Lemma run_inv {R : Type} r s caps (k : string → captures → option R) res :
  Regex.run r s caps k = Some res →
  ∃ s' caps', k s' caps' = Some res ∧ length caps' = length caps ∧
              Str.length s' ≤ Str.length s ∧
              (consuming r = true → Str.length s' < Str.length s) ∧
              (∀ j, j ∉ groupIndices r → caps' !! j = caps !! j).
Proof.
  revert s caps k.
  induction r as [c|p|r1 IH1 r2 IH2|r1 IH1 r2 IH2|r1 IH1|p lo hi|i r1 IH1];
    intros s caps k; simpl.
  - destruct s as [|c' s]; [done|]. destruct (Ascii.eqb c c'); [|done].
    intros H. exists s, caps. unfold Str.length. simpl.
    split_and!; [done|done|lia|lia|done].
  - destruct s as [|c' s]; [done|]. destruct (p c'); [|done].
    intros H. exists s, caps. unfold Str.length. simpl.
    split_and!; [done|done|lia|lia|done].
  - intros H. apply IH1 in H as (s1 & caps1 & H & Hc1 & Hle1 & Hlt1 & Hf1).
    apply IH2 in H as (s2 & caps2 & H & Hc2 & Hle2 & Hlt2 & Hf2).
    exists s2, caps2. split_and!; [done|congruence|lia| |].
    + intros [?|?]%orb_true_iff; [specialize (Hlt1 ltac:(done))
                                 |specialize (Hlt2 ltac:(done))]; lia.
    + intros j Hj. rewrite elem_of_app in Hj.
      rewrite Hf2, Hf1; [done|tauto..].
  - destruct (Regex.run r1 s caps k) as [res'|] eqn:E.
    + intros [= ->]. apply IH1 in E as (s' & caps' & ? & ? & ? & Hlt & Hf).
      exists s', caps'. split_and!; [done..| |].
      * intros [? _]%andb_true_iff. auto.
      * intros j Hj. rewrite elem_of_app in Hj. apply Hf. tauto.
    + intros H. apply IH2 in H as (s' & caps' & ? & ? & ? & Hlt & Hf).
      exists s', caps'. split_and!; [done..| |].
      * intros [_ ?]%andb_true_iff. auto.
      * intros j Hj. rewrite elem_of_app in Hj. apply Hf. tauto.
  - destruct (Regex.run r1 s caps k) as [res'|] eqn:E.
    + intros [= ->]. apply IH1 in E as (s' & caps' & ? & ? & ? & Hlt & Hf).
      exists s', caps'. split_and!; done.
    + intros H. exists s, caps. split_and!; done.
  - intros H. apply rep_inv in H as (s' & ? & ? & Hlt).
    exists s', caps. split_and!; [done..| |done].
    intros Hlo. apply Hlt. by destruct lo.
  - intros H. apply IH1 in H as (s' & caps' & ? & ? & ? & Hlt & Hf).
    eexists s', _. split_and!; [done| |done..|].
    + by rewrite length_insert.
    + intros j Hj. rewrite elem_of_cons in Hj.
      rewrite list_lookup_insert_ne by (intros ->; tauto). apply Hf. tauto.
Qed.

Lemma matchAt_inv n r s rest caps :
  consuming r = true →
  matchAt n r s = Some (rest, caps) →
  Str.length rest < Str.length s ∧
  caps !! 0 = Some (Some (Str.prefix (Str.length s - Str.length rest) s)).
Proof.
  intros Hr H. unfold matchAt in H. simpl in H.
  apply run_inv in H as (s' & caps' & [= <- <-] & Hlen & Hle & Hlt & _).
  split; [auto|]. apply list_lookup_insert_eq.
  rewrite Hlen. simpl. lia.
Qed.

Lemma execFrom_inv n r s i result :
  consuming r = true →
  execFrom n r s i = Some result →
  ∃ matched, group result 0 = Some matched ∧
             1 ≤ Str.length matched ∧
             i ≤ index result ∧
             (index result - i) + Str.length matched ≤ Str.length s.
Proof.
  intros Hr. revert i result.
  induction s as [|c s IH]; intros i result; simpl.
  - destruct (matchAt n r "") as [[rest caps]|] eqn:E; [|done].
    apply matchAt_inv in E as [Hlt _]; [|done]. unfold Str.length in Hlt.
    simpl in Hlt. lia.
  - destruct (matchAt n r (String c s)) as [[rest caps]|] eqn:E.
    + intros [= <-]. apply matchAt_inv in E as [Hlt H0]; [|done].
      eexists. unfold group. simpl. rewrite H0. simpl. split; [done|].
      rewrite length_prefix. unfold Str.length in *. simpl in *. lia.
    + intros H. apply IH in H as (matched & ? & ? & ? & ?).
      exists matched. unfold Str.length in *. simpl. split_and!; [done|lia..].
Qed.

Lemma exec_inv n r s result :
  consuming r = true →
  exec n r s = Some result →
  ∃ matched, group result 0 = Some matched ∧
             1 ≤ Str.length matched ∧
             index result + Str.length matched ≤ Str.length s.
Proof.
  intros Hr H. apply execFrom_inv in H as (matched & ? & ? & ? & ?); [|done].
  exists matched. split_and!; [done..|lia].
Qed.

End RegexFacts.

(** ** The pattern layout *)

Section PatternLayoutFacts.

Import PatternLayout.

(** The groups of a directive with padding, truncation and argument. *)
Example exec_directive :
  exec 6 regex "at %-12.5c{2}!"
  = Some {| index := 0;
            groups := [Some "at "; None; None; None; None; None;
                       Some "at "] |} ∧
  exec 6 regex "%-12.5c{2}!"
  = Some {| index := 0;
            groups := [Some "%-12.5c{2}"; Some "-12"; Some ".5"; Some "c";
                       Some "{2}"; Some "2"; None] |}.
Proof. split; reflexivity. Qed.

(** Truncation keeps the first characters and comes before padding;
    the date formats. *)
Example format_sample :
  format (JsString "[%5p] [%-5p] [%.2p] [%7.3p] %d{hh:mm} %d{yy/MM/dd O} %r%n")
    (Examples.event INFO "db" "ok")
  = Returned ("[ INFO] [INFO ] [IN] [    INF] 09:05 06/11/03 +0100 09:05:07"
              +:+ String "010" "").
Proof. reflexivity. Qed.

Example basicLayout_sample :
  basicLayout (Examples.event WARN "db" "disk full")
  = "[2026-11-03 09:05:07.042] [WARN] db - disk full".
Proof. reflexivity. Qed.

Lemma regex_consuming : consuming regex = true.
Proof. reflexivity. Qed.

(** The loop over a string ends before its budget does, and does not
    raise. *)
Lemma formatLoop_returns fuel loggingEvent s formattedString :
  Str.length s < fuel →
  ∃ out, formatLoop fuel loggingEvent (JsString s) formattedString
         = Returned out.
Proof.
  revert s formattedString.
  induction fuel as [|fuel IH]; intros s acc Hlt; [lia|].
  simpl. destruct (exec 6 regex s) as [result|] eqn:E; [|eauto].
  apply exec_inv in E as (matched & -> & ? & ?); [|apply regex_consuming].
  simpl. apply IH. rewrite length_substr. lia.
Qed.

Lemma format_returns s loggingEvent :
  ∃ out, format (JsString s) loggingEvent = Returned out.
Proof. apply formatLoop_returns. simpl. lia. Qed.

(** *** The groups of a match *)

Lemma run_Seq {R : Type} r1 r2 s caps (k : string → captures → option R) :
  Regex.run (Seq r1 r2) s caps k
  = Regex.run r1 s caps (λ s1 caps1, Regex.run r2 s1 caps1 k).
Proof. reflexivity. Qed.

Lemma run_Alt {R : Type} r1 r2 s caps (k : string → captures → option R) :
  Regex.run (Alt r1 r2) s caps k
  = match Regex.run r1 s caps k with
    | Some res => Some res
    | None => Regex.run r2 s caps k
    end.
Proof. reflexivity. Qed.

Lemma run_Grp {R : Type} i r s caps (k : string → captures → option R) :
  Regex.run (Grp i r) s caps k
  = Regex.run r s caps (λ s1 caps1,
      k s1 (<[i := Some (Str.prefix (Str.length s - Str.length s1) s)]> caps1)).
Proof. reflexivity. Qed.

Lemma run_Grp_Cls {R : Type} i p s caps (k : string → captures → option R) res :
  Regex.run (Grp i (Cls p)) s caps k = Some res →
  ∃ c s', s = String c s' ∧ p c = true ∧
          k s' (<[i := Some (String c "")]> caps) = Some res.
Proof.
  simpl. destruct s as [|c s']; [done|]. destruct (p c) eqn:E; [|done].
  intros H. exists c, s'. split_and!; [done..|].
  unfold Str.length in H. simpl in H.
  replace (S (String.length s') - String.length s') with 1 in H by lia.
  done.
Qed.

(** A match is a literal text, in group 6, or a directive whose
    conversion character, in group 3, is one of [cdmnpr%]. *)
Lemma execFrom_groups s i result :
  execFrom 6 regex s i = Some result →
  (∃ text, group result 6 = Some text ∧ Str.truthy text = true) ∨
  (group result 6 = None ∧
   ∃ c, group result 3 = Some (String c "") ∧
        isConversionCharacter c = true).
Proof.
  revert result i.
  induction s as [|c0 s IH]; intros result i; simpl.
  - done.
  - destruct (matchAt 6 regex (String c0 s)) as [[rest caps]|] eqn:E;
      [|apply IH].
    intros [= <-]. unfold group. simpl.
    unfold matchAt in E. rewrite run_Grp in E.
    unfold regex in E. rewrite run_Alt in E.
    match type of E with
    | match ?m with _ => _ end = _ => destruct m as [res|] eqn:E1
    end.
    + (* a directive *)
      injection E as ->. right.
      rewrite run_Seq in E1.
      apply run_inv in E1 as (s1 & caps1 & E1 & L1 & _ & _ & F1).
      rewrite run_Seq in E1.
      apply run_inv in E1 as (s2 & caps2 & E1 & L2 & _ & _ & F2).
      rewrite run_Seq in E1.
      apply run_inv in E1 as (s3 & caps3 & E1 & L3 & _ & _ & F3).
      rewrite run_Seq in E1.
      apply run_Grp_Cls in E1 as (c & s4 & -> & Hc & E1).
      apply run_inv in E1 as (s5 & caps5 & [= <- <-] & L5 & _ & _ & F5).
      rewrite length_insert in L5.
      assert (caps5 !! 6 = Some None) as H6.
      { rewrite (F5 6) by (by apply (bool_decide_unpack _)).
        rewrite list_lookup_insert_ne by done.
        by rewrite (F3 6), (F2 6), (F1 6) by (by apply (bool_decide_unpack _)). }
      assert (caps5 !! 3 = Some (Some (String c ""))) as H3.
      { rewrite (F5 3) by (by apply (bool_decide_unpack _)).
        apply list_lookup_insert_eq. rewrite L3, L2, L1. simpl. lia. }
      rewrite !list_lookup_insert_ne by done. rewrite H6, H3. simpl. eauto.
    + (* a text *)
      left. rewrite run_Grp in E.
      apply run_inv in E as (s1 & caps1 & [= <- <-] & L1 & Hle & Hlt & _).
      specialize (Hlt eq_refl).
      eexists. split.
      * rewrite list_lookup_insert_ne by done.
        rewrite list_lookup_insert_eq by (rewrite L1; simpl; lia).
        reflexivity.
      * unfold Str.length in *. simpl in *.
        destruct (S (String.length s) - String.length s1) eqn:En; [lia|done].
Qed.

Lemma exec_groups s result :
  exec 6 regex s = Some result →
  (∃ text, group result 6 = Some text ∧ Str.truthy text = true) ∨
  (group result 6 = None ∧
   ∃ c, group result 3 = Some (String c "") ∧
        isConversionCharacter c = true).
Proof. apply execFrom_groups. Qed.

(** The [default] of the [switch] is never taken: on a conversion
    character the replacement does not depend on the matched text. *)
Lemma rawReplacement_conversion loggingEvent c specifier m1 m2 :
  isConversionCharacter c = true →
  rawReplacement loggingEvent (Some (String c "")) specifier m1
  = rawReplacement loggingEvent (Some (String c "")) specifier m2.
Proof.
  intros H.
  assert (c ∈ ["c"; "d"; "m"; "n"; "p"; "r"; "%"]%char) as Hc.
  { destruct c as [[] [] [] [] [] [] [] []]; try discriminate H;
      repeat first [apply list_elem_of_here | apply list_elem_of_further]. }
  repeat (rewrite elem_of_cons in Hc; destruct Hc as [->|Hc];
          [cbv beta iota delta [rawReplacement]; reflexivity|]).
  by apply elem_of_nil in Hc.
Qed.

(** *** A [%] that starts no directive *)

Lemma run_Chr_cons {R : Type} c c' s caps (k : string → captures → option R) :
  Regex.run (Chr c) (String c' s) caps k
  = if Ascii.eqb c c' then k s caps else None.
Proof. reflexivity. Qed.

Lemma run_Cls_cons {R : Type} p c' s caps (k : string → captures → option R) :
  Regex.run (Cls p) (String c' s) caps k = if p c' then k s caps else None.
Proof. reflexivity. Qed.

Lemma run_Opt {R : Type} r s caps (k : string → captures → option R) :
  Regex.run (Opt r) s caps k
  = match Regex.run r s caps k with
    | Some res => Some res
    | None => k s caps
    end.
Proof. reflexivity. Qed.

Lemma run_Plus_no {R : Type} p c s caps (k : string → captures → option R) :
  p c = false → Regex.run (Plus p) (String c s) caps k = None.
Proof. intros H. unfold Plus. simpl. by rewrite H. Qed.

Ltac step_run :=
  first [ rewrite run_Seq | rewrite run_Alt | rewrite run_Opt
        | rewrite run_Grp | rewrite run_Chr_cons | rewrite run_Cls_cons
        | rewrite run_Plus_no by done ];
  cbv beta.

Lemma matchAt_percent c rest :
  directiveStart c = false →
  matchAt 6 regex (String "%" (String c rest)) = None.
Proof.
  unfold directiveStart. intros H.
  apply orb_false_iff in H as [H Hconv].
  apply orb_false_iff in H as [H Hdot].
  apply orb_false_iff in H as [Hminus Hdigit].
  unfold matchAt, regex.
  repeat (step_run; rewrite ?Hminus, ?Hdot, ?Hconv, ?Ascii.eqb_refl).
  reflexivity.
Qed.

Lemma matchAt_percent_end : matchAt 6 regex "%" = None.
Proof. reflexivity. Qed.

Lemma execFrom_shift n r s i :
  execFrom n r s (S i)
  = (λ m, {| index := S (index m); groups := groups m |})
      <$> execFrom n r s i.
Proof.
  revert i. induction s as [|c s IH]; intros i; simpl.
  - by destruct (matchAt n r "") as [[]|].
  - destruct (matchAt n r (String c s)) as [[]|]; [done|]. apply IH.
Qed.

Lemma formatLoop_fuel fuel fuel' loggingEvent searchString formattedString out :
  formatLoop fuel loggingEvent searchString formattedString = Returned out →
  fuel ≤ fuel' →
  formatLoop fuel' loggingEvent searchString formattedString = Returned out.
Proof.
  revert fuel' searchString formattedString.
  induction fuel as [|fuel IH]; intros fuel' v acc; simpl; [done|].
  intros H Hle. destruct fuel' as [|fuel']; [lia|]. simpl.
  destruct (exec 6 regex (toString v)) as [result|]; [|done].
  destruct (substr v _) as [v'| |]; [|done..].
  apply IH; [done|lia].
Qed.

Lemma formatLoop_S fuel loggingEvent s formattedString :
  formatLoop (S fuel) loggingEvent (JsString s) formattedString
  = match exec 6 regex s with
    | None => Returned formattedString
    | Some result =>
        formatLoop fuel loggingEvent
          (JsString (Str.substr
                       (index result
                        + Str.length (default "" (group result 0))) s))
          (formattedString +:+ formatMatch loggingEvent result)
    end.
Proof. reflexivity. Qed.

Lemma exec_percent c rest :
  directiveStart c = false →
  exec 6 regex (String "%" (String c rest))
  = (λ m, {| index := S (index m); groups := groups m |})
      <$> exec 6 regex (String c rest).
Proof.
  intros Hc. unfold exec.
  change (execFrom 6 regex (String "%" (String c rest)) 0)
    with (match matchAt 6 regex (String "%" (String c rest)) with
          | Some (_, caps) => Some {| index := 0; groups := caps |}
          | None => execFrom 6 regex (String c rest) 1
          end).
  rewrite (matchAt_percent c rest Hc). apply execFrom_shift.
Qed.

(** The [%] is lost: the render is that of the template without it. *)
Lemma format_percent c rest loggingEvent :
  directiveStart c = false →
  format (JsString (String "%" (String c rest))) loggingEvent
  = format (JsString (String c rest)) loggingEvent.
Proof.
  intros Hc.
  destruct (format_returns (String c rest) loggingEvent) as [out Hout].
  rewrite Hout. unfold format in *.
  apply (formatLoop_fuel _ (S (Str.length (String "%" (String c rest)))))
    in Hout; [|simpl; unfold Str.length; simpl; lia].
  rewrite <- Hout. cbn [toString]. rewrite !formatLoop_S.
  rewrite (exec_percent c rest Hc).
  by destruct (exec 6 regex (String c rest)) as [result|].
Qed.

End PatternLayoutFacts.

Section CategoryFacts.

Import PatternLayout.

Lemma split_not_nil sep s : Str.split sep s ≠ [].
Proof.
  destruct s as [|c s]; simpl; [done|].
  destruct (Ascii.eqb c sep); [done|]. by destruct (Str.split sep s).
Qed.

Lemma join_cons sep b bs :
  bs ≠ [] → Str.join sep (b :: bs) = b +:+ sep +:+ Str.join sep bs.
Proof. by destruct bs. Qed.

(** Joining the pieces of a split gives the string back. *)
Lemma join_split (sep : ascii) (s : string) :
  Str.join (String sep "") (Str.split sep s) = s.
Proof.
  induction s as [|c s IH]; simpl; [done|].
  destruct (Ascii.eqb c sep) eqn:E.
  - apply Ascii.eqb_eq in E as ->.
    rewrite join_cons by apply split_not_nil. simpl. by rewrite IH.
  - pose proof (split_not_nil sep s) as Hne.
    destruct (Str.split sep s) as [|piece pieces]; [done|].
    destruct pieces as [|piece' pieces]; simpl in *; by rewrite <- IH.
Qed.

Lemma categoryReplacement_precision loggingEvent specifier (precision : nat) :
  Str.truthy specifier = true →
  Str.parseInt specifier = Int (Z.of_nat precision) →
  categoryReplacement loggingEvent (Some specifier)
  = let loggerNameBits :=
      Str.split "." (LoggingEvent.categoryName loggingEvent) in
    if decide (length loggerNameBits ≤ precision)
    then LoggingEvent.categoryName loggingEvent
    else Str.join "." (drop (length loggerNameBits - precision)
                            loggerNameBits).
Proof.
  intros Ht Hp. unfold categoryReplacement. rewrite Ht, Hp. simpl.
  destruct (Z.leb_spec (Z.of_nat (length (Str.split "."
             (LoggingEvent.categoryName loggingEvent))))
             (Z.of_nat precision)) as [Hle|Hgt].
  - rewrite decide_True by lia. done.
  - rewrite decide_False by lia. do 2 f_equal. lia.
Qed.

End CategoryFacts.

(** C1.  The function [patternLayout] returns does not format over the
    template it was made for: it scans [this.pattern].  Called as the
    appenders call a layout (as a plain function) for the template
    ["%-5p %c - %m%n"] and an event with level INFO, category ["db"] and
    message ["ok"], it raises a [TypeError], and so does a console
    appender made with it; the function is the same whatever template it
    was made for; and it gives ["INFO  db - ok\n"] only on a receiver
    whose property [pattern] is the template. *)
Theorem patternLayout_scans_this_pattern :
  ∀ (startTime : Date) (exception : option Exception) (logger : nat),
    let loggingEvent := {|
      LoggingEvent.startTime := startTime;
      LoggingEvent.categoryName := "db";
      LoggingEvent.message := "ok";
      LoggingEvent.exception := exception;
      LoggingEvent.level := INFO;
      LoggingEvent.logger := logger |} in
    patternLayout (JsString "%-5p %c - %m%n") globalObject loggingEvent
    = Thrown (TypeError "Cannot call method 'substr' of undefined") ∧
    (∀ (World : Type) standardOutput (w : World),
        consoleAppender standardOutput
          (Some (patternLayout (JsString "%-5p %c - %m%n"))) loggingEvent w
        = (Thrown (TypeError "Cannot call method 'substr' of undefined"), w)) ∧
    (∀ pattern pattern' this,
        patternLayout pattern this loggingEvent
        = patternLayout pattern' this loggingEvent) ∧
    (∀ pattern this,
        getProperty this "pattern" = JsString "%-5p %c - %m%n" →
        patternLayout pattern this loggingEvent
        = Returned ("INFO  db - ok" +:+ String "010" "")).
Proof.
  intros startTime exception logger loggingEvent. split_and!.
  - reflexivity.
  - reflexivity.
  - reflexivity.
  - intros pattern this Hp. unfold patternLayout, PatternLayout.patternLayout.
    rewrite Hp. reflexivity.
Qed.

(** A use of C1 on a receiver that carries the template. *)
Lemma patternLayout_scans_this_pattern_witness :
  patternLayout JsUndefined {["pattern" := JsString "%-5p %c - %m%n"]}
    (Examples.event INFO "db" "ok")
  = Returned ("INFO  db - ok" +:+ String "010" "").
Proof.
  apply (patternLayout_scans_this_pattern Examples.clock None 0).
  reflexivity.
Defined.

(** C5.  The conversion [%c] computes what the specification says:
    without an argument it is the category name of the event; with an
    argument that reads as the integer [precision] it is the category
    name when [precision] is at least the number of dot-separated
    segments, and otherwise the last [precision] segments joined by dots
    (none of them when [precision] is negative); the segments joined by
    dots are the name.  The loop that scans ["%c{2}"] gives ["b.c"] on
    category ["a.b.c"] and ["a"] on category ["a"], and the loop that
    scans ["%c"] gives the category.  But the layout [patternLayout]
    returns for ["%c{2}"] does not scan this template: called as the
    appenders call it, it raises a [TypeError]; it gives ["b.c"] only on
    a receiver whose property [pattern] is the template. *)
Theorem category_conversion_precision :
  (∀ loggingEvent matchedString specifier,
      PatternLayout.rawReplacement loggingEvent (Some "c") specifier
        matchedString
      = PatternLayout.categoryReplacement loggingEvent specifier) ∧
  (∀ loggingEvent,
      PatternLayout.categoryReplacement loggingEvent None
      = LoggingEvent.categoryName loggingEvent) ∧
  (∀ loggingEvent specifier (precision : nat),
      Str.truthy specifier = true →
      Str.parseInt specifier = Int (Z.of_nat precision) →
      let loggerNameBits :=
        Str.split "." (LoggingEvent.categoryName loggingEvent) in
      Str.join "." loggerNameBits = LoggingEvent.categoryName loggingEvent ∧
      (length loggerNameBits ≤ precision →
       PatternLayout.categoryReplacement loggingEvent (Some specifier)
       = LoggingEvent.categoryName loggingEvent) ∧
      (precision < length loggerNameBits →
       ∃ front kept,
         loggerNameBits = front ++ kept ∧ length kept = precision ∧
         PatternLayout.categoryReplacement loggingEvent (Some specifier)
         = Str.join "." kept)) ∧
  (∀ loggingEvent specifier (precision : Z),
      Str.truthy specifier = true →
      Str.parseInt specifier = Int precision → (precision < 0)%Z →
      PatternLayout.categoryReplacement loggingEvent (Some specifier) = "") ∧
  (∀ loggingEvent,
      LoggingEvent.categoryName loggingEvent = "a.b.c" →
      PatternLayout.format (JsString "%c{2}") loggingEvent = Returned "b.c") ∧
  (∀ loggingEvent,
      LoggingEvent.categoryName loggingEvent = "a" →
      PatternLayout.format (JsString "%c{2}") loggingEvent = Returned "a") ∧
  (∀ loggingEvent,
      PatternLayout.format (JsString "%c") loggingEvent
      = Returned (LoggingEvent.categoryName loggingEvent)) ∧
  (∀ loggingEvent,
      patternLayout (JsString "%c{2}") globalObject loggingEvent
      = Thrown (TypeError "Cannot call method 'substr' of undefined")) ∧
  (∀ pattern this loggingEvent,
      getProperty this "pattern" = JsString "%c{2}" →
      LoggingEvent.categoryName loggingEvent = "a.b.c" →
      patternLayout pattern this loggingEvent = Returned "b.c").
Proof.
  split_and!.
  - reflexivity.
  - reflexivity.
  - intros loggingEvent specifier precision Ht Hp bits. subst bits.
    split_and!.
    + apply join_split.
    + intros Hle. rewrite (categoryReplacement_precision _ _ precision) by done.
      simpl. by rewrite decide_True.
    + intros Hlt. rewrite (categoryReplacement_precision _ _ precision) by done.
      simpl. rewrite decide_False by lia.
      set (bits := Str.split "." (LoggingEvent.categoryName loggingEvent)) in *.
      exists (take (length bits - precision) bits),
             (drop (length bits - precision) bits).
      split_and!; [by rewrite take_drop| |done].
      rewrite length_drop. lia.
  - intros loggingEvent specifier precision Ht Hp Hneg.
    unfold PatternLayout.categoryReplacement. rewrite Ht, Hp.
    rewrite (proj2 (Z.leb_gt _ _)) by lia.
    rewrite drop_ge; [done|lia].
  - intros [] H. simpl in H. subst. reflexivity.
  - intros [] H. simpl in H. subst. reflexivity.
  - intros []. reflexivity.
  - reflexivity.
  - intros pattern this [] Hp H. simpl in H. subst.
    unfold patternLayout, PatternLayout.patternLayout. rewrite Hp.
    reflexivity.
Qed.

(** A use of C5 at the argument ["2"] and category ["a.b.c"]. *)
Lemma category_conversion_precision_witness :
  PatternLayout.format (JsString "%c{2}") (Examples.event INFO "a.b.c" "ok")
  = Returned "b.c" ∧
  PatternLayout.format (JsString "%c{2}") (Examples.event INFO "a" "ok")
  = Returned "a" ∧
  (∃ front kept,
    ["a"; "b"; "c"] = front ++ kept ∧ length kept = 2 ∧
    PatternLayout.categoryReplacement (Examples.event INFO "a.b.c" "ok")
      (Some "2") = Str.join "." kept) ∧
  PatternLayout.categoryReplacement (Examples.event INFO "a.b.c" "ok")
    (Some "-1") = "" ∧
  patternLayout JsUndefined {["pattern" := JsString "%c{2}"]}
    (Examples.event INFO "a.b.c" "ok") = Returned "b.c".
Proof.
  destruct category_conversion_precision
    as (_ & _ & Hprec & Hneg & Habc & Ha & _ & _ & Hthis).
  split_and!.
  - apply Habc. reflexivity.
  - apply Ha. reflexivity.
  - apply (Hprec (Examples.event INFO "a.b.c" "ok") "2" 2);
      [reflexivity|reflexivity|]. simpl. lia.
  - apply (Hneg _ "-1" (-1)%Z); [reflexivity|reflexivity|lia].
  - apply Hthis; reflexivity.
Defined.

(** C6.  A [%] that is followed by a character that is no conversion
    character (and no digit, [-] or [.]) is not rendered as the literal
    directive: the regular expression does not match there, the scan
    starts again one character later, and the [%] is lost; the render is
    that of the template without this [%].  The [default] branch of the
    [switch], which would emit the matched text, is never reached: the
    conversion character of a directive the regular expression matches
    is one of [cdmnpr%].  On every string it scans the loop returns: it
    does not raise, and it ends within its budget; the layout
    [patternLayout] returns for a template, called as the appenders call
    it, raises a [TypeError] all the same. *)
Theorem unknown_conversion_loses_percent :
  (∀ loggingEvent,
      PatternLayout.format (JsString "%x") loggingEvent = Returned "x") ∧
  (∀ loggingEvent,
      PatternLayout.format (JsString "a%5.2qb%%c") loggingEvent
      = Returned "a5.2qb%c") ∧
  exec 6 PatternLayout.regex "%x"
  = Some {| index := 1;
            groups := [Some "x"; None; None; None; None; None; Some "x"] |} ∧
  (∀ c rest loggingEvent,
      PatternLayout.directiveStart c = false →
      PatternLayout.format (JsString (String "%" (String c rest))) loggingEvent
      = PatternLayout.format (JsString (String c rest)) loggingEvent) ∧
  (∀ s result,
      exec 6 PatternLayout.regex s = Some result →
      PatternLayout.present (group result 6) = false →
      ∃ c, group result 3 = Some (String c "") ∧
           PatternLayout.isConversionCharacter c = true) ∧
  (∀ template loggingEvent,
      ∃ out, PatternLayout.format (JsString template) loggingEvent
             = Returned out) ∧
  (∀ loggingEvent,
      patternLayout (JsString "%x") globalObject loggingEvent
      = Thrown (TypeError "Cannot call method 'substr' of undefined")).
Proof.
  split_and!; [reflexivity..| | | |reflexivity].
  - intros c rest loggingEvent. apply format_percent.
  - intros s result H Hno. apply exec_groups in H as [(text & Ht & Htr)|[_ H]].
    + rewrite Ht in Hno. simpl in Hno. congruence.
    + done.
  - apply format_returns.
Qed.

(** A use of C6 at the template ["%zone"]. *)
Lemma unknown_conversion_loses_percent_witness :
  PatternLayout.format (JsString "%zone") (Examples.event INFO "db" "ok")
  = Returned "zone".
Proof.
  destruct unknown_conversion_loses_percent as (_ & _ & _ & Hlost & _).
  rewrite (Hlost "z"%char "one"); reflexivity.
Defined.

(** ** The registry *)

Section RegistryFacts.

Context {World : Type}.
Implicit Types (st : Registry World) (a : Appender World)
  (l : Logger World) (r this : nat) (ev : LoggingEvent).

(** *** What a call leaves alone *)

Lemma same_refl st : same st st.
Proof. by repeat split. Qed.

Lemma same_trans st1 st2 st3 : same st1 st2 → same st2 st3 → same st1 st3.
Proof.
  intros (? & ? & ? & ? & ? & ? & ?) (? & ? & ? & ? & ? & ? & ?).
  repeat split; congruence.
Qed.

Lemma addListener_same this a st : same st (addListener this a st).
Proof. repeat split. simpl. apply length_alter. Qed.

Lemma removeAllListeners_same this st : same st (removeAllListeners this st).
Proof. repeat split. simpl. apply length_alter. Qed.

Lemma setLevel_same this v st : same st (setLevel this v st).
Proof. repeat split. simpl. apply length_alter. Qed.

Lemma foldl_same {A : Type} (f : Registry World → A → Registry World)
    (xs : list A) st :
  (∀ st x, same st (f st x)) → same st (foldl f st xs).
Proof.
  intros Hf. revert st. induction xs as [|x xs IH]; intros st; simpl.
  - apply same_refl.
  - eapply same_trans; [apply Hf|apply IH].
Qed.

Lemma addListeners_same this appenderList st :
  same st (addListeners this appenderList st).
Proof. apply foldl_same. intros. apply addListener_same. Qed.

(** *** The heap after the calls that bind and unbind *)

Lemma addListener_lookup this a st r :
  heap (addListener this a st) !! r
  = if decide (r = this)
    then (λ l, withListeners (listeners l ++ [a]) l) <$> heap st !! r
    else heap st !! r.
Proof.
  simpl. case_decide as E.
  - subst. apply list_lookup_alter_eq.
  - by apply list_lookup_alter_ne.
Qed.

Lemma addListeners_lookup this appenderList st r :
  heap (addListeners this appenderList st) !! r
  = if decide (r = this)
    then (λ l, withListeners (listeners l ++ appenderList) l)
           <$> heap st !! r
    else heap st !! r.
Proof.
  unfold addListeners. revert st.
  induction appenderList as [|a appenderList IH]; intros st; simpl.
  - case_decide; [|done]. destruct (heap st !! r) as [[]|]; simpl; [|done].
    unfold withListeners. simpl. by rewrite app_nil_r.
  - rewrite IH, addListener_lookup. case_decide; [|done].
    destruct (heap st !! r) as [[]|]; simpl; [|done].
    unfold withListeners. simpl. by rewrite <- app_assoc.
Qed.

(** One more listener for the loggers at the references [es.*2], each
    of which is listed once. *)
Lemma addListener_entries_lookup a (es : list (string * nat)) st r :
  NoDup es.*2 →
  heap (foldl (λ st entry, addListener entry.2 a st) st es) !! r
  = if decide (r ∈ es.*2)
    then (λ l, withListeners (listeners l ++ [a]) l) <$> heap st !! r
    else heap st !! r.
Proof.
  revert st. induction es as [|[c r'] es IH]; intros st Hnd.
  - cbn [foldl]. case_decide as H; [|done]. by apply elem_of_nil in H.
  - cbn [foldl]. rewrite fmap_cons in *. apply NoDup_cons in Hnd as [Hr' Hnd].
    rewrite IH by done. rewrite addListener_lookup. cbn [snd].
    repeat case_decide; subst; try done;
      rewrite ?elem_of_cons in *; naive_solver.
Qed.

Lemma removeAllListeners_entries_lookup (es : list (string * nat)) st r :
  heap (foldl (λ st entry, removeAllListeners entry.2 st) st es) !! r
  = if decide (r ∈ es.*2)
    then withListeners [] <$> heap st !! r
    else heap st !! r.
Proof.
  revert st. induction es as [|[c r'] es IH]; intros st.
  - cbn [foldl]. case_decide as H; [|done]. by apply elem_of_nil in H.
  - cbn [foldl]. rewrite fmap_cons. rewrite IH. simpl.
    destruct (decide (r = r')) as [->|Hne].
    + rewrite list_lookup_alter_eq.
      repeat case_decide; rewrite ?elem_of_cons in *; try naive_solver.
      by destruct (heap st !! r').
    + rewrite list_lookup_alter_ne by done.
      repeat case_decide; rewrite ?elem_of_cons in *; naive_solver.
Qed.

(** The references of the registry. *)
Lemma registered_entries st r :
  r ∈ (map_to_list (loggers st)).*2 ↔ ∃ c, loggers st !! c = Some r.
Proof.
  rewrite list_elem_of_fmap. split.
  - intros ([c r'] & -> & H%elem_of_map_to_list). eauto.
  - intros [c H]. exists (c, r). split; [done|].
    by apply elem_of_map_to_list.
Qed.

Lemma wf_entries_NoDup st : wf st → NoDup (map_to_list (loggers st)).*2.
Proof.
  intros (_ & _ & Hinj). apply NoDup_fmap_2_strong.
  - intros [c1 r1] [c2 r2] H1%elem_of_map_to_list H2%elem_of_map_to_list.
    simpl. intros <-. f_equal. eauto.
  - apply NoDup_map_to_list.
Qed.

Lemma addListenerToAll_same a st : same st (addListenerToAll a st).
Proof. apply foldl_same. intros. apply addListener_same. Qed.

Lemma addListenerToAll_lookup a st r :
  wf st →
  heap (addListenerToAll a st) !! r
  = (λ l, withListeners (listeners l ++ [a]) l) <$> heap st !! r.
Proof.
  intros Hwf. unfold addListenerToAll.
  rewrite addListener_entries_lookup by by apply wf_entries_NoDup.
  case_decide as Hin; [done|].
  destruct Hwf as (_ & Hsur & _).
  destruct (heap st !! r) as [l|] eqn:E; [|done].
  apply lookup_lt_Some, Hsur in E. by apply registered_entries in E.
Qed.

End RegistryFacts.

Section RegistryShape.

Context {World : Type}.
Implicit Types (st : Registry World) (a : Appender World)
  (l : Logger World) (r this : nat) (ev : LoggingEvent).

Lemma same_sameShape st st' : same st st' → sameShape st st'.
Proof. by intros (? & ? & _). Qed.

Lemma sameShape_trans st1 st2 st3 :
  sameShape st1 st2 → sameShape st2 st3 → sameShape st1 st3.
Proof. intros [? ?] [? ?]. split; congruence. Qed.

Lemma wf_sameShape st st' : sameShape st st' → wf st → wf st'.
Proof.
  intros [Hlen Hlog] (Hb & Hs & Hi). unfold wf. rewrite Hlen, Hlog. auto.
Qed.

Lemma wf_initial (w : World) clock : wf (initial w clock).
Proof.
  split_and!; simpl.
  - intros c r H. by rewrite lookup_empty in H.
  - intros r H. lia.
  - intros c1 c2 r H. by rewrite lookup_empty in H.
Qed.

(** *** [getLogger] *)

Lemma addListeners_heap this appenderList st :
  heap (addListeners this appenderList st)
  = alter (λ l, withListeners (listeners l ++ appenderList) l) this (heap st).
Proof.
  apply list_eq. intros r. rewrite addListeners_lookup, list_lookup_alter.
  repeat case_decide; by subst.
Qed.

Lemma getLogger_found categoryName st this :
  loggers st !! categoryOf categoryName = Some this →
  getLogger categoryName st = (this, st).
Proof.
  intros H. unfold getLogger. fold (categoryOf categoryName). by rewrite H.
Qed.

(** The first call for a category makes the logger and binds the
    appenders that wait for the category, then those that wait for all
    categories. *)
Lemma getLogger_new categoryName st :
  loggers st !! categoryOf categoryName = None →
  ∃ st',
    getLogger categoryName st = (length (heap st), st') ∧
    heap st'
    = heap st ++ [withListeners (pending st (categoryOf categoryName)
                                 ++ pending st ALL_CATEGORIES)
                    (newLogger (categoryOf categoryName))] ∧
    loggers st'
    = <[categoryOf categoryName := length (heap st)]> (loggers st) ∧
    appenders st' = appenders st ∧ world st' = world st ∧
    now st' = now st ∧ constructed st' = constructed st ∧
    invoked st' = invoked st.
Proof.
  intros H. unfold getLogger. fold (categoryOf categoryName). rewrite H.
  set (c := categoryOf categoryName). set (this := length (heap st)).
  set (st1 := setLoggers _ (setHeap _ st)).
  assert (∀ k st2, match appenders st2 !! k with
                   | Some appenderList => addListeners this appenderList st2
                   | None => st2
                   end = addListeners this (pending st2 k) st2) as Hm.
  { intros k st2. unfold pending. by destruct (appenders st2 !! k). }
  rewrite !Hm. eexists. split; [reflexivity|].
  pose proof (addListeners_same this (pending st1 c) st1) as Hs1.
  pose proof (addListeners_same this
                (pending (addListeners this (pending st1 c) st1)
                   ALL_CATEGORIES)
                (addListeners this (pending st1 c) st1)) as Hs2.
  destruct (same_trans _ _ _ Hs1 Hs2) as (_ & -> & -> & -> & -> & -> & ->).
  split_and!; try done.
  rewrite !addListeners_heap.
  destruct Hs1 as (_ & _ & Ha1 & _). unfold pending at 1. rewrite Ha1.
  subst st1. simpl. fold (pending st ALL_CATEGORIES) (pending st c).
  subst this.
  rewrite <- (Nat.add_0_r (length (heap st))).
  rewrite !alter_app_r. simpl. unfold withListeners. simpl. done.
Qed.

Lemma getLogger_registered categoryName st :
  loggers (getLogger categoryName st).2 !! categoryOf categoryName
  = Some (getLogger categoryName st).1.
Proof.
  destruct (loggers st !! categoryOf categoryName) as [this|] eqn:E.
  - by rewrite (getLogger_found _ _ this).
  - destruct (getLogger_new categoryName st E) as (st' & Hg & _ & Hl & _).
    rewrite Hg. simpl. rewrite Hl. apply lookup_insert_eq.
Qed.

Lemma wf_getLogger categoryName st :
  wf st → wf (getLogger categoryName st).2.
Proof.
  intros Hwf.
  destruct (loggers st !! categoryOf categoryName) as [this|] eqn:E.
  - by rewrite (getLogger_found _ _ this).
  - destruct (getLogger_new categoryName st E)
      as (st' & -> & Hh & Hl & _).
    destruct Hwf as (Hb & Hs & Hi). simpl. unfold wf.
    rewrite Hh, Hl, length_app. simpl. split_and!.
    + intros c r [[_ <-]|[? H]]%lookup_insert_Some; [lia|].
      apply Hb in H. lia.
    + intros r Hr. destruct (decide (r = length (heap st))) as [->|Hne].
      * eexists. apply lookup_insert_eq.
      * destruct (Hs r) as [c Hc]; [lia|]. exists c.
        rewrite lookup_insert_ne; [done|]. congruence.
    + intros c1 c2 r [[E1 <-]|[? H1]]%lookup_insert_Some
                     [[E2 ?]|[? H2]]%lookup_insert_Some.
      * congruence.
      * apply Hb in H2. lia.
      * apply Hb in H1. lia.
      * eauto.
Qed.

End RegistryShape.

Section RegistryCalls.

Context {World : Type}.
Implicit Types (st : Registry World) (a : Appender World)
  (l : Logger World) (r this : nat) (ev : LoggingEvent).

(** *** [addAppender] *)

Lemma addAppenderTo_sameShape a st category' :
  sameShape st (addAppenderTo a st category').
Proof.
  unfold addAppenderTo. set (st1 := setAppenders _ st).
  assert (sameShape st st1) as H1 by done.
  case_decide.
  - eapply sameShape_trans; [done|].
    apply same_sameShape, addListenerToAll_same.
  - destruct (loggers st1 !! category'); [|done].
    eapply sameShape_trans; [done|].
    apply same_sameShape, addListener_same.
Qed.

Lemma addAppender_sameShape a args st :
  sameShape st (addAppender a args st).
Proof.
  unfold addAppender. generalize (categoriesOf args). intros cs. revert st.
  induction cs as [|c cs IH]; intros st; simpl; [done|].
  eapply sameShape_trans; [apply addAppenderTo_sameShape|apply IH].
Qed.

Lemma addAppenderTo_appenders a st category' :
  appenders (addAppenderTo a st category')
  = <[category' := pending st category' ++ [a]]> (appenders st).
Proof.
  unfold addAppenderTo. set (st1 := setAppenders _ st).
  case_decide.
  - by destruct (addListenerToAll_same a st1) as (_ & _ & -> & _).
  - destruct (loggers st1 !! category'); [|done].
    by destruct (addListener_same n a st1) as (_ & _ & -> & _).
Qed.

Lemma addAppenderTo_pending a st category' k :
  pending (addAppenderTo a st category') k
  = pending st k ++ (if decide (category' = k) then [a] else []).
Proof.
  unfold pending at 1. rewrite addAppenderTo_appenders.
  case_decide as E.
  - subst. by rewrite lookup_insert_eq.
  - rewrite lookup_insert_ne by done. by rewrite app_nil_r.
Qed.

(** The heap after the body of the loop of [addAppender]: the
    appender is one more listener, the last, of every logger for the
    category [[all]] and of the logger of another category. *)
Lemma addAppenderTo_lookup a st category' r :
  wf st →
  heap (addAppenderTo a st category') !! r
  = if decide (category' = ALL_CATEGORIES ∨ loggers st !! category' = Some r)
    then (λ l, withListeners (listeners l ++ [a]) l) <$> heap st !! r
    else heap st !! r.
Proof.
  intros Hwf. unfold addAppenderTo. set (st1 := setAppenders _ st).
  assert (wf st1) as Hwf1 by (by apply (wf_sameShape st)).
  destruct (decide (category' = ALL_CATEGORIES)) as [->|Hne].
  - rewrite addListenerToAll_lookup by done. rewrite decide_True by auto.
    done.
  - change (loggers st1) with (loggers st).
    destruct (loggers st !! category') as [this|] eqn:E.
    + rewrite addListener_lookup. change (heap st1) with (heap st).
      repeat case_decide; naive_solver.
    + rewrite decide_False by naive_solver. done.
Qed.




(** *** [clearAppenders] *)

Lemma clearAppenders_same st :
  same (setAppenders ∅ st) (clearAppenders st).
Proof. apply foldl_same. intros. apply removeAllListeners_same. Qed.

Lemma clearAppenders_lookup st r :
  ((∃ c, loggers st !! c = Some r) →
   heap (clearAppenders st) !! r = withListeners [] <$> heap st !! r) ∧
  ((∀ c, loggers st !! c ≠ Some r) →
   heap (clearAppenders st) !! r = heap st !! r).
Proof.
  unfold clearAppenders. rewrite removeAllListeners_entries_lookup.
  change (loggers (setAppenders ∅ st)) with (loggers st).
  change (heap (setAppenders ∅ st)) with (heap st).
  pose proof (registered_entries st r).
  case_decide; naive_solver.
Qed.

(** *** [emit] and the log methods *)

(** The calls [emit] makes: the listeners in order, up to the first
    that does not return; nothing else of the registry changes. *)
Lemma emit_spec (ls : list (Appender World)) ev st :
  let out := (emit ls ev st).1 in
  let st' := (emit ls ev st).2 in
  heap st' = heap st ∧ loggers st' = loggers st ∧
  appenders st' = appenders st ∧ now st' = now st ∧
  constructed st' = constructed st ∧
  ∃ n, n ≤ length ls ∧
       invoked st' = invoked st ++ ((λ listener, (listener, ev)) <$> take n ls) ∧
       (out = Returned () → n = length ls) ∧
       (out ≠ Returned () →
        ∃ listener w, ls !! (n - 1) = Some listener ∧ 0 < n ∧
                      (listener ev w).1 = out) ∧
       ((∀ listener w, listener ∈ ls → (listener ev w).1 = Returned ()) →
        out = Returned ()).
Proof.
  revert st. induction ls as [|listener ls IH]; intros st; simpl.
  - split_and!; try done. exists 0. rewrite app_nil_r.
    split_and!; done.
  - destruct (listener ev (world st)) as [[[]| |] w] eqn:E; simpl.
    + specialize (IH (setWorld w (noteInvoked listener ev st))).
      destruct IH as (-> & -> & -> & -> & -> & n & Hn & -> & Hret & Hthr & Hall).
      split_and!; try done. exists (S n). simpl.
      rewrite <- app_assoc. simpl. split_and!; [lia|done|..].
      * intros H. f_equal. auto.
      * intros H. destruct (Hthr H) as (a' & w' & Hl & Hpos & Ha').
        exists a', w'. split_and!; [|lia|done].
        destruct n; [lia|]. simpl in *. by rewrite Nat.sub_0_r in Hl.
      * intros H. apply Hall. intros a' w' Hin. apply H.
        apply elem_of_cons. by right.
    + split_and!; try done. exists 1. simpl. rewrite ?take_0. simpl.
      split_and!; [lia|done|done|..].
      * intros _. exists listener, (world st).
        split_and!; [done|lia|by rewrite E].
      * intros H. specialize (H listener (world st)). rewrite E in H.
        apply H. apply elem_of_cons. by left.
    + split_and!; try done. exists 1. simpl. rewrite ?take_0. simpl.
      split_and!; [lia|done|done|..].
      * intros _. exists listener, (world st).
        split_and!; [done|lia|by rewrite E].
      * intros H. specialize (H listener (world st)). rewrite E in H.
        apply H. apply elem_of_cons. by left.
Qed.

Lemma emit_sameShape (ls : list (Appender World)) ev st :
  sameShape st (emit ls ev st).2.
Proof.
  destruct (emit_spec ls ev st) as (Hh & Hl & _). split; [|done].
  by rewrite Hh.
Qed.

Lemma log_frame this logLevel message exception st :
  let st' := (log this logLevel message exception st).2 in
  heap st' = heap st ∧ loggers st' = loggers st ∧
  appenders st' = appenders st.
Proof.
  unfold log. destruct (heap st !! this) as [l|]; [|done].
  match goal with
  | |- context [emit ?ls ?ev ?st1] =>
      destruct (emit_spec ls ev st1) as (-> & -> & -> & _)
  end.
  done.
Qed.

Lemma methodLevel_known levelString :
  levelString ∈ levelStrings →
  ∃ lv, methodLevel levelString = Some lv ∧
        (Str.toUpperCase levelString, lv) ∈ levelTable.
Proof.
  unfold levelStrings. intros H.
  repeat (apply elem_of_cons in H as [->|H];
          [eexists; split; [reflexivity|];
           repeat first [apply list_elem_of_here
                        | apply list_elem_of_further]|]).
  by apply elem_of_nil in H.
Qed.

Lemma logMethod_frame levelString this message exception st :
  let st' := (logMethod levelString this message exception st).2 in
  heap st' = heap st ∧ loggers st' = loggers st ∧
  appenders st' = appenders st.
Proof.
  unfold logMethod, isLevelEnabled.
  destruct (heap st !! this) as [l|] eqn:E; [|done].
  destruct (LevelOps.isLessThanOrEqualTo _ _) as [[]| |]; try done.
  destruct (methodLevel levelString); [|done].
  apply log_frame.
Qed.

(** *** Every state the module reaches is well formed *)

Lemma wf_step st (c : Command World) : wf st → wf (step st c).
Proof.
  intros Hwf. destruct c; simpl.
  - by apply wf_getLogger.
  - eapply wf_sameShape; [apply addAppender_sameShape|done].
  - eapply wf_sameShape; [|done].
    eapply sameShape_trans; [|apply same_sameShape, clearAppenders_same].
    done.
  - eapply wf_sameShape; [apply same_sameShape, setLevel_same|done].
  - eapply wf_sameShape; [|done].
    destruct (log_frame this logLevel message exception st) as (Hh & Hl & _).
    split; [by rewrite Hh|done].
  - eapply wf_sameShape; [|done].
    destruct (logMethod_frame levelString this message exception st)
      as (Hh & Hl & _).
    split; [by rewrite Hh|done].
  - by eapply wf_sameShape.
Qed.

Lemma wf_runCommands cmds st : wf st → wf (runCommands cmds st).
Proof.
  revert st. induction cmds as [|c cmds IH]; intros st Hwf; simpl; [done|].
  apply IH. by apply wf_step.
Qed.

Lemma reachable_wf st : reachable st → wf st.
Proof.
  intros (w & clock & cmds & ->). apply wf_runCommands, wf_initial.
Qed.

Lemma reachable_initial (w : World) clock : reachable (initial w clock).
Proof. by exists w, clock, []. Qed.


End RegistryCalls.



(** C9.  [setLevel] with a [Level] object: the threshold of the logger
    becomes TRACE whatever the level, a level of the table or any other,
    because [toLevel] gives the default for every argument that is
    neither a string nor [null] (and for [null] too).  Nothing else of
    the logger and of the registry changes. *)
Theorem setLevel_with_Level_object_gives_TRACE :
  ∀ (World : Type) (st : Registry World) (this : nat) (l : Logger World)
    (L : Level),
    heap st !! this = Some l →
    (∀ d, LevelOps.toLevel (JsLevel L) d = d) ∧
    heap (setLevel this (JsLevel L) st) !! this = Some (withLevel TRACE l) ∧
    level (withLevel TRACE l) = TRACE ∧
    category (withLevel TRACE l) = category l ∧
    listeners (withLevel TRACE l) = listeners l ∧
    (∀ r, r ≠ this → heap (setLevel this (JsLevel L) st) !! r = heap st !! r) ∧
    same st (setLevel this (JsLevel L) st).
Proof.
  intros World st this l L Hl. split_and!; try done.
  - simpl. by rewrite list_lookup_alter_eq, Hl.
  - intros r Hne. simpl. by rewrite list_lookup_alter_ne.
  - apply setLevel_same.
Qed.

(** A use of C9: the logger of ["web"], at INFO, is given the level
    object ERROR of the table. *)
Lemma setLevel_with_Level_object_gives_TRACE_witness :
  levels !! "ERROR" = Some ERROR ∧
  level <$> heap Examples.busy !! 1 = Some INFO ∧
  level <$> heap (setLevel 1 (JsLevel ERROR) Examples.busy) !! 1 = Some TRACE.
Proof.
  split; [by vm_compute|]. split; [by vm_compute|].
  pose proof (λ l, setLevel_with_Level_object_gives_TRACE
                     _ Examples.busy 1 l ERROR) as H.
  edestruct H as (_ & -> & _); [vm_compute; reflexivity|reflexivity].
Defined.

(** C10.  A level filter made with a level that [toLevel] does not
    know (an unrecognized name, or no name: no default is passed) raises
    a [TypeError] on every event, without calling the appender it wraps
    and without an effect; one made with a recognized name calls the
    wrapped appender exactly when the level of the event is at least the
    threshold, and otherwise returns without an effect. *)
Theorem logLevelFilter_unknown_level_raises :
  ∀ (World : Type) (appender : Appender World),
    (∀ name, levels !! Str.toUpperCase name = None →
             LevelOps.toLevel (JsString name) None = None) ∧
    (∀ levelString,
        LevelOps.toLevel levelString None = None →
        ∀ logEvent w,
          logLevelFilter levelString appender logEvent w
          = (Thrown (TypeError "Cannot read property 'level' of undefined"),
             w)) ∧
    (∀ name threshold,
        LevelOps.toLevel (JsString name) None = Some threshold →
        ∀ logEvent w,
          ((Level.level (LoggingEvent.level logEvent)
            >= Level.level threshold)%Q →
           logLevelFilter (JsString name) appender logEvent w
           = appender logEvent w) ∧
          (¬ (Level.level (LoggingEvent.level logEvent)
              >= Level.level threshold)%Q →
           logLevelFilter (JsString name) appender logEvent w
           = (Returned (), w))).
Proof.
  intros World appender. split_and!.
  - intros name H. by rewrite toLevel_string, H.
  - intros levelString H logEvent w. unfold logLevelFilter. by rewrite H.
  - intros name threshold H logEvent w. unfold logLevelFilter. rewrite H.
    destruct (isGreaterThanOrEqualTo_spec (LoggingEvent.level logEvent)
                threshold) as [Ht Hf].
    split; intros Hc.
    + apply Ht in Hc. by rewrite Hc.
    + apply Hf in Hc. by rewrite Hc.
Qed.

(** A use of C10: the filter of ["verbose"] raises, the filter of
    ["warn"] lets an ERROR event through and drops an INFO event. *)
Lemma logLevelFilter_unknown_level_raises_witness :
  Examples.broken (Examples.event INFO "db" "ok") []
  = (Thrown (TypeError "Cannot read property 'level' of undefined"), []) ∧
  logLevelFilter (JsString "warn") (Examples.say "w: ")
    (Examples.event ERROR "db" "ok") []
  = (Returned (), ["w: ok"]) ∧
  logLevelFilter (JsString "warn") (Examples.say "w: ")
    (Examples.event INFO "db" "ok") []
  = (Returned (), []).
Proof.
  destruct (logLevelFilter_unknown_level_raises _ (Examples.say "filtered: "))
    as (Hname & Hraise & _).
  destruct (logLevelFilter_unknown_level_raises _ (Examples.say "w: "))
    as (_ & _ & Hpass).
  split_and!.
  - apply Hraise. apply Hname. by vm_compute.
  - rewrite (proj1 (Hpass "warn" WARN ltac:(by vm_compute)
                      (Examples.event ERROR "db" "ok") []));
      [reflexivity|by vm_compute].
  - apply (Hpass "warn" WARN ltac:(by vm_compute)
             (Examples.event INFO "db" "ok") []).
    by vm_compute.
Defined.




Section RegistryInvariants.

Context {World : Type}.
Implicit Types (st : Registry World) (a : Appender World)
  (l : Logger World) (r this : nat) (ev : LoggingEvent).

(** *** After [clearAppenders] nothing is invoked *)

Lemma quiet_clearAppenders st : wf st → quiet (clearAppenders st).
Proof.
  intros (_ & Hs & _).
  destruct (clearAppenders_same st) as (Hlen & _ & Ha & _).
  split.
  - intros c. rewrite Ha. simpl. by rewrite lookup_empty.
  - intros r l Hl. pose proof (lookup_lt_Some _ _ _ Hl) as Hr.
    rewrite Hlen in Hr. simpl in Hr.
    rewrite (proj1 (clearAppenders_lookup st r) (Hs r Hr)) in Hl.
    destruct (heap st !! r); simplify_eq/=. done.
Qed.

Lemma quiet_ext st st' :
  heap st' = heap st → appenders st' = appenders st → quiet st → quiet st'.
Proof. intros Hh Ha [? ?]. unfold quiet. rewrite Hh, Ha. done. Qed.

Lemma quiet_log this logLevel message exception st :
  quiet st →
  invoked (log this logLevel message exception st).2 = invoked st.
Proof.
  intros [_ Hq]. unfold log. destruct (heap st !! this) as [l|] eqn:E; [|done].
  by rewrite (Hq _ _ E).
Qed.

Lemma quiet_logMethod levelString this message exception st :
  quiet st →
  invoked (logMethod levelString this message exception st).2 = invoked st.
Proof.
  intros Hq. unfold logMethod, isLevelEnabled.
  destruct (heap st !! this) as [l|] eqn:E; [|done].
  destruct (LevelOps.isLessThanOrEqualTo _ _) as [[]| |]; try done.
  destruct (methodLevel levelString); [|done].
  by apply quiet_log.
Qed.

Lemma quiet_step st (c : Command World) :
  wf st → quiet st → isAddAppender c = false →
  quiet (step st c) ∧ invoked (step st c) = invoked st.
Proof.
  intros Hwf Hq Hc. destruct c; simpl; try done.
  - destruct (loggers st !! categoryOf categoryName) as [this|] eqn:E.
    + by rewrite (getLogger_found _ _ this).
    + destruct (getLogger_new categoryName st E)
        as (st' & -> & Hh & _ & Ha & _ & _ & _ & Hi).
      simpl. split; [|done]. destruct Hq as [Hp Hl]. split.
      * intros c. by rewrite Ha.
      * intros r l. rewrite Hh.
        intros [H|[_ H]]%lookup_app_Some; [eauto|].
        destruct (r - length (heap st)); simplify_eq/=.
        unfold pending. by rewrite !Hp.
  - split; [by apply quiet_clearAppenders|].
    by destruct (clearAppenders_same st) as (_ & _ & _ & _ & _ & _ & ->).
  - split; [|done]. destruct Hq as [Hp Hl]. split; [done|].
    intros r l. simpl.
    destruct (decide (r = this)) as [->|Hne].
    + rewrite list_lookup_alter_eq.
      destruct (heap st !! this) as [l0|] eqn:E; simpl; [|done].
      intros [= <-]. simpl. eauto.
    + rewrite list_lookup_alter_ne by done. eauto.
  - split; [|by apply quiet_log].
    destruct (log_frame this logLevel message exception st) as (? & _ & ?).
    by eapply quiet_ext.
  - split; [|by apply quiet_logMethod].
    destruct (logMethod_frame levelString this message exception st)
      as (? & _ & ?).
    by eapply quiet_ext.
Qed.

Lemma quiet_runCommands cmds st :
  wf st → quiet st → Forall (λ c, isAddAppender c = false) cmds →
  quiet (runCommands cmds st) ∧ invoked (runCommands cmds st) = invoked st.
Proof.
  revert st. induction cmds as [|c cmds IH]; intros st Hwf Hq Hcs; simpl.
  - done.
  - apply Forall_cons in Hcs as [Hc Hcs].
    destruct (quiet_step st c Hwf Hq Hc) as [Hq' <-].
    apply IH; [by apply wf_step|done..].
Qed.

(** *** The appenders for all categories are bound to all loggers *)







(** *** Waiting appenders stay until [clearAppenders] *)




End RegistryInvariants.



(** C7.  [clearAppenders] drops every list of waiting appenders and
    leaves every logger of the registry in place, under its category and
    at its reference, with its category and its threshold and without
    listeners; the world and the clock are not touched.  After it, in a
    state the module can reach, whatever is called (log methods on any
    logger, [log], [getLogger] for old and new categories, [setLevel],
    [clearAppenders] again) invokes no appender, as long as
    [addAppender] is not called. *)
Theorem clearAppenders_unbinds_all :
  ∀ (World : Type) (st : Registry World),
    appenders (clearAppenders st) = ∅ ∧
    (∀ c, pending (clearAppenders st) c = []) ∧
    loggers (clearAppenders st) = loggers st ∧
    length (heap (clearAppenders st)) = length (heap st) ∧
    world (clearAppenders st) = world st ∧
    now (clearAppenders st) = now st ∧
    constructed (clearAppenders st) = constructed st ∧
    invoked (clearAppenders st) = invoked st ∧
    (∀ c r l,
        loggers st !! c = Some r → heap st !! r = Some l →
        heap (clearAppenders st) !! r
        = Some {| category := category l; level := level l;
                  listeners := [] |}) ∧
    (reachable st →
     ∀ cmds,
       Forall (λ c, isAddAppender c = false) cmds →
       invoked (runCommands cmds (clearAppenders st)) = invoked st ∧
       ∀ r l, heap (runCommands cmds (clearAppenders st)) !! r = Some l →
              listeners l = []).
Proof.
  intros World st.
  destruct (clearAppenders_same st) as (Hlen & Hlog & Ha & Hw & Hn & Hc & Hi).
  simpl in *. split_and!; try done.
  - intros c. unfold pending. rewrite Ha. by rewrite lookup_empty.
  - intros c r l Hr Hl.
    rewrite (proj1 (clearAppenders_lookup st r)) by eauto. by rewrite Hl.
  - intros Hr cmds Hcmds. apply reachable_wf in Hr.
    assert (wf (clearAppenders st)) as Hwf
      by (by apply (wf_step st ClearAppenders)).
    destruct (quiet_runCommands cmds (clearAppenders st) Hwf
                (quiet_clearAppenders st Hr) Hcmds) as [[_ Hq] Hinv].
    split; [congruence|done].
Qed.

(** A use of C7: after [clearAppenders] in [Examples.busy], log calls
    on the old loggers and on a new one invoke nothing. *)
Lemma clearAppenders_unbinds_all_witness :
  invoked (runCommands [ LogMethod "Info" 0 "one" None;
                         GetLogger (JsString "mail");
                         LogMethod "Fatal" 2 "two" None;
                         LogMethod "Warn" 1 "three" None ]
             (clearAppenders Examples.busy))
  = invoked Examples.busy ∧
  heap (clearAppenders Examples.busy) !! 1
  = Some {| category := "web"; level := INFO; listeners := [] |}.
Proof.
  destruct (clearAppenders_unbinds_all _ Examples.busy)
    as (_ & _ & _ & _ & _ & _ & _ & _ & Hkeep & Hafter).
  split.
  - apply Hafter.
    + unfold Examples.busy. eexists _, _, _. reflexivity.
    + repeat constructor.
  - rewrite (Hkeep "web" 1 (default (newLogger "") (heap Examples.busy !! 1)));
      by vm_compute.
Defined.

(** * Further properties of the registry and of the loggers *)

Section LoggerFacts.

Context {World : Type}.
Implicit Types (st : Registry World) (a : Appender World)
  (l : Logger World) (r this : nat) (ev : LoggingEvent).

Lemma setLevel_lookup this v st r :
  heap (setLevel this v st) !! r
  = if decide (r = this)
    then withLevel (default TRACE (LevelOps.toLevel v (Some TRACE)))
           <$> heap st !! r
    else heap st !! r.
Proof.
  simpl. case_decide as E.
  - subst. apply list_lookup_alter_eq.
  - by apply list_lookup_alter_ne.
Qed.

Lemma isEnabled_unfold levelString this l st :
  heap st !! this = Some l →
  isEnabled levelString this st
  = (LevelOps.isLessThanOrEqualTo (level l) (methodLevel levelString), st).
Proof. intros H. unfold isEnabled, isLevelEnabled. by rewrite H. Qed.

Lemma log_unfold this l logLevel message exception st :
  heap st !! this = Some l →
  log this logLevel message exception st
  = emit (listeners l) (eventOf st this l logLevel message exception)
      (noteConstructed (eventOf st this l logLevel message exception) st).
Proof. intros H. unfold log. by rewrite H. Qed.

Lemma logMethod_closed levelString this l lv message exception st :
  heap st !! this = Some l → methodLevel levelString = Some lv →
  ¬ (Level.level (level l) <= Level.level lv)%Q →
  logMethod levelString this message exception st = (Returned (), st).
Proof.
  intros Hl Hlv Hc. unfold logMethod, isLevelEnabled. rewrite Hl, Hlv.
  destruct (isLessThanOrEqualTo_spec (level l) lv) as [Ht Hf].
  apply (proj2 Hf) in Hc. by rewrite Hc.
Qed.

Lemma logMethod_open levelString this l lv message exception st :
  heap st !! this = Some l → methodLevel levelString = Some lv →
  (Level.level (level l) <= Level.level lv)%Q →
  logMethod levelString this message exception st
  = log this lv message exception st.
Proof.
  intros Hl Hlv Hc. unfold logMethod, isLevelEnabled. rewrite Hl, Hlv.
  destruct (isLessThanOrEqualTo_spec (level l) lv) as [Ht Hf].
  apply (proj2 Ht) in Hc. by rewrite Hc.
Qed.

Lemma log_constructed this l logLevel message exception st :
  heap st !! this = Some l →
  constructed (log this logLevel message exception st).2
  = constructed st ++ [eventOf st this l logLevel message exception].
Proof.
  intros Hl. rewrite (log_unfold _ l) by done.
  by destruct (emit_spec (listeners l)
                 (eventOf st this l logLevel message exception)
                 (noteConstructed
                    (eventOf st this l logLevel message exception) st))
    as (_ & _ & _ & _ & -> & _).
Qed.

(** The levels of the six methods, by ascending rank. *)
Lemma methodLevels_sorted :
  methodLevel <$> levelStrings
  = Some <$> [TRACE; DEBUG; INFO; WARN; ERROR; FATAL].
Proof. reflexivity. Qed.

End LoggerFacts.

Section LoggerProperties.

Context {World : Type}.
Implicit Types (st : Registry World) (a : Appender World)
  (l : Logger World) (r this : nat) (ev : LoggingEvent).

Lemma methodLevel_rank_mono i j ls1 ls2 :
  levelStrings !! i = Some ls1 → levelStrings !! j = Some ls2 → i ≤ j →
  ∃ lv1 lv2, methodLevel ls1 = Some lv1 ∧ methodLevel ls2 = Some lv2 ∧
             (Level.level lv1 <= Level.level lv2)%Q.
Proof.
  intros Hi Hj Hij. unfold levelStrings in *.
  destruct i as [|[|[|[|[|[|?]]]]]]; destruct j as [|[|[|[|[|[|?]]]]]];
    simplify_eq/=; try lia;
    (eexists _, _; split_and!; [reflexivity|reflexivity|];
     by apply Qle_bool_iff).
Qed.

(** X1.  [setLevel] with the name of a level, in any letter case, sets
    the threshold of the logger to that level, and with it the gate of
    every severity method: [is...Enabled] answers [true] exactly when
    the rank of the new threshold is at most the rank of the method's
    level, without changing anything; when it is not, the method changes
    nothing; when it is, the method builds one event, at the level of
    the method. *)
Theorem setLevel_sets_the_gate st this l name lv levelString mlv message
    exception :
  heap st !! this = Some l →
  (Str.toUpperCase name, lv) ∈ levelTable →
  methodLevel levelString = Some mlv →
  let st1 := setLevel this (JsString name) st in
  heap st1 !! this = Some (withLevel lv l) ∧
  (isEnabled levelString this st1 = (Returned true, st1)
   ↔ (Level.level lv <= Level.level mlv)%Q) ∧
  (isEnabled levelString this st1 = (Returned false, st1)
   ↔ ¬ (Level.level lv <= Level.level mlv)%Q) ∧
  (¬ (Level.level lv <= Level.level mlv)%Q →
   logMethod levelString this message exception st1 = (Returned (), st1)) ∧
  ((Level.level lv <= Level.level mlv)%Q →
   constructed (logMethod levelString this message exception st1).2
   = constructed st
     ++ [eventOf st this (withLevel lv l) mlv message exception]).
Proof.
  intros Hl Hname Hm st1.
  assert (heap st1 !! this = Some (withLevel lv l)) as Hl1.
  { subst st1. rewrite setLevel_lookup, decide_True, Hl by done.
    apply levels_lookup in Hname. simpl. by rewrite Hname. }
  rewrite (isEnabled_unfold _ _ _ _ Hl1), Hm.
  change (level (withLevel lv l)) with lv.
  destruct (isLessThanOrEqualTo_spec lv mlv) as [Ht Hf].
  split_and!.
  - done.
  - rewrite <- Ht. split; [intros H; by apply (f_equal fst) in H|by intros ->].
  - rewrite <- Hf. split; [intros H; by apply (f_equal fst) in H|by intros ->].
  - intros Hc. by apply (logMethod_closed _ _ (withLevel lv l) mlv).
  - intros Hc. rewrite (logMethod_open _ _ (withLevel lv l) mlv) by done.
    by rewrite (log_constructed _ (withLevel lv l)).
Qed.

(** X2.  The six severity methods are ordered: a logger that lets the
    method of one of ['Trace','Debug','Info','Warn','Error','Fatal']
    through lets the methods of all the later ones through, whatever its
    threshold; the [is...Enabled] methods change nothing. *)
Theorem enabled_is_upward_closed st this l i j ls1 ls2 :
  heap st !! this = Some l →
  levelStrings !! i = Some ls1 → levelStrings !! j = Some ls2 → i ≤ j →
  (∃ b, isEnabled ls1 this st = (Returned b, st)) ∧
  (isEnabled ls1 this st = (Returned true, st) →
   isEnabled ls2 this st = (Returned true, st)).
Proof.
  intros Hl Hi Hj Hij.
  destruct (methodLevel_rank_mono i j ls1 ls2 Hi Hj Hij)
    as (lv1 & lv2 & H1 & H2 & Hle).
  rewrite !(isEnabled_unfold _ _ _ _ Hl), H1, H2.
  destruct (isLessThanOrEqualTo_spec (level l) lv1) as [Ht1 _].
  destruct (isLessThanOrEqualTo_spec (level l) lv2) as [Ht2 _].
  split.
  - simpl. eauto.
  - intros H. apply (f_equal fst) in H. simpl in H. apply Ht1 in H.
    assert (Level.level (level l) <= Level.level lv2)%Q as H'
      by (by apply (Qle_trans _ (Level.level lv1))).
    apply Ht2 in H'. by rewrite H'.
Qed.

(** X3.  A logger that [getLogger] has just made has the threshold
    TRACE: every one of the six severity methods passes its gate. *)
Theorem new_logger_enables_every_method categoryName st levelString :
  loggers st !! categoryOf categoryName = None →
  levelString ∈ levelStrings →
  let this := (getLogger categoryName st).1 in
  let st1 := (getLogger categoryName st).2 in
  level <$> heap st1 !! this = Some TRACE ∧
  isEnabled levelString this st1 = (Returned true, st1).
Proof.
  intros Hc Hin this st1.
  destruct (getLogger_new categoryName st Hc) as (st' & Hg & Hh & _).
  subst this st1. rewrite Hg. simpl.
  assert (heap st' !! length (heap st)
          = Some (withListeners (pending st (categoryOf categoryName)
                                 ++ pending st ALL_CATEGORIES)
                    (newLogger (categoryOf categoryName)))) as Hl.
  { rewrite Hh, lookup_app_r by done. by rewrite Nat.sub_diag. }
  rewrite Hl. split; [done|].
  rewrite (isEnabled_unfold _ _ _ _ Hl). simpl.
  unfold levelStrings in Hin.
  repeat (apply elem_of_cons in Hin as [->|Hin]; [reflexivity|]).
  by apply elem_of_nil in Hin.
Qed.

(** X4.  [Logger.prototype.log] does not look at the threshold: even
    on a logger that was set to OFF, where each of the six severity
    methods changes nothing, [log] at any level builds one event and
    calls the listeners of the logger with it, in order, all of them
    when none of them raises. *)
Theorem log_ignores_the_threshold st this l levelString logLevel message
    exception :
  heap st !! this = Some l →
  levelString ∈ levelStrings →
  let st1 := setLevel this (JsString "off") st in
  let loggingEvent :=
    eventOf st this (withLevel OFF l) logLevel message exception in
  logMethod levelString this message exception st1 = (Returned (), st1) ∧
  constructed (log this logLevel message exception st1).2
  = constructed st ++ [loggingEvent] ∧
  ((∀ listener w, listener ∈ listeners l →
                  (listener loggingEvent w).1 = Returned ()) →
   (log this logLevel message exception st1).1 = Returned () ∧
   invoked (log this logLevel message exception st1).2
   = invoked st ++ ((λ listener, (listener, loggingEvent)) <$> listeners l)).
Proof.
  intros Hl Hin st1 loggingEvent.
  assert (heap st1 !! this = Some (withLevel OFF l)) as Hl1.
  { subst st1. by rewrite setLevel_lookup, decide_True, Hl. }
  split_and!.
  - destruct (methodLevel_known levelString Hin) as (lv & Hlv & _).
    apply (logMethod_closed _ _ (withLevel OFF l) lv); [done..|].
    unfold levelStrings in Hin.
    repeat (apply elem_of_cons in Hin as [->|Hin];
            [injection Hlv as <-; intros H%Qle_bool_iff; by vm_compute in H|]).
    by apply elem_of_nil in Hin.
  - by rewrite (log_constructed _ (withLevel OFF l)).
  - intros Hall. rewrite (log_unfold _ (withLevel OFF l)) by done.
    change (eventOf st1 this (withLevel OFF l) logLevel message exception)
      with loggingEvent.
    change (listeners (withLevel OFF l)) with (listeners l).
    destruct (emit_spec (listeners l) loggingEvent
                (noteConstructed loggingEvent st1))
      as (_ & _ & _ & _ & _ & n & _ & -> & Hret & _ & Hout).
    specialize (Hout Hall). split; [done|].
    by rewrite (Hret Hout), firstn_all.
Qed.

End LoggerProperties.

(** A use of X1: the logger of ["web"] is set to ["error"]. *)
Lemma setLevel_sets_the_gate_witness :
  warn 1 "w" None (setLevel 1 (JsString "error") Examples.busy)
  = (Returned (), setLevel 1 (JsString "error") Examples.busy) ∧
  length (constructed
            (fatal 1 "f" None (setLevel 1 (JsString "error") Examples.busy)).2)
  = 1.
Proof.
  split.
  - eapply (setLevel_sets_the_gate (World := list string) Examples.busy 1 _
              "error" ERROR "Warn" WARN "w" None).
    + vm_compute. reflexivity.
    + unfold levelTable.
      repeat first [apply list_elem_of_here | apply list_elem_of_further].
    + reflexivity.
    + intros H%Qle_bool_iff. by vm_compute in H.
  - unfold fatal.
    pose proof (λ l Hl, proj2 (proj2 (proj2 (proj2
      (setLevel_sets_the_gate (World := list string) Examples.busy 1 l
         "error" ERROR "Fatal" FATAL "f" None Hl
         ltac:(unfold levelTable;
               repeat first [apply list_elem_of_here
                            | apply list_elem_of_further])
         eq_refl))))) as H.
    erewrite H; [reflexivity|vm_compute; reflexivity|].
    by apply Qle_bool_iff.
Defined.

(** A use of X2: [debug] is enabled, so [error] is. *)
Lemma enabled_is_upward_closed_witness :
  isEnabled "Error" 0 Examples.busy = (Returned true, Examples.busy).
Proof.
  eapply (enabled_is_upward_closed (World := list string) Examples.busy 0 _
            1 4 "Debug" "Error").
  - vm_compute. reflexivity.
  - reflexivity.
  - reflexivity.
  - lia.
  - reflexivity.
Defined.

(** A use of X3: the first call for ["mail"]. *)
Lemma new_logger_enables_every_method_witness :
  isEnabled "Trace" (getLogger (JsString "mail") Examples.busy).1
    (getLogger (JsString "mail") Examples.busy).2
  = (Returned true, (getLogger (JsString "mail") Examples.busy).2).
Proof.
  apply (new_logger_enables_every_method (World := list string)
           (JsString "mail") Examples.busy "Trace").
  - by vm_compute.
  - apply list_elem_of_here.
Defined.

(** A use of X4: the logger of ["db"], set to OFF, still logs through
    [log]. *)
Lemma log_ignores_the_threshold_witness :
  error 0 "e" None (setLevel 0 (JsString "off") Examples.busy)
  = (Returned (), setLevel 0 (JsString "off") Examples.busy) ∧
  length (constructed
            (log 0 DEBUG "d" None
               (setLevel 0 (JsString "off") Examples.busy)).2) = 1.
Proof.
  pose proof (λ l, log_ignores_the_threshold (World := list string)
                     Examples.busy 0 l "Error" DEBUG "d" None) as H.
  edestruct H as (Hm & Hc & _).
  - vm_compute. reflexivity.
  - unfold levelStrings.
    repeat first [apply list_elem_of_here | apply list_elem_of_further].
  - split.
    + unfold error. apply (H _ ltac:(vm_compute; reflexivity)
                                ltac:(unfold levelStrings;
                                      repeat first [apply list_elem_of_here
                                                   | apply list_elem_of_further])).
    + rewrite Hc. reflexivity.
Defined.

Section RegistryRuns.

Context {World : Type}.
Implicit Types (st : Registry World) (a : Appender World)
  (l : Logger World) (r this : nat) (ev : LoggingEvent).

Lemma addAppenderTo_logger a st category' r l :
  wf st → heap st !! r = Some l →
  ∃ l', heap (addAppenderTo a st category') !! r = Some l' ∧
        category l' = category l ∧ level l' = level l ∧
        listeners l `prefix_of` listeners l'.
Proof.
  intros Hwf Hl. rewrite addAppenderTo_lookup, Hl by done.
  case_decide; eexists; (split; [reflexivity|]); simpl; split_and!; try done.
  by apply prefix_app_r.
Qed.

Lemma addAppender_logger a args st r l :
  wf st → heap st !! r = Some l →
  ∃ l', heap (addAppender a args st) !! r = Some l' ∧
        category l' = category l ∧ level l' = level l ∧
        listeners l `prefix_of` listeners l'.
Proof.
  unfold addAppender. generalize (categoriesOf args). intros cs.
  revert st l. induction cs as [|c cs IH]; intros st l Hwf Hl; simpl.
  - by exists l.
  - destruct (addAppenderTo_logger a st c r l Hwf Hl)
      as (l1 & Hl1 & Hc1 & Hv1 & Hp1).
    destruct (IH (addAppenderTo a st c) l1) as (l2 & Hl2 & Hc2 & Hv2 & Hp2).
    + eapply wf_sameShape; [apply addAppenderTo_sameShape|done].
    + done.
    + exists l2. split_and!; [done|congruence|congruence|by etrans].
Qed.

(** What one call does to a logger there is. *)
Lemma step_logger st (c : Command World) r l :
  wf st → heap st !! r = Some l →
  ∃ l', heap (step st c) !! r = Some l' ∧ category l' = category l ∧
        (isClearAppenders c = false →
         listeners l `prefix_of` listeners l') ∧
        (isSetLevelOn r c = false → level l' = level l).
Proof.
  intros Hwf Hl. destruct c; simpl.
  - exists l. split_and!; try done.
    destruct (loggers st !! categoryOf categoryName) as [this|] eqn:E.
    + by rewrite (getLogger_found _ _ this).
    + destruct (getLogger_new categoryName st E) as (st' & -> & Hh & _).
      simpl. rewrite Hh. by apply lookup_app_l_Some.
  - destruct (addAppender_logger appender args st r l Hwf Hl)
      as (l' & ? & ? & ? & ?).
    exists l'. split_and!; done.
  - destruct (decide (r ∈ (map_to_list (loggers st)).*2)) as [Hreg|Hno].
    + apply registered_entries in Hreg.
      rewrite (proj1 (clearAppenders_lookup st r) Hreg), Hl.
      eexists. split_and!; done.
    + rewrite (proj2 (clearAppenders_lookup st r)), Hl.
      * exists l. split_and!; done.
      * intros c Hc. apply Hno, registered_entries. eauto.
  - rewrite list_lookup_alter. case_decide as E.
    + subst. rewrite Hl. eexists. split_and!; try done.
      intros H. by apply bool_decide_eq_false in H.
    + exists l. split_and!; done.
  - destruct (log_frame this logLevel message exception st) as (-> & _).
    exists l. split_and!; done.
  - destruct (logMethod_frame levelString this message exception st)
      as (-> & _).
    exists l. split_and!; done.
  - exists l. split_and!; done.
Qed.

Lemma step_loggers st (c : Command World) category' r :
  loggers st !! category' = Some r → loggers (step st c) !! category' = Some r.
Proof.
  intros Hr. destruct c; simpl; try done.
  - destruct (loggers st !! categoryOf categoryName) as [this|] eqn:E.
    + by rewrite (getLogger_found _ _ this).
    + destruct (getLogger_new categoryName st E)
        as (st' & -> & _ & Hg & _).
      simpl. rewrite Hg, lookup_insert_ne; [done|]. congruence.
  - by destruct (addAppender_sameShape appender args st) as [_ ->].
  - by destruct (clearAppenders_same st) as (_ & -> & _).
  - by destruct (log_frame this logLevel message exception st)
      as (_ & -> & _).
  - by destruct (logMethod_frame levelString this message exception st)
      as (_ & -> & _).
Qed.

(** X5.  A logger is never removed and never renamed: whatever is
    called, in a state the module can reach, the logger of a category
    stays registered under it at the same reference, with the same
    category; and its threshold is what it was as long as [setLevel] is
    not called on it. *)
Theorem loggers_are_never_removed st cmds category' r l :
  reachable st →
  loggers st !! category' = Some r → heap st !! r = Some l →
  loggers (runCommands cmds st) !! category' = Some r ∧
  ∃ l', heap (runCommands cmds st) !! r = Some l' ∧
        category l' = category l ∧
        (Forall (λ c, isSetLevelOn r c = false) cmds → level l' = level l).
Proof.
  intros Hreach. apply reachable_wf in Hreach. revert st l Hreach.
  induction cmds as [|c cmds IH]; intros st l Hwf Hr Hl; simpl.
  - split; [done|]. by exists l.
  - destruct (step_logger st c r l Hwf Hl) as (l1 & Hl1 & Hc1 & _ & Hv1).
    destruct (IH (step st c) l1 (wf_step st c Hwf)
                (step_loggers st c _ _ Hr) Hl1) as (Hr2 & l2 & Hl2 & Hc2 & Hv2).
    split; [done|]. exists l2. split_and!; [done|congruence|].
    intros [Hc Hcs]%Forall_cons. rewrite Hv2, Hv1; done.
Qed.

(** X6.  Bindings are only ever appended: as long as [clearAppenders]
    is not called, in a state the module can reach, the listeners a
    logger has stay its first listeners, in the same order, whatever is
    called. *)
Theorem bindings_are_append_only st cmds r l :
  reachable st →
  Forall (λ c, isClearAppenders c = false) cmds →
  heap st !! r = Some l →
  ∃ l', heap (runCommands cmds st) !! r = Some l' ∧
        listeners l `prefix_of` listeners l'.
Proof.
  intros Hreach. apply reachable_wf in Hreach. revert st l Hreach.
  induction cmds as [|c cmds IH]; intros st l Hwf Hcs Hl; simpl.
  - by exists l.
  - apply Forall_cons in Hcs as [Hc Hcs].
    destruct (step_logger st c r l Hwf Hl) as (l1 & Hl1 & _ & Hp1 & _).
    destruct (IH (step st c) l1 (wf_step st c Hwf) Hcs Hl1)
      as (l2 & Hl2 & Hp2).
    exists l2. split; [done|]. etrans; [by apply Hp1|done].
Qed.

(** X7.  [getLogger] does nothing but make the logger that is
    missing: the loggers there are stay as they are, at their
    references and under their categories, at most one logger is added,
    and the waiting appenders, the world, the clock and the record of
    events and invocations are untouched. *)
Theorem getLogger_leaves_the_others categoryName st :
  let st1 := (getLogger categoryName st).2 in
  (∀ r l, heap st !! r = Some l → heap st1 !! r = Some l) ∧
  (∀ c r, loggers st !! c = Some r → loggers st1 !! c = Some r) ∧
  (∀ c, c ≠ categoryOf categoryName → loggers st1 !! c = loggers st !! c) ∧
  length (heap st1) ≤ S (length (heap st)) ∧
  appenders st1 = appenders st ∧ world st1 = world st ∧ now st1 = now st ∧
  constructed st1 = constructed st ∧ invoked st1 = invoked st.
Proof.
  intros st1. subst st1.
  destruct (loggers st !! categoryOf categoryName) as [this|] eqn:E.
  - rewrite (getLogger_found _ _ this) by done. simpl.
    split_and!; try done. lia.
  - destruct (getLogger_new categoryName st E)
      as (st' & -> & Hh & Hl & ? & ? & ? & ? & ?).
    simpl. rewrite Hh, Hl. split_and!; try done.
    + intros r l Hr. by apply lookup_app_l_Some.
    + intros c r Hr. rewrite lookup_insert_ne; [done|]. congruence.
    + intros c Hne. by rewrite lookup_insert_ne.
    + rewrite length_app. simpl. lia.
Qed.


(** X9.  [clearAppenders] and then [addAppender] without a category:
    in a state the module can reach, every logger there is has exactly
    one listener afterwards, the appender, which is also the only
    appender that waits. *)
Theorem clearAppenders_then_addAppender st a category' r l :
  reachable st →
  loggers st !! category' = Some r → heap st !! r = Some l →
  let st1 := addAppender a (Categories []) (clearAppenders st) in
  heap st1 !! r
  = Some {| category := category l; level := level l; listeners := [a] |} ∧
  pending st1 ALL_CATEGORIES = [a] ∧
  (∀ k, k ≠ ALL_CATEGORIES → pending st1 k = []).
Proof.
  intros Hreach Hr Hl st1. apply reachable_wf in Hreach. subst st1.
  assert (wf (clearAppenders st)) as Hwf
    by (by apply (wf_step st ClearAppenders)).
  destruct (clearAppenders_same st) as (_ & _ & Ha & _).
  unfold addAppender. simpl. split_and!.
  - rewrite addAppenderTo_lookup, decide_True by auto.
    rewrite (proj1 (clearAppenders_lookup st r)), Hl by eauto. done.
  - rewrite addAppenderTo_pending, decide_True by done.
    unfold pending. rewrite Ha. simpl. by rewrite lookup_empty.
  - intros k Hk. rewrite addAppenderTo_pending, decide_False by congruence.
    unfold pending. rewrite Ha. simpl. by rewrite lookup_empty.
Qed.

(** X10.  The empty category name: [getLogger("")] makes a logger whose
    category is the default category (its events carry ["[default]"]),
    but it is registered under [""], it is bound to the appenders that
    wait under [""] and under the category for all loggers, and it is
    not the default logger: the calls without a category and for
    ["[default]"] return another logger. *)
Theorem empty_category_logger st :
  reachable st → loggers st !! "" = None →
  let this := (getLogger (JsString "") st).1 in
  let st1 := (getLogger (JsString "") st).2 in
  heap st1 !! this
  = Some {| category := DEFAULT_CATEGORY; level := TRACE;
            listeners := pending st "" ++ pending st ALL_CATEGORIES |} ∧
  loggers st1 !! "" = Some this ∧
  (getLogger JsUndefined st1).1 ≠ this ∧
  (getLogger (JsString DEFAULT_CATEGORY) st1).1 ≠ this ∧
  (getDefaultLogger st1).1 ≠ this.
Proof.
  intros Hreach Hc this st1.
  assert (loggers st1 !! "" = Some this) as Hreg
    by apply (getLogger_registered (JsString "") st).
  assert (wf st1) as Hwf1 by (by apply wf_getLogger, reachable_wf).
  assert ((getLogger (JsString DEFAULT_CATEGORY) st1).1 ≠ this) as Hne.
  { intros E.
    pose proof (getLogger_registered (JsString DEFAULT_CATEGORY) st1) as H2.
    pose proof (step_loggers st1 (GetLogger (JsString DEFAULT_CATEGORY))
                  "" this Hreg) as H1.
    simpl in H1, H2. rewrite E in H2.
    destruct (wf_getLogger (JsString DEFAULT_CATEGORY) st1 Hwf1)
      as (_ & _ & Hinj).
    by specialize (Hinj _ _ _ H1 H2). }
  split_and!; try done.
  subst this st1.
  destruct (getLogger_new (JsString "") st Hc) as (st' & -> & Hh & _).
  simpl. rewrite Hh, lookup_app_r by done. by rewrite Nat.sub_diag.
Qed.

(** X11.  The logger of the category ["[all]"] itself: when [getLogger]
    makes it, the appenders that wait for all categories are bound to it
    twice, once as the appenders of its category and once as the
    appenders for all categories. *)
Theorem all_category_logger_binds_twice st :
  loggers st !! ALL_CATEGORIES = None →
  let this := (getLogger (JsString ALL_CATEGORIES) st).1 in
  let st1 := (getLogger (JsString ALL_CATEGORIES) st).2 in
  ∃ l, heap st1 !! this = Some l ∧
       listeners l = pending st ALL_CATEGORIES ++ pending st ALL_CATEGORIES ∧
       length (listeners l) = 2 * length (pending st ALL_CATEGORIES).
Proof.
  intros Hc this st1. subst this st1.
  destruct (getLogger_new (JsString ALL_CATEGORIES) st Hc)
    as (st' & -> & Hh & _).
  simpl. eexists. split.
  - rewrite Hh, lookup_app_r by done. by rewrite Nat.sub_diag.
  - simpl. split; [done|]. rewrite length_app. lia.
Qed.

(** X12.  Level filters compose: a filter around a filter lets an
    event through to the appender exactly when its level is at least
    both thresholds, so that the order of the two filters does not
    matter; and a filter around a filter with an unknown level name
    raises only on the events it lets through. *)
Theorem logLevelFilter_composes a name1 name2 t1 t2 logEvent (w : World) :
  LevelOps.toLevel (JsString name1) None = Some t1 →
  LevelOps.toLevel (JsString name2) None = Some t2 →
  logLevelFilter (JsString name1) (logLevelFilter (JsString name2) a)
    logEvent w
  = (if Qle_bool (Level.level t1) (Level.level (LoggingEvent.level logEvent))
        && Qle_bool (Level.level t2)
             (Level.level (LoggingEvent.level logEvent))
     then a logEvent w else (Returned (), w)) ∧
  logLevelFilter (JsString name1) (logLevelFilter (JsString name2) a)
    logEvent w
  = logLevelFilter (JsString name2) (logLevelFilter (JsString name1) a)
      logEvent w ∧
  (∀ unknown,
      LevelOps.toLevel unknown None = None →
      logLevelFilter (JsString name1) (logLevelFilter unknown a) logEvent w
      = if Qle_bool (Level.level t1)
             (Level.level (LoggingEvent.level logEvent))
        then (Thrown (TypeError "Cannot read property 'level' of undefined"),
              w)
        else (Returned (), w)).
Proof.
  intros H1 H2. unfold logLevelFilter. rewrite H1, H2. simpl.
  split_and!.
  - by repeat destruct (Qle_bool _ _).
  - by repeat destruct (Qle_bool _ _).
  - intros unknown ->. simpl. by destruct (Qle_bool _ _).
Qed.

End RegistryRuns.

(** A use of X5: the logger of ["db"] stays where it is. *)
Lemma loggers_are_never_removed_witness :
  loggers (runCommands [ ClearAppenders; SetLevel 1 (JsString "off");
                         GetLogger (JsString "mail");
                         LogMethod "Info" 0 "m" None ] Examples.busy) !! "db"
  = Some 0.
Proof.
  eapply (loggers_are_never_removed (World := list string) Examples.busy).
  - unfold Examples.busy. eexists _, _, _. reflexivity.
  - by vm_compute.
  - vm_compute. reflexivity.
Defined.

(** A use of X6: the logger of ["db"] keeps its two listeners first. *)
Lemma bindings_are_append_only_witness :
  ∃ l', heap (runCommands [ AddAppender (Examples.say "x: ") (Categories []);
                            GetLogger (JsString "mail");
                            LogMethod "Info" 0 "m" None ] Examples.busy) !! 0
        = Some l' ∧
        [Examples.say "all: "; Examples.say "db: "] `prefix_of` listeners l'.
Proof.
  apply (bindings_are_append_only (World := list string) Examples.busy _ 0
           {| category := "db"; level := TRACE;
              listeners := [Examples.say "all: "; Examples.say "db: "] |}).
  - unfold Examples.busy. eexists _, _, _. reflexivity.
  - repeat constructor.
  - vm_compute. reflexivity.
Defined.


(** A use of X9: the logger of ["web"] after a reset. *)
Lemma clearAppenders_then_addAppender_witness :
  heap (addAppender (Examples.say "x: ") (Categories [])
          (clearAppenders Examples.busy)) !! 1
  = Some {| category := "web"; level := INFO;
            listeners := [Examples.say "x: "] |}.
Proof.
  apply (clearAppenders_then_addAppender (World := list string)
           Examples.busy (Examples.say "x: ") "web" 1
           {| category := "web"; level := INFO;
              listeners := [Examples.say "all: "] |}).
  - unfold Examples.busy. eexists _, _, _. reflexivity.
  - by vm_compute.
  - vm_compute. reflexivity.
Defined.

(** A use of X10: the logger of [""] is not the default logger. *)
Lemma empty_category_logger_witness :
  (getDefaultLogger (getLogger (JsString "") Examples.busy).2).1
  ≠ (getLogger (JsString "") Examples.busy).1.
Proof.
  apply (empty_category_logger (World := list string) Examples.busy).
  - unfold Examples.busy. eexists _, _, _. reflexivity.
  - by vm_compute.
Defined.

(** A use of X11: the logger of ["[all]"] in [Examples.busy]. *)
Lemma all_category_logger_binds_twice_witness :
  ∃ l, heap (getLogger (JsString ALL_CATEGORIES) Examples.busy).2
         !! (getLogger (JsString ALL_CATEGORIES) Examples.busy).1 = Some l ∧
       listeners l = pending Examples.busy ALL_CATEGORIES
                     ++ pending Examples.busy ALL_CATEGORIES ∧
       length (listeners l) = 2 * length (pending Examples.busy ALL_CATEGORIES).
Proof.
  apply (all_category_logger_binds_twice (World := list string)
           Examples.busy).
  by vm_compute.
Defined.

(** A use of X12: the filters for ["info"] and ["warn"] in both
    orders. *)
Lemma logLevelFilter_composes_witness :
  logLevelFilter (JsString "info")
    (logLevelFilter (JsString "warn") (Examples.say "f: "))
    (Examples.event ERROR "db" "m") []
  = logLevelFilter (JsString "warn")
      (logLevelFilter (JsString "info") (Examples.say "f: "))
      (Examples.event ERROR "db" "m") [].
Proof.
  apply (logLevelFilter_composes (World := list string)
           (Examples.say "f: ") "info" "warn" INFO WARN).
  - vm_compute. reflexivity.
  - vm_compute. reflexivity.
Defined.

(** * Further properties of the layouts *)

Section StringFacts.

Lemma string_app_cons c (s t : string) : String c s +:+ t = String c (s +:+ t).
Proof. reflexivity. Qed.

Lemma string_app_empty_l (t : string) : "" +:+ t = t.
Proof. reflexivity. Qed.

Lemma string_length_app (s t : string) :
  Str.length (s +:+ t) = Str.length s + Str.length t.
Proof.
  unfold Str.length. induction s as [|c s IH]; [done|].
  rewrite string_app_cons. simpl. by f_equal.
Qed.

Lemma string_app_assoc (s t u : string) : (s +:+ t) +:+ u = s +:+ (t +:+ u).
Proof. induction s as [|c s IH]; [done|]. rewrite !string_app_cons. by f_equal. Qed.

Lemma string_app_empty_r (s : string) : s +:+ "" = s.
Proof. induction s as [|c s IH]; [done|]. rewrite string_app_cons. by f_equal. Qed.

Lemma allChars_app p (s t : string) :
  allChars p (s +:+ t) = allChars p s && allChars p t.
Proof.
  induction s as [|c s IH]; [done|]. rewrite string_app_cons. simpl.
  by rewrite IH, andb_assoc.
Qed.

Lemma allChars_weaken (p q : ascii → bool) s :
  (∀ c, p c = true → q c = true) → allChars p s = true → allChars q s = true.
Proof.
  intros Hpq. induction s as [|c s IH]; simpl; [done|].
  intros [Hc Hs]%andb_true_iff. rewrite (Hpq c Hc). simpl. auto.
Qed.

Lemma length_repeatChar c n : Str.length (repeatChar c n) = n.
Proof. unfold Str.length. induction n as [|n IH]; simpl; by f_equal. Qed.

Lemma repeatChar_snoc c n s :
  repeatChar c n +:+ String c s = String c (repeatChar c n +:+ s).
Proof.
  induction n as [|n IH]; [done|]. simpl. rewrite !string_app_cons. by f_equal.
Qed.

Lemma allChars_repeatChar (p : ascii → bool) c n :
  p c = true → allChars p (repeatChar c n) = true.
Proof. intros H. induction n as [|n IH]; simpl; [done|]. by rewrite H, IH. Qed.

Lemma allChars_prefix p n s :
  allChars p s = true → allChars p (Str.prefix n s) = true.
Proof.
  revert s. induction n as [|n IH]; intros [|c s]; simpl; try done.
  intros [Hc Hs]%andb_true_iff. rewrite Hc. simpl. auto.
Qed.

Lemma allChars_substr p n s :
  allChars p s = true → allChars p (Str.substr n s) = true.
Proof.
  revert s. induction n as [|n IH]; intros [|c s]; simpl; try done.
  intros [Hc Hs]%andb_true_iff. auto.
Qed.

End StringFacts.

Section DateFacts.

Import Date.

Lemma padWithZerosLoop_spec fuel numAsString width :
  width - Str.length numAsString ≤ fuel →
  padWithZerosLoop fuel numAsString width
  = repeatChar "0" (width - Str.length numAsString) +:+ numAsString.
Proof.
  revert numAsString.
  induction fuel as [|fuel IH]; intros s Hle; simpl.
  - by replace (width - Str.length s) with 0 by lia.
  - destruct (Nat.ltb_spec (Str.length s) width) as [Hlt|Hge].
    + rewrite IH by (rewrite string_length_app; unfold Str.length in *; simpl; lia).
      replace (width - Str.length s)
        with (S (width - Str.length ("0" +:+ s)))
        by (rewrite string_length_app; unfold Str.length in *; simpl; lia).
      simpl. rewrite !string_app_cons, string_app_empty_l. by rewrite repeatChar_snoc.
    + by replace (width - Str.length s) with 0 by lia.
Qed.

Lemma padWithZeros_spec numAsString width :
  padWithZeros numAsString width
  = repeatChar "0" (width - Str.length numAsString) +:+ numAsString.
Proof. apply padWithZerosLoop_spec. lia. Qed.

Lemma pretty_N_go_digits (x : N) s :
  allChars Str.isDigit s = true →
  allChars Str.isDigit (pretty_N_go x s) = true.
Proof.
  revert s. induction (N.lt_wf_0 x) as [x _ IH]; intros s Hs.
  destruct (decide (x = 0%N)) as [->|Hx].
  - by rewrite pretty_N_go_0.
  - rewrite pretty_N_go_step by lia. apply IH.
    + apply N.div_lt; lia.
    + simpl. rewrite Hs, andb_true_r.
      unfold pretty_N_char. by repeat case_match.
Qed.

Lemma pretty_N_digits (x : N) : allChars Str.isDigit (pretty x) = true.
Proof.
  unfold pretty, pretty_N. case_decide; [done|]. by apply pretty_N_go_digits.
Qed.

Lemma pretty_nat_digits (n : nat) : allChars Str.isDigit (pretty n) = true.
Proof. apply pretty_N_digits. Qed.

Lemma digit_dateValueChar c : Str.isDigit c = true → dateValueChar c = true.
Proof. unfold dateValueChar. by intros ->. Qed.

Lemma pretty_Z_valueChars (z : Z) : allChars dateValueChar (pretty z) = true.
Proof.
  destruct z as [|p|p]; [done|..].
  - apply (allChars_weaken Str.isDigit); [apply digit_dateValueChar|].
    apply (pretty_N_digits (Npos p)).
  - change (pretty (Z.neg p)) with (String "-" (pretty (Npos p))).
    simpl. apply (allChars_weaken Str.isDigit); [apply digit_dateValueChar|].
    apply (pretty_N_digits (Npos p)).
Qed.

Lemma padWithZeros_valueChars s width :
  allChars dateValueChar s = true →
  allChars dateValueChar (padWithZeros s width) = true.
Proof.
  intros Hs. rewrite padWithZeros_spec, allChars_app, Hs, andb_true_r.
  by apply allChars_repeatChar.
Qed.

End DateFacts.

Section ReplaceFacts.

Lemma replaceLoop_fuel f1 f2 r by_ s :
  Str.length s < f1 → Str.length s < f2 →
  replaceLoop f1 r by_ s = replaceLoop f2 r by_ s.
Proof.
  revert f2 s. induction f1 as [|f1 IH]; intros f2 s H1 H2; [lia|].
  destruct f2 as [|f2]; [lia|]. cbn [replaceLoop].
  destruct (matchAt 0 r s) as [[rest caps]|], s as [|c s']; try done.
  - destruct (Nat.ltb_spec (Str.length rest) (Str.length (String c s'))).
    + f_equal. apply IH; lia.
    + f_equal. f_equal. apply IH; unfold Str.length in *; simpl in *; lia.
  - f_equal. apply IH; unfold Str.length in *; simpl in *; lia.
Qed.

Lemma replace_nil r by_ : matchAt 0 r "" = None → replace r by_ "" = "".
Proof. intros H. unfold replace. cbn [replaceLoop Str.length String.length]. by rewrite H. Qed.

Lemma replace_skip r by_ c t :
  matchAt 0 r (String c t) = None →
  replace r by_ (String c t) = String c (replace r by_ t).
Proof.
  intros H. unfold replace at 1. cbn [replaceLoop]. by rewrite H.
Qed.

Lemma replace_match r by_ s t caps :
  matchAt 0 r s = Some (t, caps) → Str.length t < Str.length s →
  replace r by_ s = by_ +:+ replace r by_ t.
Proof.
  intros H Hlt. unfold replace at 1. cbn [replaceLoop]. rewrite H.
  destruct s as [|c s']; [simpl in Hlt; lia|].
  destruct (Nat.ltb_spec (Str.length t) (Str.length (String c s'))); [|lia].
  f_equal. apply replaceLoop_fuel; lia.
Qed.

Lemma replace_inert (p : ascii → bool) r by_ a t :
  (∀ c s, p c = true → matchAt 0 r (String c s) = None) →
  allChars p a = true →
  replace r by_ (a +:+ t) = a +:+ replace r by_ t.
Proof.
  intros Hp. induction a as [|c a IH]; [done|]. simpl.
  intros [Hc Ha]%andb_true_iff. rewrite !string_app_cons.
  rewrite replace_skip by auto. by rewrite IH.
Qed.

Lemma matchAt_literal_no c p c' s :
  Ascii.eqb c c' = false → matchAt 0 (literal c p) (String c' s) = None.
Proof.
  intros H. unfold matchAt. cbn [run]. destruct p; cbn [literal run]; by rewrite H.
Qed.

Lemma matchAt_Rep_no p lo hi c' s :
  p c' = false → matchAt 0 (Rep p (S lo) hi) (String c' s) = None.
Proof.
  intros H. unfold matchAt. cbn [run].
  destruct (default _ hi); cbn [rep]; by rewrite ?H.
Qed.

Lemma matchAt_Chr_no c c' s :
  Ascii.eqb c c' = false → matchAt 0 (Chr c) (String c' s) = None.
Proof. intros H. unfold matchAt. cbn [run]. by rewrite H. Qed.

Lemma dateValueChar_other c c' :
  dateValueChar c = false → dateValueChar c' = true → Ascii.eqb c c' = false.
Proof. intros H H'. destruct (Ascii.eqb_spec c c'); congruence. Qed.

End ReplaceFacts.

Section FormatFacts.

Import Date.

Lemma noMatch_literal c p :
  dateValueChar c = false →
  ∀ c' s, dateValueChar c' = true →
          matchAt 0 (literal c p) (String c' s) = None.
Proof.
  intros Hc c' s Hc'. apply matchAt_literal_no. by apply dateValueChar_other.
Qed.

Lemma noMatch_Rep c lo hi :
  dateValueChar c = false →
  ∀ c' s, dateValueChar c' = true →
          matchAt 0 (Rep (isChar c) (S lo) hi) (String c' s) = None.
Proof.
  intros Hc c' s Hc'. apply matchAt_Rep_no. by apply dateValueChar_other.
Qed.

Lemma noMatch_Chr c :
  dateValueChar c = false →
  ∀ c' s, dateValueChar c' = true → matchAt 0 (Chr c) (String c' s) = None.
Proof.
  intros Hc c' s Hc'. apply matchAt_Chr_no. by apply dateValueChar_other.
Qed.

Ltac no_match :=
  first [ apply noMatch_literal | apply noMatch_Rep | apply noMatch_Chr ];
  reflexivity.

Ltac replace_step :=
  match goal with
  | |- context [replace ?r ?b EmptyString] =>
      rewrite (replace_nil r b) by reflexivity
  | |- context [replace ?r ?b (String ?c ?t)] =>
      lazymatch t with
      | context [replace] => fail
      | _ =>
          first
            [ rewrite (replace_skip r b c t) by reflexivity
            | erewrite (replace_match r b (String c t));
              [ | reflexivity | unfold Str.length; cbn [String.length]; lia ] ]
      end
  | |- context [replace ?r ?b (?a +:+ ?t)] =>
      lazymatch t with
      | context [replace] => fail
      | _ =>
          rewrite (replace_inert dateValueChar r b a t)
            by first [assumption | no_match]
      end
  end.

Lemma offset_valueChars d : allChars dateValueChar (offset d) = true.
Proof.
  unfold offset.
  assert (∀ z : Z, allChars dateValueChar
                     (if Str.length (pretty z) =? 1 then "0" +:+ pretty z
                      else pretty z) = true) as H.
  { intros z. destruct (_ =? _); [rewrite string_app_cons, string_app_empty_l; simpl|];
      apply pretty_Z_valueChars. }
  destruct (_ <? _)%Z; rewrite string_app_cons, string_app_empty_l; simpl;
    by rewrite allChars_app, !H.
Qed.

Lemma digits_valueChars s :
  allChars Str.isDigit s = true → allChars dateValueChar s = true.
Proof. apply allChars_weaken, digit_dateValueChar. Qed.

Lemma yearShort_valueChars (z : Z) :
  allChars dateValueChar (Str.substring 3 4 (pretty z)) = true.
Proof.
  unfold Str.substring. apply allChars_prefix, allChars_substr.
  apply pretty_Z_valueChars.
Qed.

(** The values [toFormattedString] puts in, as texts of which only the
    characters are known. *)
Ltac date_values d :=
  unfold toFormattedString, addZero;
  pose proof (padWithZeros_valueChars _ 2
                (pretty_Z_valueChars (getFullYear d)));
  pose proof (padWithZeros_valueChars _ 2
                (yearShort_valueChars (getFullYear d)));
  pose proof (padWithZeros_valueChars _ 2
                (digits_valueChars _ (pretty_nat_digits (getMonth d + 1))));
  pose proof (padWithZeros_valueChars _ 2
                (digits_valueChars _ (pretty_nat_digits (getDate d))));
  pose proof (padWithZeros_valueChars _ 2
                (digits_valueChars _ (pretty_nat_digits (getHours d))));
  pose proof (padWithZeros_valueChars _ 2
                (digits_valueChars _ (pretty_nat_digits (getMinutes d))));
  pose proof (padWithZeros_valueChars _ 2
                (digits_valueChars _ (pretty_nat_digits (getSeconds d))));
  pose proof (padWithZeros_valueChars _ 3
                (digits_valueChars _
                   (pretty_nat_digits (getMilliseconds d))));
  pose proof (offset_valueChars d);
  generalize dependent (padWithZeros (pretty (getFullYear d)) 2);
  generalize dependent
    (padWithZeros (Str.substring 3 4 (pretty (getFullYear d))) 2);
  generalize dependent (padWithZeros (pretty (getMonth d + 1)) 2);
  generalize dependent (padWithZeros (pretty (getDate d)) 2);
  generalize dependent (padWithZeros (pretty (getHours d)) 2);
  generalize dependent (padWithZeros (pretty (getMinutes d)) 2);
  generalize dependent (padWithZeros (pretty (getSeconds d)) 2);
  generalize dependent (padWithZeros (pretty (getMilliseconds d)) 3);
  generalize dependent (offset d);
  intros vTimeZone ? vMillisecond ? vSecond ? vMinute ? vHour ? vDay ?
    vMonth ? vYearShort ? vYearLong ?;
  cbv beta iota zeta delta
    [Str.truthy Str.contains Str.startsWith Ascii.eqb Bool.eqb orb andb
     ISO8601_FORMAT ISO8601_WITH_TZ_OFFSET_FORMAT DATETIME_FORMAT
     ABSOLUTETIME_FORMAT];
  repeat replace_step; rewrite ?string_app_empty_r.

Lemma toFormattedString_ISO8601 (d : Date) :
  toFormattedString d (Some ISO8601_FORMAT)
  = addZero (pretty (getFullYear d)) +:+ "-"
    +:+ addZero (pretty (getMonth d + 1)) +:+ "-"
    +:+ addZero (pretty (getDate d)) +:+ " "
    +:+ addZero (pretty (getHours d)) +:+ ":"
    +:+ addZero (pretty (getMinutes d)) +:+ ":"
    +:+ addZero (pretty (getSeconds d)) +:+ "."
    +:+ padWithZeros (pretty (getMilliseconds d)) 3.
Proof. date_values d. reflexivity. Qed.

Lemma toFormattedString_default (d : Date) :
  toFormattedString d None = toFormattedString d (Some ISO8601_FORMAT) ∧
  toFormattedString d (Some "") = toFormattedString d (Some ISO8601_FORMAT).
Proof. split; date_values d; reflexivity. Qed.

Lemma toFormattedString_ABSOLUTETIME (d : Date) :
  toFormattedString d (Some ABSOLUTETIME_FORMAT)
  = addZero (pretty (getHours d)) +:+ ":"
    +:+ addZero (pretty (getMinutes d)) +:+ ":"
    +:+ addZero (pretty (getSeconds d)) +:+ "."
    +:+ padWithZeros (pretty (getMilliseconds d)) 3.
Proof. date_values d. reflexivity. Qed.

Lemma toFormattedString_ISO8601_WITH_TZ_OFFSET (d : Date) :
  toFormattedString d (Some ISO8601_WITH_TZ_OFFSET_FORMAT)
  = addZero (pretty (getFullYear d)) +:+ "-"
    +:+ addZero (pretty (getMonth d + 1)) +:+ "-"
    +:+ addZero (pretty (getDate d)) +:+ "T"
    +:+ addZero (pretty (getHours d)) +:+ ":"
    +:+ addZero (pretty (getMinutes d)) +:+ ":"
    +:+ addZero (pretty (getSeconds d)) +:+ offset d.
Proof. date_values d. reflexivity. Qed.

Lemma toFormattedString_DATETIME (d : Date) :
  toFormattedString d (Some DATETIME_FORMAT)
  = addZero (pretty (getDate d)) +:+ " "
    +:+ addZero (pretty (getMonth d + 1)) +:+ "M YYYY "
    +:+ addZero (pretty (getHours d)) +:+ ":"
    +:+ addZero (pretty (getMinutes d)) +:+ ":"
    +:+ addZero (pretty (getSeconds d)) +:+ "."
    +:+ padWithZeros (pretty (getMilliseconds d)) 3.
Proof. date_values d. reflexivity. Qed.

Lemma toFormattedString_short_year (d : Date) :
  let short := addZero (Str.substring 3 4 (pretty (getFullYear d))) in
  toFormattedString d (Some "y") = short ∧
  toFormattedString d (Some "yy") = short ∧
  toFormattedString d (Some "yyy") = short ∧
  toFormattedString d (Some "yy-MM-dd")
  = short +:+ "-" +:+ addZero (pretty (getMonth d + 1)) +:+ "-"
    +:+ addZero (pretty (getDate d)).
Proof. split_and!; date_values d; reflexivity. Qed.

End FormatFacts.

Section OffsetFacts.

Import Date.

Lemma pretty_Z_of_nat (n : nat) : pretty (Z.of_nat n) = pretty n.
Proof. by destruct n. Qed.

Lemma pretty_N_go_digit (x : N) s :
  (0 < x < 10)%N → pretty_N_go x s = String (pretty_N_char x) s.
Proof.
  intros Hx. rewrite pretty_N_go_step by lia.
  rewrite (N.div_small x 10), (N.mod_small x 10) by lia.
  apply pretty_N_go_0.
Qed.

Lemma div10_bounds (x lo hi : N) :
  (10 * lo ≤ x < 10 * hi)%N → (lo ≤ x `div` 10 < hi)%N.
Proof.
  intros [Hlo Hhi]. split.
  - by apply N.div_le_lower_bound.
  - by apply N.Div0.div_lt_upper_bound.
Qed.

(** The digits of a number below 10000. *)
Lemma pretty_N_small (n : N) :
  (n < 10000)%N →
  pretty n
  = if (n <? 10)%N then String (pretty_N_char n) ""
    else if (n <? 100)%N
    then String (pretty_N_char (n `div` 10))
           (String (pretty_N_char (n `mod` 10)) "")
    else if (n <? 1000)%N
    then String (pretty_N_char ((n `div` 10) `div` 10))
           (String (pretty_N_char ((n `div` 10) `mod` 10))
              (String (pretty_N_char (n `mod` 10)) ""))
    else String (pretty_N_char (((n `div` 10) `div` 10) `div` 10))
           (String (pretty_N_char (((n `div` 10) `div` 10) `mod` 10))
              (String (pretty_N_char ((n `div` 10) `mod` 10))
                 (String (pretty_N_char (n `mod` 10)) ""))).
Proof.
  intros Hn. unfold pretty, pretty_N.
  destruct (N.ltb_spec n 10) as [H1|H1].
  { case_decide as H0; [by subst|]. apply pretty_N_go_digit. lia. }
  rewrite decide_False by lia. rewrite pretty_N_go_step by lia.
  pose proof (div10_bounds n 1 1000 ltac:(lia)) as Hd1.
  destruct (N.ltb_spec n 100) as [H2|H2].
  { apply pretty_N_go_digit. pose proof (div10_bounds n 1 10). lia. }
  pose proof (div10_bounds n 10 1000 ltac:(lia)) as Hd1'.
  rewrite pretty_N_go_step by lia.
  destruct (N.ltb_spec n 1000) as [H3|H3].
  { apply pretty_N_go_digit.
    pose proof (div10_bounds n 10 100 ltac:(lia)).
    pose proof (div10_bounds (n `div` 10) 1 10). lia. }
  pose proof (div10_bounds n 100 1000 ltac:(lia)) as Hd1''.
  pose proof (div10_bounds (n `div` 10) 10 100 ltac:(lia)) as Hd2.
  rewrite pretty_N_go_step by lia.
  apply pretty_N_go_digit.
  pose proof (div10_bounds ((n `div` 10) `div` 10) 1 10). lia.
Qed.

Lemma length_pretty_N (n : N) :
  (n < 10000)%N →
  Str.length (pretty n)
  = if (n <? 10)%N then 1 else if (n <? 100)%N then 2
    else if (n <? 1000)%N then 3 else 4.
Proof.
  intros Hn. rewrite pretty_N_small by done.
  by repeat destruct (_ <? _)%N.
Qed.

Lemma length_pretty_Z (z : Z) :
  (0 ≤ z < 10000)%Z →
  Str.length (pretty z)
  = if (z <? 10)%Z then 1 else if (z <? 100)%Z then 2
    else if (z <? 1000)%Z then 3 else 4.
Proof.
  intros Hz.
  assert (pretty z = pretty (Z.to_N z)) as ->.
  { destruct z as [|p|p]; [done|done|lia]. }
  rewrite length_pretty_N by lia.
  destruct (N.ltb_spec (Z.to_N z) 10), (Z.ltb_spec z 10); try lia.
  destruct (N.ltb_spec (Z.to_N z) 100), (Z.ltb_spec z 100); try lia.
  destruct (N.ltb_spec (Z.to_N z) 1000), (Z.ltb_spec z 1000); lia.
Qed.

Lemma addZero_small (s : string) :
  addZero s
  = if Str.length s <? 2 then repeatChar "0" (2 - Str.length s) +:+ s else s.
Proof.
  unfold addZero. rewrite padWithZeros_spec.
  destruct (Nat.ltb_spec (Str.length s) 2); [done|].
  by replace (2 - Str.length s) with 0 by lia.
Qed.

Lemma offset_spec d :
  let tz := getTimezoneOffset d in
  (Z.abs tz < 6000)%Z →
  offset d
  = (if (tz <? 0)%Z then "+" else "-")
    +:+ addZero (pretty (Z.abs tz / 60)%Z)
    +:+ addZero (pretty (Z.abs tz mod 60)%Z) ∧
  Str.length (offset d) = 5.
Proof.
  intros tz Htz. unfold offset. fold tz.
  assert (∀ z, (0 ≤ z < 100)%Z →
               (if Str.length (pretty z) =? 1 then "0" +:+ pretty z
                else pretty z) = addZero (pretty z) ∧
               Str.length (addZero (pretty z)) = 2) as H.
  { intros z Hz. rewrite addZero_small, length_pretty_Z by lia.
    destruct (Z.ltb_spec z 10); simpl.
    - split; [done|]. rewrite string_length_app, length_pretty_Z by lia.
      by destruct (Z.ltb_spec z 10); [|lia].
    - destruct (Z.ltb_spec z 100); [|lia]. simpl. split; [done|].
      rewrite length_pretty_Z by lia.
      destruct (Z.ltb_spec z 10); [lia|].
      by destruct (Z.ltb_spec z 100); [|lia]. }
  destruct (H (Z.abs tz / 60)%Z) as [-> Hh].
  { split; [apply Z.div_pos; lia|]. apply Z.div_lt_upper_bound; lia. }
  destruct (H (Z.abs tz mod 60)%Z) as [-> Hm].
  { pose proof (Z.mod_pos_bound (Z.abs tz) 60). lia. }
  split.
  - by destruct (tz <? 0)%Z.
  - destruct (tz <? 0)%Z; rewrite !string_length_app, Hh, Hm; done.
Qed.

End OffsetFacts.

Section TextFacts.

Import PatternLayout.

Lemma prefix_of_app (x y : string) :
  Str.prefix (Str.length (x +:+ y) - Str.length y) (x +:+ y) = x.
Proof.
  rewrite string_length_app.
  replace (Str.length x + Str.length y - Str.length y) with (Str.length x)
    by lia.
  induction x as [|c x IH]; [by destruct y|].
  rewrite string_app_cons. unfold Str.length in *. simpl. by f_equal.
Qed.

Lemma substr_of_app (x y : string) : Str.substr (Str.length x) (x +:+ y) = y.
Proof.
  induction x as [|c x IH]; [done|]. rewrite string_app_cons.
  unfold Str.length in *. simpl. done.
Qed.

Lemma rep_greedy {R : Type} p lo hi t rest (k : string → option R) res :
  allChars p t = true → stopsAt p rest = true →
  lo ≤ Str.length t ≤ hi →
  k rest = Some res →
  rep p lo hi (t +:+ rest) k = Some res.
Proof.
  intros Ht Hrest Hlen Hk. revert lo hi Ht Hlen.
  induction t as [|c t IH]; intros lo hi Ht Hlen.
  - unfold Str.length in Hlen. simpl in Hlen.
    assert (lo = 0) as -> by lia. rewrite string_app_empty_l.
    destruct hi, rest as [|c rest]; cbn [rep]; try done.
    simpl in Hrest. by destruct (p c).
  - unfold Str.length in Hlen. simpl in Hlen.
    destruct hi as [|hi]; [lia|]. rewrite string_app_cons. cbn [rep].
    simpl in Ht. apply andb_true_iff in Ht as [-> Ht].
    rewrite (IH (pred lo) hi); [done|done|].
    unfold Str.length. lia.
Qed.

Lemma formatLoop_acc fuel loggingEvent searchString formattedString :
  formatLoop fuel loggingEvent searchString formattedString
  = match formatLoop fuel loggingEvent searchString "" with
    | Returned out => Returned (formattedString +:+ out)
    | Thrown e => Thrown e
    | Exhausted => Exhausted
    end.
Proof.
  revert searchString formattedString.
  induction fuel as [|fuel IH]; intros v acc; [done|]. cbn [formatLoop].
  destruct (exec 6 regex (toString v)) as [result|].
  - destruct (substr v _) as [v'| |]; [|done..].
    rewrite IH. rewrite (IH v' ("" +:+ _)).
    destruct (formatLoop fuel loggingEvent v' "") as [out| |]; [|done..].
    by rewrite string_app_empty_l, string_app_assoc.
  - by rewrite string_app_empty_r.
Qed.

(** What one turn of the loop does on a match at the start of the
    string. *)
Lemma format_step pre rest caps loggingEvent out :
  matchAt 6 regex (pre +:+ rest) = Some (rest, caps) →
  format (JsString rest) loggingEvent = Returned out →
  format (JsString (pre +:+ rest)) loggingEvent
  = Returned (formatMatch loggingEvent {| index := 0; groups := caps |}
              +:+ out).
Proof.
  intros Hm Hout.
  pose proof (matchAt_inv 6 regex _ rest caps regex_consuming Hm)
    as [Hlt H0].
  rewrite prefix_of_app in H0.
  unfold format in *. cbn [toString] in *. rewrite formatLoop_S.
  assert (exec 6 regex (pre +:+ rest)
          = Some {| index := 0; groups := caps |}) as ->.
  { unfold exec. destruct (pre +:+ rest); cbn [execFrom]; by rewrite Hm. }
  cbn [index]. unfold group at 1. cbn [groups]. rewrite H0. cbn [mjoin].
  simpl default. rewrite Nat.add_0_l, substr_of_app.
  rewrite formatLoop_acc, string_app_empty_l.
  rewrite (formatLoop_fuel _ _ _ _ _ _ Hout) by lia. done.
Qed.

Lemma isNot_eqb c c' : isNot c c' = true → Ascii.eqb c c' = false.
Proof. unfold isNot. by destruct (Ascii.eqb c c'). Qed.

(** A stretch of text without [%], up to a [%] or the end. *)
Lemma matchAt_text t rest :
  allChars (isNot "%") t = true → t ≠ "" →
  stopsAt (isNot "%") rest = true →
  matchAt 6 regex (t +:+ rest)
  = Some (rest, [Some t; None; None; None; None; None; Some t]).
Proof.
  intros Ht Hne Hrest. destruct t as [|c t]; [done|].
  pose proof Ht as Hc. simpl in Hc. apply andb_true_iff in Hc as [Hc _].
  apply isNot_eqb in Hc.
  unfold matchAt, regex. rewrite string_app_cons.
  rewrite run_Grp, run_Alt, run_Seq, run_Chr_cons, Hc.
  rewrite run_Grp. unfold Plus. cbn [Regex.run default].
  rewrite <- string_app_cons.
  erewrite rep_greedy; [|done|done| |reflexivity].
  - rewrite prefix_of_app. reflexivity.
  - rewrite string_length_app. unfold Str.length. simpl. lia.
Qed.

Lemma format_text t rest loggingEvent out :
  allChars (isNot "%") t = true → stopsAt (isNot "%") rest = true →
  format (JsString rest) loggingEvent = Returned out →
  format (JsString (t +:+ rest)) loggingEvent = Returned (t +:+ out).
Proof.
  intros Ht Hrest Hout. destruct (decide (t = "")) as [->|Hne]; [done|].
  rewrite (format_step t rest _ loggingEvent out
             (matchAt_text t rest Ht Hne Hrest) Hout).
  unfold formatMatch, group. cbn. by destruct t.
Qed.

Lemma format_empty loggingEvent : format (JsString "") loggingEvent = Returned "".
Proof. reflexivity. Qed.

End TextFacts.

Section DirectiveFacts.

Import PatternLayout.

Lemma run_Alt_some {R : Type} r1 r2 s caps
    (k : string → captures → option R) res :
  Regex.run r1 s caps k = Some res → Regex.run (Alt r1 r2) s caps k = Some res.
Proof. intros H. by rewrite run_Alt, H. Qed.

Lemma run_Plus_greedy {R : Type} p t rest caps
    (k : string → captures → option R) res :
  allChars p t = true → t ≠ "" → stopsAt p rest = true →
  k rest caps = Some res →
  Regex.run (Plus p) (t +:+ rest) caps k = Some res.
Proof.
  intros Ht Hne Hrest Hk. unfold Plus. cbn [Regex.run default].
  apply rep_greedy; [done|done| |done].
  rewrite string_length_app. destruct t; [done|]. unfold Str.length. simpl. lia.
Qed.

(** An optional group [(x?[0-9]+)?] that is there. *)
Lemma run_number_some {R : Type} i x text tail caps
    (k : string → captures → option R) res :
  Str.isDigit x = false →
  match text with
  | String c ds => if Ascii.eqb x c then isDigits ds else isDigits text
  | EmptyString => false
  end = true →
  stopsAt Str.isDigit tail = true →
  k tail (<[i := Some text]> caps) = Some res →
  Regex.run (Opt (Grp i (Seq (Opt (Chr x)) (Plus Str.isDigit))))
    (text +:+ tail) caps k = Some res.
Proof.
  intros Hx Htext Htail Hk.
  rewrite run_Opt, run_Grp, run_Seq, run_Opt.
  destruct text as [|c ds]; [done|]. rewrite string_app_cons, run_Chr_cons.
  destruct (Ascii.eqb_spec x c) as [<-|Hne].
  - apply andb_true_iff in Htext as [Hne Hds].
    rewrite (run_Plus_greedy _ ds tail _ _ res); [done|done| |done|].
    + by destruct ds.
    + rewrite <- string_app_cons, prefix_of_app. done.
  - apply andb_true_iff in Htext as [_ Hds].
    rewrite <- string_app_cons.
    rewrite (run_Plus_greedy _ (String c ds) tail _ _ res); [done|done|done|done|].
    rewrite prefix_of_app. done.
Qed.

(** An optional group [(x?[0-9]+)?] that is not there. *)
Lemma run_number_none {R : Type} i x c tail caps
    (k : string → captures → option R) :
  Ascii.eqb x c = false → Str.isDigit c = false →
  Regex.run (Opt (Grp i (Seq (Opt (Chr x)) (Plus Str.isDigit))))
    (String c tail) caps k
  = k (String c tail) caps.
Proof.
  intros Hx Hc.
  rewrite run_Opt, run_Grp, run_Seq, run_Opt, run_Chr_cons, Hx.
  by rewrite run_Plus_no.
Qed.

Lemma run_specifier_some {R : Type} s tail caps
    (k : string → captures → option R) res :
  isSpecifier s = true →
  k tail (<[4 := Some ("{" +:+ s +:+ "}")]> (<[5 := Some s]> caps)) = Some res →
  Regex.run (Opt (Grp 4 (Seq (Chr "{")
                        (Seq (Grp 5 (Plus (isNot "}"))) (Chr "}")))))
    (("{" +:+ s +:+ "}") +:+ tail) caps k = Some res.
Proof.
  intros [Hne Hs]%andb_true_iff Hk.
  rewrite run_Opt, run_Grp, run_Seq.
  rewrite !string_app_cons, !string_app_empty_l, run_Chr_cons. cbn [Ascii.eqb Bool.eqb].
  rewrite run_Seq, run_Grp. rewrite string_app_assoc, string_app_cons, string_app_empty_l.
  rewrite (run_Plus_greedy _ s (String "}" tail) _ _ res);
    [done|done|by destruct s|done|].
  rewrite run_Chr_cons. cbn [Ascii.eqb Bool.eqb].
  rewrite prefix_of_app.
  replace (String "{" (s +:+ String "}" tail))
    with (("{" +:+ s +:+ "}") +:+ tail)
    by (by rewrite !string_app_cons, !string_app_empty_l, string_app_assoc, string_app_cons).
  by rewrite prefix_of_app.
Qed.

Lemma run_specifier_none {R : Type} tail caps
    (k : string → captures → option R) :
  Str.startsWith "{" tail = false →
  Regex.run (Opt (Grp 4 (Seq (Chr "{")
                        (Seq (Grp 5 (Plus (isNot "}"))) (Chr "}")))))
    tail caps k
  = k tail caps.
Proof.
  intros H. rewrite run_Opt, run_Grp, run_Seq.
  destruct tail as [|c tail]; [done|]. rewrite run_Chr_cons.
  change (Str.startsWith "{" (String c tail))
    with (Ascii.eqb "{" c && true) in H.
  rewrite andb_true_r in H. by rewrite H.
Qed.

Lemma conversionCharacter_other c :
  isConversionCharacter c = true →
  Str.isDigit c = false ∧ Ascii.eqb "-" c = false ∧ Ascii.eqb "." c = false.
Proof. destruct c as [[] [] [] [] [] [] [] []]; by intros. Qed.

Lemma matchAt_directive padding truncation c specifier rest :
  from_option isPadding true padding = true →
  from_option isTruncation true truncation = true →
  isConversionCharacter c = true →
  from_option isSpecifier true specifier = true →
  (specifier = None → Str.startsWith "{" rest = false) →
  matchAt 6 regex (directiveText padding truncation c specifier +:+ rest)
  = Some (rest,
          [Some (directiveText padding truncation c specifier);
           padding; truncation; Some (String c "");
           (λ s, "{" +:+ s +:+ "}") <$> specifier; specifier; None]).
Proof.
  intros Hp Ht Hc Hs Hrest.
  destruct (conversionCharacter_other c Hc) as (Hd & Hm & Hdot).
  unfold matchAt. rewrite run_Grp.
  set (k0 := λ (s1 : string) (caps1 : captures), _).
  set (expected := Some _).
  unfold regex. apply run_Alt_some.
  unfold directiveText.
  rewrite !string_app_assoc, !string_app_cons, !string_app_empty_l.
  rewrite run_Seq, run_Chr_cons. cbn [Ascii.eqb Bool.eqb].
  rewrite run_Seq.
  assert (stopsAt Str.isDigit
            (default "" truncation
             +:+ String c (specifierText specifier +:+ rest)) = true) as Hstop.
  { destruct truncation as [[|c0 ds]|]; [done| |].
    - cbn [from_option isTruncation] in Ht.
      apply andb_true_iff in Ht as [Hc0 _].
      apply Ascii.eqb_eq in Hc0 as <-. done.
    - rewrite string_app_empty_l. cbn [default stopsAt]. by rewrite Hd. }
  assert (Regex.run
            (Opt (Grp 4 (Seq (Chr "{")
                           (Seq (Grp 5 (Plus (isNot "}"))) (Chr "}")))))
            (specifierText specifier +:+ rest)
            [None; padding; truncation; Some (String c ""); None; None; None]
            k0
          = expected) as Hspec.
  { destruct specifier as [sp|]; cbn [specifierText].
    - apply run_specifier_some; [done|].
      subst k0 expected. cbv beta. by rewrite prefix_of_app.
    - rewrite string_app_empty_l, run_specifier_none by auto.
      subst k0 expected. cbv beta. by rewrite prefix_of_app. }
  assert (Regex.run
            (Seq (Grp 3 (Cls isConversionCharacter))
               (Opt (Grp 4 (Seq (Chr "{")
                              (Seq (Grp 5 (Plus (isNot "}"))) (Chr "}"))))))
            (String c (specifierText specifier +:+ rest))
            [None; padding; truncation; None; None; None; None] k0
          = expected) as Hconv.
  { rewrite run_Seq, run_Grp, run_Cls_cons, Hc.
    change (String c (specifierText specifier +:+ rest))
      with (String c "" +:+ (specifierText specifier +:+ rest)).
    rewrite prefix_of_app. exact Hspec. }
  assert (Regex.run
            (Seq (Opt (Grp 2 (Seq (Opt (Chr ".")) (Plus Str.isDigit))))
               (Seq (Grp 3 (Cls isConversionCharacter))
                  (Opt (Grp 4 (Seq (Chr "{")
                                 (Seq (Grp 5 (Plus (isNot "}")))
                                    (Chr "}")))))))
            (default "" truncation
             +:+ String c (specifierText specifier +:+ rest))
            [None; padding; None; None; None; None; None] k0
          = expected) as Htrunc.
  { rewrite run_Seq. destruct truncation as [T|]; cbn [default].
    - cbn [from_option isTruncation] in Ht. destruct T as [|c0 ds]; [done|].
      apply andb_true_iff in Ht as [Hc0 Hds].
      apply Ascii.eqb_eq in Hc0 as <-.
      apply run_number_some;
        [done|exact Hds|by cbn [stopsAt]; rewrite Hd|exact Hconv].
    - rewrite string_app_empty_l, run_number_none by done. exact Hconv. }
  destruct padding as [P|]; cbn [default].
  - apply run_number_some; [done|exact Hp|exact Hstop|exact Htrunc].
  - rewrite string_app_empty_l.
    destruct truncation as [[|c0 ds]|]; [done| |].
    + cbn [from_option isTruncation] in Ht.
      pose proof Ht as Ht'. apply andb_true_iff in Ht' as [Hc0 _].
      apply Ascii.eqb_eq in Hc0 as <-.
      cbn [default from_option id] in Htrunc |- *.
      rewrite string_app_cons in Htrunc |- *.
      rewrite run_number_none by done. exact Htrunc.
    + cbn [default from_option id] in Htrunc |- *.
      rewrite string_app_empty_l in Htrunc |- *.
      rewrite run_number_none by done. exact Htrunc.
Qed.

End DirectiveFacts.

Section WidthFacts.

Import PatternLayout.

Lemma format_directive padding truncation c specifier rest loggingEvent out :
  from_option isPadding true padding = true →
  from_option isTruncation true truncation = true →
  isConversionCharacter c = true →
  from_option isSpecifier true specifier = true →
  (specifier = None → Str.startsWith "{" rest = false) →
  format (JsString rest) loggingEvent = Returned out →
  format (JsString (directiveText padding truncation c specifier +:+ rest))
    loggingEvent
  = Returned
      (truncateAndPad padding truncation
         (rawReplacement loggingEvent (Some (String c "")) specifier
            (directiveText padding truncation c specifier))
       +:+ out).
Proof.
  intros Hp Ht Hc Hs Hrest Hout.
  rewrite (format_step _ rest _ loggingEvent out
             (matchAt_directive _ _ _ _ _ Hp Ht Hc Hs Hrest) Hout).
  unfold formatMatch, group.
  cbn [groups lookup list_lookup mjoin option_join present default
       from_option id].
  reflexivity.
Qed.

Lemma digits_decimal acc s :
  allChars Str.isDigit s = true →
  Str.digits (Some (Z.of_nat acc)) s = Some (Z.of_nat (decimal acc s)).
Proof.
  revert acc. induction s as [|c s IH]; intros acc; [done|].
  cbn [allChars Str.digits decimal]. intros [-> Hs]%andb_true_iff.
  cbn [default from_option id].
  replace (10 * Z.of_nat acc + Z.of_nat (Ascii.nat_of_ascii c - 48))%Z
    with (Z.of_nat (10 * acc + (Ascii.nat_of_ascii c - 48))) by lia.
  by apply IH.
Qed.

Lemma parseInt_digits s :
  isDigits s = true → Str.parseInt s = Int (Z.of_nat (numberOf s)).
Proof.
  intros [Hne Hs]%andb_true_iff. destruct s as [|c s]; [done|].
  pose proof Hs as Hc. cbn [allChars] in Hc.
  apply andb_true_iff in Hc as [Hc Hs'].
  assert (Str.parseInt (String c s)
          = match Str.digits None (String c s) with
            | Some z => Int z
            | None => NaN
            end) as ->.
  { unfold Str.parseInt.
    assert (Str.skipWhiteSpace (String c s) = String c s) as ->.
    { cbn [Str.skipWhiteSpace].
      destruct c as [[] [] [] [] [] [] [] []]; try discriminate Hc; done. }
    destruct c as [[] [] [] [] [] [] [] []]; try discriminate Hc; done. }
  cbn [Str.digits]. rewrite Hc. cbn [default from_option id].
  change (10 * 0 + Z.of_nat (Ascii.nat_of_ascii c - 48))%Z
    with (Z.of_nat (Ascii.nat_of_ascii c - 48)).
  rewrite digits_decimal by done. done.
Qed.

Lemma padLeftLoop_spec fuel (len : nat) replacement :
  len - Str.length replacement ≤ fuel →
  padLeftLoop fuel (Z.of_nat len) replacement
  = repeatChar " " (len - Str.length replacement) +:+ replacement.
Proof.
  revert replacement. induction fuel as [|fuel IH]; intros r Hle.
  - by replace (len - Str.length r) with 0 by lia.
  - cbn [padLeftLoop].
    destruct (Z.ltb_spec (Z.of_nat (Str.length r)) (Z.of_nat len)).
    + rewrite IH by (rewrite string_length_app; unfold Str.length in *; simpl; lia).
      replace (len - Str.length r) with (S (len - Str.length (" " +:+ r)))
        by (rewrite string_length_app; unfold Str.length in *; simpl; lia).
      cbn [repeatChar]. by rewrite !string_app_cons, string_app_empty_l, repeatChar_snoc.
    + by replace (len - Str.length r) with 0 by lia.
Qed.

Lemma repeatChar_S_r c n : repeatChar c (S n) = repeatChar c n +:+ String c "".
Proof.
  by rewrite repeatChar_snoc, string_app_empty_r.
Qed.

Lemma padRightLoop_spec fuel (len : nat) replacement :
  len - Str.length replacement ≤ fuel →
  padRightLoop fuel (Z.of_nat len) replacement
  = replacement +:+ repeatChar " " (len - Str.length replacement).
Proof.
  revert replacement. induction fuel as [|fuel IH]; intros r Hle.
  - replace (len - Str.length r) with 0 by lia. by rewrite string_app_empty_r.
  - cbn [padRightLoop].
    destruct (Z.ltb_spec (Z.of_nat (Str.length r)) (Z.of_nat len)).
    + rewrite IH by (rewrite string_length_app; unfold Str.length in *; simpl; lia).
      replace (len - Str.length r) with (S (len - Str.length (r +:+ " ")))
        by (rewrite string_length_app; unfold Str.length in *; simpl; lia).
      rewrite string_app_assoc. by f_equal.
    + replace (len - Str.length r) with 0 by lia. by rewrite string_app_empty_r.
Qed.

End WidthFacts.

(** ** The properties *)

Section DateProperties.

Import Date.

(** X13.  [padWithZeros] pads on the left and never cuts: the result is
    the text after as many ["0"] as are missing to the width, so that
    its length is the larger of the width and of the length of the
    text; [addZero] is the case of the width 2. *)
Theorem padWithZeros_pads_on_the_left numAsString width :
  padWithZeros numAsString width
  = repeatChar "0" (width - Str.length numAsString) +:+ numAsString ∧
  Str.length (padWithZeros numAsString width)
  = width `max` Str.length numAsString ∧
  addZero numAsString
  = repeatChar "0" (2 - Str.length numAsString) +:+ numAsString.
Proof.
  split_and!.
  - apply padWithZeros_spec.
  - rewrite padWithZeros_spec, string_length_app, length_repeatChar. lia.
  - apply padWithZeros_spec.
Qed.

(** X14.  [offset(date)] for a time zone less than 100 hours from
    Greenwich: a sign and four digits, the hours and the minutes of the
    distance, each on two digits.  The sign is ["+"] when
    [getTimezoneOffset] is negative, that is east of Greenwich, and
    ["-"] otherwise: at Greenwich itself the text is ["-0000"]. *)
Theorem offset_sign_and_digits date :
  let tz := getTimezoneOffset date in
  (Z.abs tz < 6000)%Z →
  offset date
  = (if (tz <? 0)%Z then "+" else "-")
    +:+ addZero (pretty (Z.abs tz / 60)%Z)
    +:+ addZero (pretty (Z.abs tz mod 60)%Z) ∧
  Str.length (offset date) = 5 ∧
  (tz = 0%Z → offset date = "-0000").
Proof.
  intros tz Htz. destruct (offset_spec date Htz) as [H1 H2].
  split_and!; [done..|]. intros H0. unfold offset. fold tz. by rewrite H0.
Qed.

Lemma length_addZero_nat (n : nat) :
  n < 100 → Str.length (addZero (pretty n)) = 2.
Proof.
  intros Hn. change (pretty n) with (pretty (N.of_nat n)).
  rewrite addZero_small, length_pretty_N by lia.
  destruct (N.ltb_spec (N.of_nat n) 10); simpl.
  - rewrite string_length_app, length_pretty_N by lia.
    by destruct (N.ltb_spec (N.of_nat n) 10); [|lia].
  - destruct (N.ltb_spec (N.of_nat n) 100); [|lia]. simpl.
    rewrite length_pretty_N by lia.
    destruct (N.ltb_spec (N.of_nat n) 10); [lia|].
    by destruct (N.ltb_spec (N.of_nat n) 100); [|lia].
Qed.

(** X15.  The formats [toFormattedString] is given by name.  Without a
    format, with the empty format and with [ISO8601_FORMAT] the text is
    [yyyy-MM-dd hh:mm:ss.SSS]: the year, the month counted from 1, the
    day, the hours, minutes and seconds on two digits at least and the
    milliseconds on three; [ABSOLUTETIME_FORMAT] gives the time of the
    day alone and [ISO8601_WITH_TZ_OFFSET_FORMAT] the date, a [T], the
    time to the second and the offset.  For a date whose fields are in
    their ranges and whose year has four digits, the text without a
    format has 23 characters. *)
Theorem toFormattedString_named_formats (d : Date) :
  let date := addZero (pretty (getFullYear d)) +:+ "-"
              +:+ addZero (pretty (getMonth d + 1)) +:+ "-"
              +:+ addZero (pretty (getDate d)) in
  let seconds := addZero (pretty (getHours d)) +:+ ":"
                 +:+ addZero (pretty (getMinutes d)) +:+ ":"
                 +:+ addZero (pretty (getSeconds d)) in
  let time := seconds +:+ "."
              +:+ padWithZeros (pretty (getMilliseconds d)) 3 in
  toFormattedString d None = date +:+ " " +:+ time ∧
  toFormattedString d (Some "") = date +:+ " " +:+ time ∧
  toFormattedString d (Some ISO8601_FORMAT) = date +:+ " " +:+ time ∧
  toFormattedString d (Some ABSOLUTETIME_FORMAT) = time ∧
  toFormattedString d (Some ISO8601_WITH_TZ_OFFSET_FORMAT)
  = date +:+ "T" +:+ seconds +:+ offset d ∧
  ((1000 ≤ getFullYear d < 10000)%Z →
   getMonth d < 12 → getDate d < 32 → getHours d < 24 →
   getMinutes d < 60 → getSeconds d < 60 → getMilliseconds d < 1000 →
   Str.length (toFormattedString d None) = 23).
Proof.
  intros date seconds time.
  destruct (toFormattedString_default d) as [-> ->].
  rewrite toFormattedString_ISO8601, toFormattedString_ABSOLUTETIME,
    toFormattedString_ISO8601_WITH_TZ_OFFSET.
  subst date seconds time. rewrite !string_app_assoc.
  split_and!; try done.
  intros Hy Hmo Hd Hh Hmi Hs Hms.
  rewrite !string_length_app, !length_addZero_nat by lia.
  assert (Str.length (addZero (pretty (getFullYear d))) = 4) as ->.
  { assert (Str.length (pretty (getFullYear d)) = 4) as Hlen.
    { rewrite length_pretty_Z by lia.
      destruct (Z.ltb_spec (getFullYear d) 10); [lia|].
      destruct (Z.ltb_spec (getFullYear d) 100); [lia|].
      destruct (Z.ltb_spec (getFullYear d) 1000); [lia|done]. }
    by rewrite addZero_small, Hlen. }
  assert (Str.length (padWithZeros (pretty (getMilliseconds d)) 3) = 3) as ->.
  { rewrite padWithZeros_spec, string_length_app, length_repeatChar.
    change (pretty (getMilliseconds d))
      with (pretty (N.of_nat (getMilliseconds d))).
    rewrite length_pretty_N by lia.
    destruct (N.ltb_spec (N.of_nat (getMilliseconds d)) 10); [done|].
    destruct (N.ltb_spec (N.of_nat (getMilliseconds d)) 100); [done|].
    destruct (N.ltb_spec (N.of_nat (getMilliseconds d)) 1000); [done|lia]. }
  done.
Qed.

End DateProperties.

Section DateQuirks.

Import Date PatternLayout.

Lemma fourth_digit (n : N) :
  (1000 ≤ n < 10000)%N →
  Str.substring 3 4 (pretty n) = pretty (n `mod` 10)%N.
Proof.
  intros Hn. pose proof (N.mod_lt n 10 ltac:(lia)) as Hm.
  rewrite (pretty_N_small n), (pretty_N_small (n `mod` 10)) by lia.
  destruct (N.ltb_spec n 10); [lia|]. destruct (N.ltb_spec n 100); [lia|].
  destruct (N.ltb_spec n 1000); [lia|].
  destruct (N.ltb_spec (n `mod` 10) 10); [|lia]. done.
Qed.

(** X16.  A format without [yyyy]: a run of one to three [y] is
    replaced by the short year, which is [addZero] of the fourth
    character of the year.  For a year of four digits this is ["0"] and
    the last digit of the year (2026 gives ["06"]), not its last two
    digits. *)
Theorem short_year_is_the_fourth_digit (d : Date) :
  let short := addZero (Str.substring 3 4 (pretty (getFullYear d))) in
  toFormattedString d (Some "y") = short ∧
  toFormattedString d (Some "yy") = short ∧
  toFormattedString d (Some "yyy") = short ∧
  toFormattedString d (Some "yy-MM-dd")
  = short +:+ "-" +:+ addZero (pretty (getMonth d + 1)) +:+ "-"
    +:+ addZero (pretty (getDate d)) ∧
  ((1000 ≤ getFullYear d < 10000)%Z →
   short = "0" +:+ pretty (getFullYear d `mod` 10)%Z).
Proof.
  intros short.
  destruct (toFormattedString_short_year d) as (-> & -> & -> & ->).
  split_and!; try done. intros Hy. subst short.
  assert (pretty (getFullYear d) = pretty (Z.to_N (getFullYear d))) as ->.
  { destruct (getFullYear d); [done|done|lia]. }
  rewrite fourth_digit by lia.
  assert (pretty (getFullYear d `mod` 10)%Z
          = pretty (Z.to_N (getFullYear d) `mod` 10)%N) as ->.
  { rewrite <- (Z2N.id (getFullYear d)) at 1 by lia.
    change 10%Z with (Z.of_N 10). rewrite <- N2Z.inj_mod.
    by destruct (Z.to_N (getFullYear d) `mod` 10)%N. }
  rewrite addZero_small, length_pretty_N
    by (pose proof (N.mod_lt (Z.to_N (getFullYear d)) 10); lia).
  destruct (N.ltb_spec (Z.to_N (getFullYear d) `mod` 10) 10); [done|].
  pose proof (N.mod_lt (Z.to_N (getFullYear d)) 10). lia.
Qed.

(** X17.  [DATETIME_FORMAT], the format of [%d{DATE}], is
    ["dd MMM YYYY hh:mm:ss.SSS"]: of [MMM] the first two letters are
    replaced by the month in digits and the third stays, and [YYYY] is
    no year of the formatter, so that the text is the day, the month in
    digits, [M YYYY] and the time.  The other names of the date
    conversion, [ABSOLUTE] and [ISO8601], and the conversion without
    argument stand for [ABSOLUTETIME_FORMAT] and for the default
    format. *)
Theorem DATETIME_FORMAT_is_not_expanded (d : Date) loggingEvent :
  let time := addZero (pretty (getHours d)) +:+ ":"
              +:+ addZero (pretty (getMinutes d)) +:+ ":"
              +:+ addZero (pretty (getSeconds d)) +:+ "."
              +:+ padWithZeros (pretty (getMilliseconds d)) 3 in
  toFormattedString d (Some DATETIME_FORMAT)
  = addZero (pretty (getDate d)) +:+ " "
    +:+ addZero (pretty (getMonth d + 1)) +:+ "M YYYY " +:+ time ∧
  dateReplacement loggingEvent (Some "DATE")
  = toFormattedString (LoggingEvent.startTime loggingEvent)
      (Some DATETIME_FORMAT) ∧
  dateReplacement loggingEvent (Some "ABSOLUTE")
  = toFormattedString (LoggingEvent.startTime loggingEvent)
      (Some ABSOLUTETIME_FORMAT) ∧
  dateReplacement loggingEvent (Some "ISO8601")
  = toFormattedString (LoggingEvent.startTime loggingEvent) None ∧
  dateReplacement loggingEvent None
  = toFormattedString (LoggingEvent.startTime loggingEvent) None.
Proof.
  intros time. rewrite toFormattedString_DATETIME.
  destruct (toFormattedString_default (LoggingEvent.startTime loggingEvent))
    as [-> _].
  split_and!; done.
Qed.

End DateQuirks.

Section LayoutProperties.

Import Date PatternLayout.

Context {World : Type}.

Lemma emit_one (a : Appender World) ev (st : Registry World) :
  (emit [a] ev st).1 = (a ev (world st)).1 ∧
  world (emit [a] ev st).2 = (a ev (world st)).2.
Proof.
  cbn [emit]. change (world (noteInvoked a ev st)) with (world st).
  by destruct (a ev (world st)) as [[[]| |] w].
Qed.

Lemma basicLayout_plain loggingEvent :
  LoggingEvent.exception loggingEvent = None →
  let d := LoggingEvent.startTime loggingEvent in
  basicLayout loggingEvent
  = "[" +:+ addZero (pretty (getFullYear d)) +:+ "-"
    +:+ addZero (pretty (getMonth d + 1)) +:+ "-"
    +:+ addZero (pretty (getDate d)) +:+ " "
    +:+ addZero (pretty (getHours d)) +:+ ":"
    +:+ addZero (pretty (getMinutes d)) +:+ ":"
    +:+ addZero (pretty (getSeconds d)) +:+ "."
    +:+ padWithZeros (pretty (getMilliseconds d)) 3
    +:+ "] [" +:+ Level.toString (LoggingEvent.level loggingEvent)
    +:+ "] " +:+ LoggingEvent.categoryName loggingEvent +:+ " - "
    +:+ LoggingEvent.message loggingEvent.
Proof.
  intros He d. unfold basicLayout. fold d. rewrite He.
  destruct (toFormattedString_default d) as [-> _].
  rewrite toFormattedString_ISO8601. by rewrite !string_app_assoc.
Qed.

(** X18.  The lines of [basicLayout]: the time stamp in the default
    format between brackets, the level between brackets, the category,
    [" - "] and the message.  With an exception a second line follows,
    with the same time stamp, level and category, and then the stack of
    the exception, or its name and message when it has no stack or an
    empty one. *)
Theorem basicLayout_lines loggingEvent :
  let d := LoggingEvent.startTime loggingEvent in
  let header :=
    "[" +:+ addZero (pretty (getFullYear d)) +:+ "-"
    +:+ addZero (pretty (getMonth d + 1)) +:+ "-"
    +:+ addZero (pretty (getDate d)) +:+ " "
    +:+ addZero (pretty (getHours d)) +:+ ":"
    +:+ addZero (pretty (getMinutes d)) +:+ ":"
    +:+ addZero (pretty (getSeconds d)) +:+ "."
    +:+ padWithZeros (pretty (getMilliseconds d)) 3
    +:+ "] [" +:+ Level.toString (LoggingEvent.level loggingEvent)
    +:+ "] " +:+ LoggingEvent.categoryName loggingEvent +:+ " - " in
  let first := header +:+ LoggingEvent.message loggingEvent in
  let newline := String "010" "" in
  (LoggingEvent.exception loggingEvent = None →
   basicLayout loggingEvent = first) ∧
  (∀ e stack,
     LoggingEvent.exception loggingEvent = Some e →
     Exception.stack e = Some stack → stack ≠ "" →
     basicLayout loggingEvent = first +:+ newline +:+ header +:+ stack) ∧
  (∀ e,
     LoggingEvent.exception loggingEvent = Some e →
     Exception.stack e = None ∨ Exception.stack e = Some "" →
     basicLayout loggingEvent
     = first +:+ newline +:+ header +:+ Exception.name e +:+ ": "
       +:+ Exception.message e).
Proof.
  intros d header first newline. unfold basicLayout. fold d.
  destruct (toFormattedString_default d) as [-> _].
  rewrite toFormattedString_ISO8601. subst header first newline.
  split_and!.
  - intros ->. by rewrite !string_app_assoc.
  - intros e stack -> -> Hs. destruct stack; [done|].
    cbn [Str.truthy]. by rewrite !string_app_assoc.
  - intros e -> [-> | ->]; cbn [Str.truthy]; by rewrite !string_app_assoc.
Qed.

(** X19.  From the log call to the console: on a logger whose only
    listener is [consoleAppender()] with the default layout, a log
    method that is enabled hands exactly one text to [standardOutput],
    the line of [basicLayout] for the clock of the registry, the level
    of the method, the category of the logger and the message; the
    outcome of the call is that of [standardOutput]. *)
Theorem consoleAppender_prints_the_basic_line
    (standardOutput : string → World → Outcome unit * World)
    (st : Registry World) this l levelString lv message :
  heap st !! this = Some l →
  listeners l = [consoleAppender standardOutput None] →
  methodLevel levelString = Some lv →
  (Level.level (level l) <= Level.level lv)%Q →
  let d := now st in
  let line :=
    "[" +:+ addZero (pretty (getFullYear d)) +:+ "-"
    +:+ addZero (pretty (getMonth d + 1)) +:+ "-"
    +:+ addZero (pretty (getDate d)) +:+ " "
    +:+ addZero (pretty (getHours d)) +:+ ":"
    +:+ addZero (pretty (getMinutes d)) +:+ ":"
    +:+ addZero (pretty (getSeconds d)) +:+ "."
    +:+ padWithZeros (pretty (getMilliseconds d)) 3
    +:+ "] [" +:+ Level.toString lv
    +:+ "] " +:+ category l +:+ " - " +:+ message in
  (logMethod levelString this message None st).1
  = (standardOutput line (world st)).1 ∧
  world (logMethod levelString this message None st).2
  = (standardOutput line (world st)).2.
Proof.
  intros Hl Hls Hlv Hle d line.
  rewrite (logMethod_open _ _ l lv) by done.
  rewrite (log_unfold _ l) by done. rewrite Hls.
  set (ev := eventOf st this l lv message None).
  destruct (emit_one (consoleAppender standardOutput None) ev
              (noteConstructed ev st)) as [-> ->].
  change (world (noteConstructed ev st)) with (world st).
  unfold consoleAppender, layoutOf. cbn [default from_option id].
  rewrite (basicLayout_plain ev) by done. done.
Qed.

(** X20.  Text without [%] is copied: a template without [%] is
    rendered as itself, whatever the event, also through the function
    [patternLayout] returns when its receiver has the template as
    [pattern]; and text without [%] in front of a [%] or of the end of
    the template is copied in front of the render of what follows. *)
Theorem text_is_copied_up_to_the_next_percent t rest loggingEvent :
  allChars (isNot "%") t = true →
  (format (JsString t) loggingEvent = Returned t) ∧
  (∀ pattern this,
     this !! "pattern" = Some (JsString t) →
     patternLayout pattern this loggingEvent = Returned t) ∧
  (∀ out,
     stopsAt (isNot "%") rest = true →
     format (JsString rest) loggingEvent = Returned out →
     format (JsString (t +:+ rest)) loggingEvent = Returned (t +:+ out)).
Proof.
  intros Ht.
  assert (format (JsString t) loggingEvent = Returned t) as H.
  { rewrite <- (string_app_empty_r t) at 1.
    rewrite (format_text t "" loggingEvent ""); [|done..].
    by rewrite string_app_empty_r. }
  split_and!; [done| |].
  - intros pattern this Hthis. unfold patternLayout, getProperty.
    by rewrite Hthis.
  - intros out Hrest Hout. by apply format_text.
Qed.

(** X21.  A directive is rendered in place: for a directive made of
    [%], an optional padding ([-] and digits, or digits), an optional
    truncation (a dot and digits), a conversion character of [cdmnpr%]
    and an optional argument between braces (not empty, without [}]),
    the render of the template is the value of the conversion,
    truncated and padded, followed by the render of the rest of the
    template.  The value does not depend on the text of the
    directive. *)
Theorem directive_is_rendered_in_place padding truncation c specifier rest
    loggingEvent out :
  from_option isPadding true padding = true →
  from_option isTruncation true truncation = true →
  isConversionCharacter c = true →
  from_option isSpecifier true specifier = true →
  (specifier = None → Str.startsWith "{" rest = false) →
  format (JsString rest) loggingEvent = Returned out →
  format (JsString (directiveText padding truncation c specifier +:+ rest))
    loggingEvent
  = Returned
      (truncateAndPad padding truncation
         (rawReplacement loggingEvent (Some (String c "")) specifier "")
       +:+ out).
Proof.
  intros Hp Ht Hc Hs Hrest Hout.
  rewrite (format_directive _ _ _ _ _ _ out) by done.
  by rewrite (rawReplacement_conversion _ _ _ _ "").
Qed.


End LayoutProperties.

Section WidthProperties.

Import PatternLayout.

Lemma charAt0_dash c ds :
  String.eqb (Str.charAt0 (String c ds)) "-" = Ascii.eqb "-" c.
Proof.
  cbn [Str.charAt0 String.eqb]. rewrite Ascii.eqb_sym.
  by destruct (Ascii.eqb "-" c).
Qed.

(** X23.  Truncation and padding of a directive: the truncation
    keeps the first characters of the value, as many as its digits say;
    the padding then adds blanks up to the width its digits say, after
    the value when the padding starts with [-] and before it
    otherwise, and never cuts.  The length of the result is the larger
    of the width and of the length of the truncated value. *)
Theorem directive_width padding truncation replacement :
  from_option isPadding true padding = true →
  from_option isTruncation true truncation = true →
  let kept :=
    match truncation with
    | Some t => Str.prefix (numberOf (Str.substr 1 t)) replacement
    | None => replacement
    end in
  let blanks len := repeatChar " " (len - Str.length kept) in
  truncateAndPad padding truncation replacement
  = match padding with
    | Some p =>
        if String.eqb (Str.charAt0 p) "-"
        then kept +:+ blanks (numberOf (Str.substr 1 p))
        else blanks (numberOf p) +:+ kept
    | None => kept
    end ∧
  Str.length (truncateAndPad padding truncation replacement)
  = match padding with
    | Some p =>
        Str.length kept
        `max` (if String.eqb (Str.charAt0 p) "-"
               then numberOf (Str.substr 1 p) else numberOf p)
    | None => Str.length kept
    end.
Proof.
  intros Hp Ht kept blanks.
  assert ((if present truncation
           then Str.substring0
                  (Str.parseInt (Str.substr 1 (default "" truncation)))
                  replacement
           else replacement) = kept) as Hkept.
  { subst kept. destruct truncation as [[|c ds]|]; [done| |done].
    cbn [from_option isTruncation] in Ht.
    apply andb_true_iff in Ht as [_ Hds].
    cbn [present Str.truthy default from_option id Str.substr].
    rewrite parseInt_digits by done. cbn [Str.substring0].
    by rewrite Nat2Z.id. }
  assert (truncateAndPad padding truncation replacement
          = match padding with
            | Some p =>
                if String.eqb (Str.charAt0 p) "-"
                then kept +:+ blanks (numberOf (Str.substr 1 p))
                else blanks (numberOf p) +:+ kept
            | None => kept
            end) as Heq.
  { unfold truncateAndPad. rewrite Hkept.
    destruct padding as [[|c ds]|]; [done| |done].
    cbn [from_option isPadding] in Hp.
    cbn [present Str.truthy default from_option id].
    rewrite charAt0_dash. destruct (Ascii.eqb "-" c).
    - cbn [Str.substr]. rewrite parseInt_digits by done.
      cbn [padRight]. rewrite Nat2Z.id. apply padRightLoop_spec. lia.
    - rewrite parseInt_digits by done.
      cbn [padLeft]. rewrite Nat2Z.id. apply padLeftLoop_spec. lia. }
  split; [done|]. rewrite Heq.
  destruct padding as [p|]; [|done].
  destruct (String.eqb _ _); subst blanks; cbv beta;
    rewrite string_length_app, length_repeatChar; lia.
Qed.

End WidthProperties.

(** A use of X14: one hour east of Greenwich. *)
Lemma offset_sign_and_digits_witness :
  Date.offset Examples.clock = "+0100".
Proof.
  destruct (offset_sign_and_digits Examples.clock) as (H & _).
  - by vm_compute.
  - rewrite H. reflexivity.
Defined.

(** A use of X15: the width of the default time stamp. *)
Lemma toFormattedString_named_formats_witness :
  Str.length (Date.toFormattedString Examples.clock None) = 23.
Proof.
  apply (toFormattedString_named_formats Examples.clock);
    unfold Examples.clock; simpl; lia.
Defined.

(** A use of X16: the year 2026 in the format [yy]. *)
Lemma short_year_is_the_fourth_digit_witness :
  Date.toFormattedString Examples.clock (Some "yy") = "06".
Proof.
  pose proof (short_year_is_the_fourth_digit Examples.clock) as H.
  cbv zeta in H. destruct H as (_ & H & _ & _ & Hs).
  rewrite H, Hs; [reflexivity|]. unfold Examples.clock. simpl. lia.
Defined.

(** A use of X18: an exception without a stack. *)
Lemma basicLayout_lines_witness :
  basicLayout
    {| LoggingEvent.startTime := Examples.clock;
       LoggingEvent.categoryName := "db";
       LoggingEvent.message := "disk full";
       LoggingEvent.exception :=
         Some {| Exception.name := "Error"; Exception.message := "EIO";
                 Exception.stack := None |};
       LoggingEvent.level := WARN; LoggingEvent.logger := 0 |}
  = "[2026-11-03 09:05:07.042] [WARN] db - disk full"
    +:+ String "010" "[2026-11-03 09:05:07.042] [WARN] db - Error: EIO".
Proof.
  pose proof (basicLayout_lines
    {| LoggingEvent.startTime := Examples.clock;
       LoggingEvent.categoryName := "db";
       LoggingEvent.message := "disk full";
       LoggingEvent.exception :=
         Some {| Exception.name := "Error"; Exception.message := "EIO";
                 Exception.stack := None |};
       LoggingEvent.level := WARN; LoggingEvent.logger := 0 |}) as H.
  cbv zeta in H. destruct H as (_ & _ & H).
  rewrite (H _ eq_refl (or_introl eq_refl)). reflexivity.
Defined.

(** A use of X19: an appender for all categories, a logger, a call of
    [info]. *)
Lemma consoleAppender_prints_the_basic_line_witness :
  let out := λ (text : string) (w : list string), (Returned (), w ++ [text]) in
  let st := (getLogger (JsString "db")
               (addAppender (consoleAppender out None) (Categories [])
                  Examples.start)).2 in
  world (info 0 "ok" None st).2
  = ["[2026-11-03 09:05:07.042] [INFO] db - ok"].
Proof.
  intros out st.
  destruct (consoleAppender_prints_the_basic_line out st 0
              {| category := "db"; level := TRACE;
                 listeners := [consoleAppender out None] |}
              "Info" INFO "ok") as [_ H].
  - reflexivity.
  - reflexivity.
  - reflexivity.
  - by apply Qle_bool_iff.
  - unfold info. rewrite H. reflexivity.
Defined.

(** A use of X20. *)
Lemma text_is_copied_up_to_the_next_percent_witness :
  PatternLayout.format (JsString "no directive here")
    (Examples.event INFO "db" "ok")
  = Returned "no directive here".
Proof.
  exact (proj1 (text_is_copied_up_to_the_next_percent "no directive here" ""
                  (Examples.event INFO "db" "ok") eq_refl)).
Defined.

(** A use of X21: the level on seven columns, cut to three
    characters. *)
Lemma directive_is_rendered_in_place_witness :
  PatternLayout.format (JsString "%-7.3p|%m")
    (Examples.event INFO "db" "ok")
  = Returned "INF    |ok".
Proof.
  apply (directive_is_rendered_in_place (Some "-7") (Some ".3") "p" None
           "|%m" (Examples.event INFO "db" "ok") "|ok"); reflexivity.
Defined.


(** A use of X23. *)
Lemma directive_width_witness :
  PatternLayout.truncateAndPad (Some "-7") (Some ".3") "INFO" = "INF    ".
Proof.
  destruct (directive_width (Some "-7") (Some ".3") "INFO") as [H _];
    [reflexivity..|].
  rewrite H. reflexivity.
Defined.

(** * Properties of the configuration *)

Section ConfigurationFacts.

Context {World : Type}.
Implicit Types (st : Registry World) (a : Appender World)
  (l : Logger World) (r this : nat).








End ConfigurationFacts.

Section AppenderConfigurationFacts.

Context {World : Type}.
Variable standardOutput : string → World → Outcome unit * World.
Variable openSync : string → World → Outcome nat * World.
Variable write : nat → string → World → Outcome unit * World.
Implicit Types (st : Registry World) (a : Appender World)
  (l : Logger World) (r this : nat).

Lemma emit_silent (ls : list (Appender World)) ev st :
  Forall (λ a, a = consoleAppenderAsListener) ls →
  (emit ls ev st).1 = Returned () ∧ world (emit ls ev st).2 = world st.
Proof.
  revert st. induction ls as [|a ls IH]; intros st Hls; [done|].
  apply Forall_cons in Hls as [-> Hls].
  change (emit (consoleAppenderAsListener :: ls) ev st)
    with (emit ls ev
            (setWorld (world st)
               (noteInvoked consoleAppenderAsListener ev st))).
  by destruct (IH (setWorld (world st)
                     (noteInvoked consoleAppenderAsListener ev st)) Hls)
    as [-> ->].
Qed.

Lemma addAppenderTo_world a st category' :
  world (addAppenderTo a st category') = world st.
Proof.
  unfold addAppenderTo. set (st1 := setAppenders _ st).
  case_decide.
  - by destruct (addListenerToAll_same a st1) as (_ & _ & _ & -> & _).
  - destruct (loggers st1 !! category'); [|done].
    by destruct (addListener_same n a st1) as (_ & _ & _ & -> & _).
Qed.


(** X25.  [configureAppenders] without a list binds [consoleAppender]
    itself, not an appender it makes: after it, in a state the module
    can reach, the only appender that waits is this function, under the
    category for all loggers, and a log method on any logger, one there
    was or one made afterwards, returns and writes nothing. *)
Theorem configureAppenders_without_a_list_is_silent st :
  reachable st →
  let st1 := (configureAppenders standardOutput openSync write None st).2 in
  (configureAppenders standardOutput openSync write None st).1
  = Returned () ∧
  (∀ k, pending st1 k
        = if decide (k = ALL_CATEGORIES) then [consoleAppenderAsListener]
          else []) ∧
  (∀ categoryName levelString message exception,
     levelString ∈ levelStrings →
     let this := (getLogger categoryName st1).1 in
     let st2 := (getLogger categoryName st1).2 in
     (logMethod levelString this message exception st2).1 = Returned () ∧
     world (logMethod levelString this message exception st2).2 = world st).
Proof.
  intros Hreach st1. apply reachable_wf in Hreach.
  assert (wf (clearAppenders st)) as Hwfc
    by (by apply (wf_step st ClearAppenders)).
  destruct (clearAppenders_same st) as (_ & Hlog & Happ & Hworld & _).
  assert (st1 = addAppenderTo consoleAppenderAsListener (clearAppenders st)
                  ALL_CATEGORIES) as Hst1 by done.
  assert (∀ k, pending st1 k
               = if decide (k = ALL_CATEGORIES)
                 then [consoleAppenderAsListener] else []) as Hpend.
  { intros k. rewrite Hst1, addAppenderTo_pending. unfold pending at 1.
    rewrite Happ. simpl. rewrite lookup_empty. simpl.
    by destruct (decide (ALL_CATEGORIES = k)); case_decide. }
  assert (wf st1) as Hwf1.
  { rewrite Hst1.
    eapply wf_sameShape; [apply addAppenderTo_sameShape|done]. }
  assert (world st1 = world st) as Hw1.
  { rewrite Hst1, addAppenderTo_world. done. }
  assert (∀ r l1, heap st1 !! r = Some l1 →
                  listeners l1 = [consoleAppenderAsListener]) as Hheap.
  { intros r l1. rewrite Hst1, addAppenderTo_lookup, decide_True by auto.
    destruct (heap (clearAppenders st) !! r) as [l0|] eqn:E0; [|done].
    intros [= <-]. simpl.
    destruct Hwfc as (_ & Hreg & _).
    destruct (Hreg r (lookup_lt_Some _ _ _ E0)) as [c Hc].
    rewrite Hlog in Hc.
    rewrite (proj1 (clearAppenders_lookup st r)) in E0 by eauto.
    destruct (heap st !! r) as [l|]; [|done]. by injection E0 as <-. }
  split_and!; [done|done|].
  intros categoryName levelString message exception Hls this st2.
  assert (∃ l2, heap st2 !! this = Some l2 ∧
                Forall (λ a, a = consoleAppenderAsListener) (listeners l2) ∧
                world st2 = world st) as (l2 & Hl2 & Hall & Hw2).
  { subst this st2.
    destruct (loggers st1 !! categoryOf categoryName) as [r|] eqn:E.
    - rewrite (getLogger_found _ _ r) by done. simpl.
      destruct Hwf1 as (Hlt & _).
      destruct (lookup_lt_is_Some_2 (heap st1) r (Hlt _ _ E)) as [l1 Hl1].
      exists l1. split_and!; [done| |done].
      rewrite (Hheap r l1 Hl1). by repeat constructor.
    - destruct (getLogger_new categoryName st1 E)
        as (st' & -> & Hh & _ & _ & Hw & _).
      simpl. rewrite Hh, Hw. eexists. split_and!; [|  |done].
      + rewrite lookup_app_r by done. by rewrite Nat.sub_diag.
      + simpl. rewrite !Hpend.
        repeat case_decide; by repeat constructor. }
  destruct (methodLevel_known levelString Hls) as (lv & Hlv & _).
  unfold logMethod, isLevelEnabled. rewrite Hl2, Hlv.
  cbn [LevelOps.isLessThanOrEqualTo].
  destruct (Qle_bool _ _); [|done].
  rewrite (log_unfold _ l2) by done.
  destruct (emit_silent (listeners l2)
              (eventOf st2 this l2 lv message exception)
              (noteConstructed (eventOf st2 this l2 lv message exception) st2)
              Hall) as [-> ->].
  done.
Qed.


Lemma patternLayout_plain_call pattern loggingEvent :
  PatternLayout.patternLayout pattern globalObject loggingEvent
  = Thrown (TypeError "Cannot call method 'substr' of undefined").
Proof. reflexivity. Qed.

(** X27.  What the appenders of a configuration write.  A console
    appender without a layout or with the layout ["basic"] hands the
    lines of [basicLayout] to [standardOutput] and with the layout
    ["messagePassThrough"] the message alone; a file appender opens its
    file when it is made and writes the same texts, each followed by a
    line feed, to the descriptor it got; a level filter is the filter
    of its [level] around the appender of its [appender].  With the
    layout ["pattern"], whatever the pattern, the appender raises a
    [TypeError] on every event and writes nothing. *)
Theorem configured_appenders_write_their_layout
    filename category appender level (w : World) :
  let console layout :=
    appenderMakers standardOutput openSync write
      (Config.Build "console" layout filename category appender level) w in
  let file layout :=
    appenderMakers standardOutput openSync write
      (Config.Build "file" layout filename category appender level) w in
  let basic := {| Config.type := "basic"; Config.pattern := JsUndefined |} in
  let passThrough :=
    {| Config.type := "messagePassThrough";
       Config.pattern := JsUndefined |} in
  (∃ a, console None = (Returned a, w) ∧ console (Some basic) = (Returned a, w) ∧
        ∀ loggingEvent w',
          a loggingEvent w' = standardOutput (basicLayout loggingEvent) w') ∧
  (∃ a, console (Some passThrough) = (Returned a, w) ∧
        ∀ loggingEvent w',
          a loggingEvent w'
          = standardOutput (LoggingEvent.message loggingEvent) w') ∧
  (∀ pattern,
     ∃ a, console (Some {| Config.type := "pattern";
                           Config.pattern := pattern |}) = (Returned a, w) ∧
          ∀ loggingEvent w',
            a loggingEvent w'
            = (Thrown (TypeError "Cannot call method 'substr' of undefined"),
               w')) ∧
  (∀ logFile w1,
     openSync filename w = (Returned logFile, w1) →
     (∃ a, file None = (Returned a, w1) ∧
           file (Some basic) = (Returned a, w1) ∧
           ∀ loggingEvent w',
             a loggingEvent w'
             = write logFile (basicLayout loggingEvent +:+ String "010" "")
                 w') ∧
     (∃ a, file (Some passThrough) = (Returned a, w1) ∧
           ∀ loggingEvent w',
             a loggingEvent w'
             = write logFile
                 (LoggingEvent.message loggingEvent +:+ String "010" "") w') ∧
     (∀ pattern,
        ∃ a, file (Some {| Config.type := "pattern";
                           Config.pattern := pattern |}) = (Returned a, w1) ∧
             ∀ loggingEvent w',
               a loggingEvent w'
               = (Thrown
                    (TypeError "Cannot call method 'substr' of undefined"),
                  w'))) ∧
  (∀ e w1, openSync filename w = (Thrown e, w1) →
           ∀ layout, (∃ made, makeLayout layout = Returned made) →
                     file layout = (Thrown e, w1)) ∧
  (∀ config a w1 layout,
     appenderMakers standardOutput openSync write config w = (Returned a, w1) →
     appenderMakers standardOutput openSync write
       (Config.Build "logLevelFilter" layout filename category (Some config)
          level) w
     = (Returned (logLevelFilter level a), w1)).
Proof.
  intros console file basic passThrough. split_and!.
  - eexists. split_and!; [reflexivity|reflexivity|done].
  - eexists. split; [reflexivity|done].
  - intros pattern. eexists. split; [reflexivity|]. intros ev w'.
    cbv beta. unfold consoleAppender. cbn [default from_option id].
    by rewrite patternLayout_plain_call.
  - intros logFile w1 Hopen. subst file. cbv beta.
    cbn [appenderMakers String.eqb Ascii.eqb Bool.eqb makeLayout].
    unfold fileAppender. rewrite Hopen. split_and!.
    + eexists. split_and!; [reflexivity|reflexivity|done].
    + eexists. split; [reflexivity|done].
    + intros pattern. eexists. split; [reflexivity|]. intros ev w'.
      cbv beta. cbn [default from_option id].
      by rewrite patternLayout_plain_call.
  - intros e w1 Hopen layout [made Hl]. subst file. cbv beta.
    cbn [appenderMakers String.eqb Ascii.eqb Bool.eqb]. rewrite Hl.
    unfold fileAppender. by rewrite Hopen.
  - intros config a w1 layout Hmake.
    cbn [appenderMakers String.eqb Ascii.eqb Bool.eqb]. by rewrite Hmake.
Qed.

End AppenderConfigurationFacts.


(** A use of X25: the logger of ["db"] after a configuration without
    appenders. *)
Lemma configureAppenders_without_a_list_is_silent_witness :
  let out := λ (text : string) (w : list string), (Returned (), w ++ [text]) in
  let openFile := λ (file : string) (w : list string), (Returned 3, w) in
  let put := λ (fd : nat) (text : string) (w : list string),
               (Returned (), w ++ [text]) in
  let st1 := (configureAppenders out openFile put None Examples.busy).2 in
  world (logMethod "Error" (getLogger (JsString "db") st1).1 "lost" None
           (getLogger (JsString "db") st1).2).2
  = world Examples.busy.
Proof.
  intros out openFile put st1.
  destruct (configureAppenders_without_a_list_is_silent out openFile put
              Examples.busy) as (_ & _ & H).
  - unfold Examples.busy. eexists _, _, _. reflexivity.
  - apply (H (JsString "db") "Error" "lost" None).
    unfold levelStrings.
    repeat first [apply list_elem_of_here | apply list_elem_of_further].
Defined.


(** A use of X27: a file appender with the layout ["messagePassThrough"]. *)
Lemma configured_appenders_write_their_layout_witness :
  let out := λ (text : string) (w : list string), (Returned (), w ++ [text]) in
  let openFile := λ (file : string) (w : list string), (Returned 3, w) in
  let put := λ (fd : nat) (text : string) (w : list string),
               (Returned (), w ++ [text]) in
  ∃ a,
    appenderMakers out openFile put
      (Config.Build "file"
         (Some {| Config.type := "messagePassThrough";
                  Config.pattern := JsUndefined |})
         "app.log" (Config.Category (Some "db")) None JsUndefined) []
    = (Returned a, []) ∧
    ∀ loggingEvent w',
      a loggingEvent w'
      = put 3 (LoggingEvent.message loggingEvent +:+ String "010" "") w'.
Proof.
  intros out openFile put.
  destruct (configured_appenders_write_their_layout out openFile put
              "app.log" (Config.Category (Some "db")) None JsUndefined [])
    as (_ & _ & _ & H & _).
  destruct (H 3 [] eq_refl) as (_ & H2 & _). exact H2.
Defined.
